(** * Bias-aware temperature control: a shallow embedding

    The program (adaptive_fair_thermal_comfort) simulates a room whose
    temperature is steered by tabular Q-learning agents, and scores the
    comfort of two occupant groups.  This file embeds the thermal comfort
    model, the environment, the Q-learning agent with its three reward
    variants, the training loop and the evaluation loop, and proves the
    properties the specification states about them.

    Numbers.  The program computes with IEEE doubles.  The embedding takes
    them as exact rationals ([Q]): every arithmetic operation is the exact
    one, comparisons are the exact ones, and the literals [0.2], [0.15], ...
    are the decimal fractions they denote.  Equalities between computed
    reals are therefore stated with [==] ([Qeq]).  The one place where the
    special values of doubles decide a property (a division by a zero
    fairness gap) has its own small model, [NpFloat].

    Randomness.  Every draw of the two generators ([np.random] and
    [random]) is an explicit argument: the functions below are deterministic
    in the draws they are given, and the theorems quantify over all draws. *)

From Stdlib Require Import ZArith QArith Qminmax Qabs Qround Lqa Lia Bool.
From Stdlib Require Import String.
From stdpp Require Import base option list.

Local Open Scope Q_scope.

(** ** Python and NumPy primitives *)

Module Py.

(** The exceptions the modelled code can raise. *)
Inductive exn : Type :=
| IndexError    (* list or array index out of range *)
| ValueError    (* argmax of an empty row, randint on an empty range,
                   int() of a NaN *)
| ZeroDivisionError.

(** [a < b] on floats, as a boolean. *)
Definition ltb (a b : Q) : bool := negb (Qle_bool b a).
Definition leb (a b : Q) : bool := Qle_bool a b.

(** Built-in [max(a, b)] and [min(a, b)]: the first argument wins ties. *)
Definition max (a b : Q) : Q := if ltb a b then b else a.
Definition min (a b : Q) : Q := if ltb b a then b else a.

(** [np.clip(x, lo, hi)] is [minimum(maximum(x, lo), hi)]; when
    [lo > hi] the result is [hi]. *)
Definition clip (x lo hi : Q) : Q := min (max x lo) hi.
Definition clipZ (x lo hi : Z) : Z := Z.min (Z.max x lo) hi.

(** [int(x)] on a finite float truncates toward zero. *)
Definition int (x : Q) : Z := Z.quot (Qnum x) (Zpos (Qden x)).

(** [np.round(x)] rounds to the nearest integer, halves to the even one. *)
Definition round (x : Q) : Z :=
  let f := Qfloor x in
  let r := x - inject_Z f in
  if ltb r (1 # 2) then f
  else if ltb (1 # 2) r then (f + 1)%Z
  else if Z.even f then f else (f + 1)%Z.

(** Indexing a sequence of length [n] with a Python integer: indices
    [0 .. n-1] address from the front, [-n .. -1] from the back, anything
    else raises [IndexError]. *)
Definition index (n : nat) (i : Z) : option nat :=
  if (0 <=? i)%Z && (i <? Z.of_nat n)%Z then Some (Z.to_nat i)
  else if (- Z.of_nat n <=? i)%Z && (i <? 0)%Z
       then Some (Z.to_nat (Z.of_nat n + i))
       else None.

(** [l[i]], together with the position the index resolves to. *)
Definition locate {A} (l : list A) (i : Z) : exn + (nat * A) :=
  match index (length l) i with
  | Some k =>
      match l !! k with Some x => inr (k, x) | None => inl IndexError end
  | None => inl IndexError
  end.

Definition getitem {A} (l : list A) (i : Z) : exn + A :=
  match locate l i with inl e => inl e | inr (_, x) => inr x end.

(** Sequencing of computations that may raise. *)
Definition bind {A B} (c : exn + A) (k : A -> exn + B) : exn + B :=
  match c with inl e => inl e | inr a => k a end.

(** [np.max(row)]: raises [ValueError] on an empty row. *)
Definition np_max (row : list Q) : exn + Q :=
  match row with
  | [] => inl ValueError
  | x :: xs => inr (fold_left max xs x)
  end.

(** [np.argmax(row)]: the first position of the maximum; raises
    [ValueError] on an empty row. *)
Fixpoint argmax_from (best : Q) (best_i i : nat) (row : list Q) : nat :=
  match row with
  | [] => best_i
  | y :: ys =>
      if ltb best y then argmax_from y i (S i) ys
      else argmax_from best best_i (S i) ys
  end.

Definition np_argmax (row : list Q) : exn + Z :=
  match row with
  | [] => inl ValueError
  | x :: xs => inr (Z.of_nat (argmax_from x 0 1 xs))
  end.

End Py.

Notation "'let?' x ':=' c 'in' k" :=
  (Py.bind c (fun x => k))
  (at level 10, x pattern, c at level 100, k at level 200).

(** ** The thermal comfort model (class ASHRAEThermalComfortModel) *)

Record Prefs : Type := {
  optimal : Q;
  comfortable_range : Q * Q;
  sensitivity : Q
}.

Definition male_temp_preferences : Prefs :=
  {| optimal := 22.0; comfortable_range := (20.0, 24.0); sensitivity := 0.8 |}.

Definition female_temp_preferences : Prefs :=
  {| optimal := 24.0; comfortable_range := (22.0, 26.0); sensitivity := 1.2 |}.

(** [prefs = male if gender == 'male' else female]: every label other than
    ["male"] selects the female profile. *)
Definition prefs_of (gender : string) : Prefs :=
  if String.eqb gender "male" then male_temp_preferences
  else female_temp_preferences.

(** [calculate_thermal_sensation_vote]; [noise] is the draw of
    [np.random.normal(0, 0.2)]. *)
Definition calculate_thermal_sensation_vote
    (temperature : Q) (gender : string) (noise : Q) : Z :=
  let prefs := prefs_of gender in
  let temp_diff := temperature - optimal prefs in
  let base_tsv := temp_diff * sensitivity prefs * 0.4 in
  let tsv := base_tsv + noise in
  Py.clipZ (Py.round tsv) (-3) 3.

Definition calculate_thermal_comfort_score
    (temperature : Q) (gender : string) : Q :=
  let prefs := prefs_of gender in
  let temp_diff := Qabs (temperature - optimal prefs) in
  let comfort :=
    if Py.leb temp_diff 1.0 then 1.0 - (temp_diff * 0.2)
    else if Py.leb temp_diff 2.0 then 0.8 - ((temp_diff - 1.0) * 0.4)
    else if Py.leb temp_diff 4.0 then 0.4 - ((temp_diff - 2.0) * 0.15)
    else 0.1 in
  let comfort :=
    if String.eqb gender "female" && Py.ltb 0 temp_diff
    then comfort * 0.9 else comfort in
  Py.max 0.0 (Py.min 1.0 comfort).

Definition calculate_thermal_preference
    (temperature : Q) (gender : string) : Z :=
  let prefs := prefs_of gender in
  let temp_diff := temperature - optimal prefs in
  if Py.ltb 1.0 temp_diff then (-1)%Z
  else if Py.ltb temp_diff (-1.0) then 1%Z
  else 0%Z.


(** ** The environment (class ASHRAEEnvironment) *)

Record Env : Type := {
  male_ratio : Q;
  female_ratio : Q;
  min_temp : Q;
  max_temp : Q;
  current_temp : Q;
  action_space : list Q
}.

(** [ASHRAEEnvironment(male_ratio, min_temp, max_temp)]. *)
Definition ASHRAEEnvironment (male_ratio min_temp max_temp : Q) : Env :=
  {| male_ratio := male_ratio;
     female_ratio := 1 - male_ratio;
     min_temp := min_temp;
     max_temp := max_temp;
     current_temp := 22.0;
     action_space := [-1.0; -0.5; 0.0; 0.5; 1.0] |}.

(** [ASHRAEEnvironment(male_ratio=r)]: the bounds take their defaults. *)
Definition ASHRAEEnvironment_default (male_ratio : Q) : Env :=
  ASHRAEEnvironment male_ratio 16.0 32.0.

Definition set_current_temp (env : Env) (t : Q) : Env :=
  {| male_ratio := male_ratio env;
     female_ratio := female_ratio env;
     min_temp := min_temp env;
     max_temp := max_temp env;
     current_temp := t;
     action_space := action_space env |}.

(** [reset]; [u] is the draw of [np.random.uniform(18.0, 28.0)]. *)
Definition reset (env : Env) (u : Q) : Env * Q :=
  (set_current_temp env u, u).

(** The three normal draws of one [step]: the temperature noise
    [np.random.normal(0, 0.1)] and the noise of the two sensation votes. *)
Record StepDraws : Type := {
  noise : Q;
  male_tsv_noise : Q;
  female_tsv_noise : Q
}.

Record Info : Type := {
  male_tsv : Z;
  female_tsv : Z;
  male_preference : Z;
  female_preference : Z;
  temperature : Q
}.

(** What [step] returns:
    [(current_temp, blended_reward, male_comfort, female_comfort, info)]. *)
Record StepResult : Type := {
  new_temp : Q;
  blended_reward : Q;
  male_comfort : Q;
  female_comfort : Q;
  info : Info
}.

(** [step].  The only statement that can raise is the lookup of the action,
    which comes before the assignment to [current_temp]: on an exception
    the environment is as it was. *)
Definition step (env : Env) (action_idx : Z) (d : StepDraws)
  : Py.exn + (Env * StepResult) :=
  match Py.getitem (action_space env) action_idx with
  | inl e => inl e
  | inr action =>
      let current_temp :=
        Py.clip (current_temp env + action + noise d)
                (min_temp env) (max_temp env) in
      let env := set_current_temp env current_temp in
      let male_comfort := calculate_thermal_comfort_score current_temp "male" in
      let female_comfort :=
        calculate_thermal_comfort_score current_temp "female" in
      let male_tsv :=
        calculate_thermal_sensation_vote current_temp "male"
          (male_tsv_noise d) in
      let female_tsv :=
        calculate_thermal_sensation_vote current_temp "female"
          (female_tsv_noise d) in
      let male_preference := calculate_thermal_preference current_temp "male" in
      let female_preference :=
        calculate_thermal_preference current_temp "female" in
      let blended_reward :=
        male_ratio env * male_comfort + female_ratio env * female_comfort in
      let blended_reward :=
        if Py.ltb current_temp 18.0 || Py.ltb 28.0 current_temp
        then blended_reward - 0.3 else blended_reward in
      inr (env,
           {| new_temp := current_temp;
              blended_reward := blended_reward;
              male_comfort := male_comfort;
              female_comfort := female_comfort;
              info := {| male_tsv := male_tsv;
                         female_tsv := female_tsv;
                         male_preference := male_preference;
                         female_preference := female_preference;
                         temperature := current_temp |} |})
  end.

(** ** The agents (QLearningAgent and its three subclasses) *)

(** The class of an agent; [train_agent] dispatches on it with
    [isinstance].  The subclasses add one attribute each. *)
Inductive AgentClass : Type :=
| QLearning
| HybridAdaptive
| FairnessAware (fairness_weight : Q)
| Biased (trained_gender : string).

Record Agent : Type := {
  state_bins : Z;
  action_space_size : Z;
  alpha : Q;
  gamma : Q;
  epsilon : Q;
  epsilon_decay : Q;
  min_epsilon : Q;
  q_table : list (list Q);
  total_updates : Z;
  agent_class : AgentClass
}.

(** [__init__]: [np.zeros((state_bins, action_space_size))] raises
    [ValueError] on a negative dimension. *)
Definition new_agent (cls : AgentClass)
    (state_bins action_space_size : Z)
    (alpha gamma epsilon epsilon_decay min_epsilon : Q) : Py.exn + Agent :=
  if (state_bins <? 0)%Z || (action_space_size <? 0)%Z then inl Py.ValueError
  else inr
    {| state_bins := state_bins;
       action_space_size := action_space_size;
       alpha := alpha;
       gamma := gamma;
       epsilon := epsilon;
       epsilon_decay := epsilon_decay;
       min_epsilon := min_epsilon;
       q_table := replicate (Z.to_nat state_bins)
                    (replicate (Z.to_nat action_space_size) 0.0);
       total_updates := 0;
       agent_class := cls |}.

(** The constructor with every keyword at its default:
    [state_bins=100, action_space_size=5, alpha=0.1, gamma=0.9,
     epsilon=0.3, epsilon_decay=0.995, min_epsilon=0.01]. *)
Definition default_agent (cls : AgentClass) : Agent :=
  {| state_bins := 100;
     action_space_size := 5;
     alpha := 0.1;
     gamma := 0.9;
     epsilon := 0.3;
     epsilon_decay := 0.995;
     min_epsilon := 0.01;
     q_table := replicate 100 (replicate 5 0.0);
     total_updates := 0;
     agent_class := cls |}.

Definition set_epsilon (ag : Agent) (e : Q) : Agent :=
  {| state_bins := state_bins ag;
     action_space_size := action_space_size ag;
     alpha := alpha ag;
     gamma := gamma ag;
     epsilon := e;
     epsilon_decay := epsilon_decay ag;
     min_epsilon := min_epsilon ag;
     q_table := q_table ag;
     total_updates := total_updates ag;
     agent_class := agent_class ag |}.

(** [discretize_state(temperature, min_temp, max_temp)].  With
    [min_temp == max_temp] the quotient is 0/0, a NaN, and [int] of it
    raises [ValueError]; otherwise the quotient is finite. *)
Definition discretize_state (ag : Agent) (temperature min_temp max_temp : Q)
  : Py.exn + Z :=
  let temperature := Py.clip temperature min_temp max_temp in
  if Qeq_bool (max_temp - min_temp) 0 then inl Py.ValueError
  else
    let state :=
      Py.int ((temperature - min_temp) / (max_temp - min_temp)
              * inject_Z (state_bins ag - 1)) in
    inr (Py.clipZ state 0 (state_bins ag - 1)).

(** [discretize_state(temperature)]: the bounds take their defaults. *)
Definition discretize_state_default (ag : Agent) (temperature : Q)
  : Py.exn + Z :=
  discretize_state ag temperature 16.0 32.0.

(** [choose_action(state)]; [u] is the draw of [random.random()] and [k]
    the draw of [random.randint(0, action_space_size - 1)], which raises
    [ValueError] on an empty range. *)
Definition choose_action (ag : Agent) (state : Z) (u : Q) (k : Z)
  : Py.exn + Z :=
  if Py.ltb u (epsilon ag) then
    if (action_space_size ag - 1 <? 0)%Z then inl Py.ValueError else inr k
  else
    let? row := Py.getitem (q_table ag) state in
    Py.np_argmax row.

(** [learn(state, action, reward, next_state)].  Both reads of the table
    come before the first assignment: on an exception the agent is as it
    was. *)
Definition learn (ag : Agent) (state action : Z) (reward : Q) (next_state : Z)
  : Py.exn + Agent :=
  let? (i, row) := Py.locate (q_table ag) state in
  let? (j, old_value) := Py.locate row action in
  let? next_row := Py.getitem (q_table ag) next_state in
  let? next_max := Py.np_max next_row in
  let new_value :=
    old_value + alpha ag * (reward + gamma ag * next_max - old_value) in
  let q_table := <[i := <[j := new_value]> row]> (q_table ag) in
  let total_updates := (total_updates ag + 1)%Z in
  let epsilon :=
    if (total_updates mod 500 =? 0)%Z
    then Py.max (min_epsilon ag) (epsilon ag * epsilon_decay ag)
    else epsilon ag in
  inr {| state_bins := state_bins ag;
         action_space_size := action_space_size ag;
         alpha := alpha ag;
         gamma := gamma ag;
         epsilon := epsilon;
         epsilon_decay := epsilon_decay ag;
         min_epsilon := min_epsilon ag;
         q_table := q_table;
         total_updates := total_updates;
         agent_class := agent_class ag |}.

(** [FairnessAwareAgent.calculate_fairness_reward]. *)
Definition calculate_fairness_reward
    (fairness_weight male_comfort female_comfort : Q) : Q :=
  let overall_comfort := (male_comfort + female_comfort) / 2 in
  let fairness_penalty := Qabs (male_comfort - female_comfort) in
  overall_comfort - fairness_weight * fairness_penalty.

(** [FairnessAwareAgent.learn_with_fairness]. *)
Definition learn_with_fairness (ag : Agent) (fairness_weight : Q)
    (state action : Z) (male_comfort female_comfort : Q) (next_state : Z)
  : Py.exn + Agent :=
  let reward :=
    calculate_fairness_reward fairness_weight male_comfort female_comfort in
  learn ag state action reward next_state.

(** ** Runs: the two objects a loop mutates, and exceptions

    [train_agent] and [evaluate_agent_comprehensive] work on one agent
    object and one environment object and mutate both in place.  A run is
    a function from the store holding the two objects to the store it
    leaves behind and either a value or the exception that ended it: the
    assignments made before an exception stay made. *)

Record Store : Type := {
  agent : Agent;
  env : Env
}.

Module Run.

Definition M (A : Type) : Type := Store -> Store * (Py.exn + A).

Definition ret {A} (a : A) : M A := fun st => (st, inr a).

Definition bind {A B} (c : M A) (k : A -> M B) : M B :=
  fun st =>
    match c st with
    | (st', inl e) => (st', inl e)
    | (st', inr a) => k a st'
    end.

(** A computation that reads the store and may raise, without writing. *)
Definition read {A} (f : Store -> Py.exn + A) : M A :=
  fun st => (st, f st).

(** A method of the agent that either raises or leaves a new agent. *)
Definition on_agent (f : Agent -> Py.exn + Agent) : M unit :=
  fun st =>
    match f (agent st) with
    | inl e => (st, inl e)
    | inr ag => ({| agent := ag; env := env st |}, inr tt)
    end.

(** A method of the environment that may raise, leaves a new environment
    and returns a value. *)
Definition on_env {A} (f : Env -> Py.exn + (Env * A)) : M A :=
  fun st =>
    match f (env st) with
    | inl e => (st, inl e)
    | inr (en, a) => ({| agent := agent st; env := en |}, inr a)
    end.

(** [for i in range(start, start + count)], threading the loop's local
    variables [acc]. *)
Fixpoint for_range {L} (body : nat -> L -> M L) (start count : nat)
    (acc : L) : M L :=
  match count with
  | O => ret acc
  | S count' =>
      bind (body start acc) (for_range body (S start) count')
  end.

End Run.

Notation "x <- c ;; k" :=
  (Run.bind c (fun x => k))
  (at level 100, c at next level, right associativity).
Notation "c ;;; k" :=
  (Run.bind c (fun _ => k))
  (at level 100, right associativity).

(** The draws of one loop iteration: [explore] is [random.random()],
    [randint] is [random.randint(0, action_space_size - 1)], read only when
    the agent explores. *)
Record Draws : Type := {
  explore : Q;
  randint : Z;
  env_draws : StepDraws
}.

(** All draws of a run, by episode and by step within the episode. *)
Record Oracle : Type := {
  reset_draw : nat -> Q;
  step_draw : nat -> nat -> Draws
}.

(** ** The training loop (train_agent) *)

(** The local variables of one episode. *)
Record Episode : Type := {
  ep_state : Z;
  episode_reward : Q;
  episode_male_comfort : Q;
  episode_female_comfort : Q;
  episode_temps : list Q
}.

Record TrainMetrics : Type := {
  rewards : list Q;
  male_comforts : list Q;
  female_comforts : list Q;
  fairness_gaps : list Q;
  temperatures : list Q
}.

(** The reward [train_agent] hands to [learn], by the class of the agent
    (the [isinstance] chain of the loop body). *)
Definition agent_learning (ag : Agent) (state action : Z) (r : StepResult)
    (next_state : Z) : Py.exn + Agent :=
  match agent_class ag with
  | FairnessAware fairness_weight =>
      learn_with_fairness ag fairness_weight state action
        (male_comfort r) (female_comfort r) next_state
  | Biased trained_gender =>
      if String.eqb trained_gender "male"
      then learn ag state action (male_comfort r) next_state
      else learn ag state action (female_comfort r) next_state
  | _ => learn ag state action (blended_reward r) next_state
  end.

(** The body of the inner loop of [train_agent]. *)
Definition train_step (d : Draws) (ep : Episode) : Run.M Episode :=
  let state := ep_state ep in
  action <-
    Run.read (fun st => choose_action (agent st) state (explore d) (randint d)) ;;
  r <- Run.on_env (fun en => step en action (env_draws d)) ;;
  next_state <-
    Run.read (fun st => discretize_state_default (agent st) (new_temp r)) ;;
  Run.on_agent (fun ag => agent_learning ag state action r next_state) ;;;
  Run.ret
    {| ep_state := next_state;
       episode_reward := episode_reward ep + blended_reward r;
       episode_male_comfort := episode_male_comfort ep + male_comfort r;
       episode_female_comfort := episode_female_comfort ep + female_comfort r;
       episode_temps := episode_temps ep ++ [new_temp r] |}.

Definition np_mean (l : list Q) : Q :=
  fold_left Qplus l 0 / inject_Z (Z.of_nat (length l)).

(** The first two statements of an episode, the same in both loops:
    [state_temp = env.reset(); state = agent.discretize_state(state_temp)]. *)
Definition episode_start (o : Oracle) (episode : nat) : Run.M Z :=
  state_temp <- Run.on_env (fun en => inr (reset en (reset_draw o episode))) ;;
  Run.read (fun st => discretize_state_default (agent st) state_temp).

(** One episode of [train_agent].  The episode's sums are divided by
    [steps_per_episode]; with no step the sums are the integer 0 and the
    division raises [ZeroDivisionError]. *)
Definition train_episode (o : Oracle) (steps_per_episode : nat)
    (episode : nat) (metrics : TrainMetrics) : Run.M TrainMetrics :=
  state <- episode_start o episode ;;
  ep <- Run.for_range (fun i => train_step (step_draw o episode i))
          0 steps_per_episode
          {| ep_state := state;
             episode_reward := 0;
             episode_male_comfort := 0;
             episode_female_comfort := 0;
             episode_temps := [] |} ;;
  match steps_per_episode with
  | O => fun st => (st, inl Py.ZeroDivisionError)
  | S _ =>
      let n := inject_Z (Z.of_nat steps_per_episode) in
      Run.ret
        {| rewards := rewards metrics ++ [episode_reward ep / n];
           male_comforts :=
             male_comforts metrics ++ [episode_male_comfort ep / n];
           female_comforts :=
             female_comforts metrics ++ [episode_female_comfort ep / n];
           fairness_gaps :=
             fairness_gaps metrics ++
               [Qabs (episode_male_comfort ep - episode_female_comfort ep) / n];
           temperatures := temperatures metrics ++ [np_mean (episode_temps ep)] |}
  end.

(** [train_agent(agent, env, episodes, steps_per_episode)].  The two counts
    are naturals (negative counts are not modelled); the timing and the
    printing are left out. *)
Definition train_agent (o : Oracle) (episodes steps_per_episode : nat)
  : Run.M TrainMetrics :=
  Run.for_range (train_episode o steps_per_episode) 0 episodes
    {| rewards := []; male_comforts := []; female_comforts := [];
       fairness_gaps := []; temperatures := [] |}.

(** ** The evaluation loop (evaluate_agent_comprehensive) *)

(** The per-step log [all_metrics]. *)
Record AllMetrics : Type := {
  all_temperatures : list Q;
  all_male_comforts : list Q;
  all_female_comforts : list Q;
  male_tsvs : list Z;
  female_tsvs : list Z;
  male_preferences : list Z;
  female_preferences : list Z
}.

Definition no_metrics : AllMetrics :=
  {| all_temperatures := []; all_male_comforts := [];
     all_female_comforts := []; male_tsvs := []; female_tsvs := [];
     male_preferences := []; female_preferences := [] |}.

Definition record_step (m : AllMetrics) (r : StepResult) : AllMetrics :=
  {| all_temperatures := all_temperatures m ++ [new_temp r];
     all_male_comforts := all_male_comforts m ++ [male_comfort r];
     all_female_comforts := all_female_comforts m ++ [female_comfort r];
     male_tsvs := male_tsvs m ++ [male_tsv (info r)];
     female_tsvs := female_tsvs m ++ [female_tsv (info r)];
     male_preferences := male_preferences m ++ [male_preference (info r)];
     female_preferences :=
       female_preferences m ++ [female_preference (info r)] |}.

(** The body of the inner loop; its locals are the current state and the
    log. *)
Definition eval_step (d : Draws) (loc : Z * AllMetrics)
  : Run.M (Z * AllMetrics) :=
  let state := fst loc in
  action <-
    Run.read (fun st => choose_action (agent st) state (explore d) (randint d)) ;;
  r <- Run.on_env (fun en => step en action (env_draws d)) ;;
  next_state <-
    Run.read (fun st => discretize_state_default (agent st) (new_temp r)) ;;
  Run.ret (next_state, record_step (snd loc) r).

Definition eval_episode (o : Oracle) (steps_per_episode : nat)
    (episode : nat) (all_metrics : AllMetrics) : Run.M AllMetrics :=
  state <- episode_start o episode ;;
  loc <- Run.for_range (fun i => eval_step (step_draw o episode i))
           0 steps_per_episode (state, all_metrics) ;;
  Run.ret (snd loc).

(** [original_epsilon = agent.epsilon; agent.epsilon = 0.0]. *)
Definition eval_enter : Run.M Q :=
  original_epsilon <- Run.read (fun st => inr (epsilon (agent st))) ;;
  Run.on_agent (fun ag => inr (set_epsilon ag 0.0)) ;;;
  Run.ret original_epsilon.

(** [agent.epsilon = original_epsilon]. *)
Definition eval_exit (original_epsilon : Q) : Run.M unit :=
  Run.on_agent (fun ag => inr (set_epsilon ag original_epsilon)).

(** The statements of [evaluate_agent_comprehensive] from the saving of
    epsilon to its restoring, in program order.  The restoring is an
    ordinary statement after the loops: nothing runs it when a statement
    before it raises. *)
Definition evaluate_run (o : Oracle) (episodes steps_per_episode : nat)
  : Run.M AllMetrics :=
  original_epsilon <- eval_enter ;;
  all_metrics <-
    Run.for_range (eval_episode o steps_per_episode) 0 episodes no_metrics ;;
  eval_exit original_epsilon ;;;
  Run.ret all_metrics.

(** [evaluate_agent_comprehensive(agent, male_ratio, episodes,
    steps_per_episode)]: the agent object as the call leaves it, and the
    log or the exception.  The environment is a fresh one with the default
    bounds.  The summary the function computes from the log after the
    restoring reads neither the agent nor the environment; it is
    [evaluation_results] below, and the log is its entry
    [detailed_metrics]. *)
Definition evaluate_agent_comprehensive (ag : Agent) (male_ratio : Q)
    (episodes steps_per_episode : nat) (o : Oracle)
  : Agent * (Py.exn + AllMetrics) :=
  let env := ASHRAEEnvironment_default male_ratio in
  let out := evaluate_run o episodes steps_per_episode
               {| agent := ag; env := env |} in
  (agent (fst out), snd out).

(** ** Relative fairness improvement, on NumPy doubles

    The fairness gaps are [np.float64] values ([abs] of a difference of
    [np.mean]s), and the reports divide by the biased agent's gap.  On
    [np.float64] a division by zero raises nothing: it yields an infinity
    or a NaN.  [NpFloat.t] adds these values to the finite ones; zero is
    the positive zero, which is what [abs] returns. *)

Module NpFloat.

Inductive t : Type :=
| Fin (q : Q)
| PInf
| NInf
| NaN.

Definition neg (a : t) : t :=
  match a with Fin x => Fin (- x) | PInf => NInf | NInf => PInf | NaN => NaN end.

(** The infinity of the sign of [x]; [x] is not zero. *)
Definition inf_of_sign (x : Q) : t := if Py.ltb 0 x then PInf else NInf.

Definition sub (a b : t) : t :=
  match a, b with
  | NaN, _ | _, NaN => NaN
  | Fin x, Fin y => Fin (x - y)
  | PInf, PInf | NInf, NInf => NaN
  | PInf, _ | _, NInf => PInf
  | NInf, _ | _, PInf => NInf
  end.

Definition mul (a b : t) : t :=
  match a, b with
  | NaN, _ | _, NaN => NaN
  | Fin x, Fin y => Fin (x * y)
  | Fin x, i | i, Fin x =>
      if Qeq_bool x 0 then NaN
      else if Py.ltb 0 x then i else neg i
  | PInf, PInf | NInf, NInf => PInf
  | PInf, NInf | NInf, PInf => NInf
  end.

Definition div (a b : t) : t :=
  match a, b with
  | NaN, _ | _, NaN => NaN
  | Fin x, Fin y =>
      if Qeq_bool y 0
      then if Qeq_bool x 0 then NaN else inf_of_sign x
      else Fin (x / y)
  | Fin _, _ => Fin 0
  | i, Fin y => if Py.ltb y 0 then neg i else i
  | _, _ => NaN
  end.

End NpFloat.

(** [improvement = (biased_gap - fairness_gap) / biased_gap * 100], as
    written in [create_comprehensive_visualizations] and, four times, in
    [print_comprehensive_analysis]. *)
Definition improvement (biased_gap fairness_gap : NpFloat.t) : NpFloat.t :=
  NpFloat.mul
    (NpFloat.div (NpFloat.sub biased_gap fairness_gap) biased_gap)
    (NpFloat.Fin 100).

(** The guarded computation the specification asks for: a zero baseline
    gives the undefined value, reported as NaN. *)
Definition improvement_spec (biased_gap fairness_gap : NpFloat.t) : NpFloat.t :=
  match biased_gap with
  | NpFloat.Fin b =>
      if Qeq_bool b 0 then NpFloat.NaN else improvement biased_gap fairness_gap
  | _ => improvement biased_gap fairness_gap
  end.

(** ** Observations and repeated updates *)

(** The table entry [q_table[i, j]], if there is one. *)
Definition entry (ag : Agent) (i j : nat) : option Q :=
  match q_table ag !! i with
  | Some row => row !! j
  | None => None
  end.

(** [learn(state, action, reward, next_state)] called [n] times in a row
    with the same arguments. *)
Fixpoint learn_n (n : nat) (ag : Agent) (state action : Z) (reward : Q)
    (next_state : Z) : Py.exn + Agent :=
  match n with
  | O => inr ag
  | S n' =>
      let? ag' := learn ag state action reward next_state in
      learn_n n' ag' state action reward next_state
  end.

(** The agents that a constructed agent [ag0] becomes through successful
    updates.  [learn] is the only method that writes to an agent, and the
    training loop is its only caller. *)
Inductive trained_from (ag0 : Agent) : Agent -> Prop :=
| trained_init : trained_from ag0 ag0
| trained_learn ag state action reward next_state ag' :
    trained_from ag0 ag ->
    learn ag state action reward next_state = inr ag' ->
    trained_from ag0 ag'.

(** ** Inputs for the examples *)

(** An agent built for six actions,
    [QLearningAgent(action_space_size=6)], after one update of its sixth
    action in state 38: [agent.learn(38, 5, 1.0, 38)]. *)
Definition six_actions : Py.exn + Agent :=
  let? ag := new_agent QLearning 100 6 0.1 0.9 0.3 0.995 0.01 in
  learn ag 38 5 1.0 38.

(** An agent whose decay factor is above one:
    [QLearningAgent(state_bins=2, action_space_size=1, epsilon_decay=2.0)]. *)
Definition growing : Agent :=
  {| state_bins := 2; action_space_size := 1;
     alpha := 0.1; gamma := 0.9;
     epsilon := 0.3; epsilon_decay := 2.0; min_epsilon := 0.01;
     q_table := replicate 2 (replicate 1 0.0);
     total_updates := 0; agent_class := QLearning |}.


Definition calm : StepDraws :=
  {| noise := 0; male_tsv_noise := 0; female_tsv_noise := 0 |}.

(** A small agent and a run of draws, for the examples. *)
Definition four_bins : Agent :=
  {| state_bins := 4; action_space_size := 5;
     alpha := 0.1; gamma := 0.9;
     epsilon := 0.3; epsilon_decay := 0.995; min_epsilon := 0.01;
     q_table := replicate 4 (replicate 5 0.0);
     total_updates := 0; agent_class := Biased "male" |}.

Definition steady : Oracle :=
  {| reset_draw := fun _ => 22.3;
     step_draw := fun _ _ =>
       {| explore := 0.5; randint := 2;
          env_draws := {| noise := 0.05; male_tsv_noise := 0.1;
                          female_tsv_noise := -0.1 |} |} |}.

(** ** The summary of an evaluation

    After the loops, [evaluate_agent_comprehensive] derives its results
    from the log.  The means are [np.float64] values: the mean of an empty
    list is NaN (a warning, no exception).  The two entries that need a
    square root, [temp_std] and [temperature_stability], are not
    modelled.  The three accuracy functions subtract or compare arrays
    elementwise; they are modelled for arrays of equal lengths, which is
    what a log is, and give [None] otherwise. *)

(** [a < b] on doubles: false whenever one side is NaN. *)
Definition np_lt (a b : NpFloat.t) : bool :=
  match a, b with
  | NpFloat.Fin x, NpFloat.Fin y => Py.ltb x y
  | NpFloat.NInf, NpFloat.Fin _ | NpFloat.NInf, NpFloat.PInf
  | NpFloat.Fin _, NpFloat.PInf => true
  | _, _ => false
  end.

Definition np_add (a b : NpFloat.t) : NpFloat.t :=
  match a, b with
  | NpFloat.NaN, _ | _, NpFloat.NaN => NpFloat.NaN
  | NpFloat.Fin x, NpFloat.Fin y => NpFloat.Fin (x + y)
  | NpFloat.PInf, NpFloat.NInf | NpFloat.NInf, NpFloat.PInf => NpFloat.NaN
  | NpFloat.PInf, _ | _, NpFloat.PInf => NpFloat.PInf
  | NpFloat.NInf, _ | _, NpFloat.NInf => NpFloat.NInf
  end.

Definition np_abs (a : NpFloat.t) : NpFloat.t :=
  match a with
  | NpFloat.Fin x => NpFloat.Fin (Qabs x)
  | NpFloat.PInf | NpFloat.NInf => NpFloat.PInf
  | NpFloat.NaN => NpFloat.NaN
  end.

(** [np.mean] of a list of floats, as a double. *)
Definition mean_of (l : list Q) : NpFloat.t :=
  match l with
  | [] => NpFloat.NaN
  | _ :: _ => NpFloat.Fin (np_mean l)
  end.

(** [np.mean] of a list of booleans: the share of [True]. *)
Definition share_of (l : list bool) : NpFloat.t :=
  mean_of (map (fun b : bool => if b then 1 else 0) l).

(** Elementwise operation on two arrays of equal lengths. *)
Definition elementwise {A B C} (f : A -> B -> C) (xs : list A) (ys : list B)
  : option (list C) :=
  if Nat.eqb (length xs) (length ys)
  then Some (map (fun p => f (fst p) (snd p)) (combine xs ys))
  else None.

(** [max(0, min(1, x))] with the built-in [max] and [min]: a comparison
    with NaN is false, so [min(1, nan)] is 1. *)
Definition clamp_accuracy (x : NpFloat.t) : NpFloat.t :=
  let y := if np_lt x (NpFloat.Fin 1) then x else NpFloat.Fin 1 in
  if np_lt (NpFloat.Fin 0) y then y else NpFloat.Fin 0.

Definition target_comfort_from_tsv (tsv : Z) : Q :=
  if (Z.abs tsv <=? 1)%Z then 0.8
  else if (Z.abs tsv =? 2)%Z then 0.4
  else 0.1.

Definition half_sum (a b : NpFloat.t) : NpFloat.t :=
  NpFloat.div (np_add a b) (NpFloat.Fin 2).

(** [calculate_thermal_comfort_accuracy(metrics)]. *)
Definition calculate_thermal_comfort_accuracy (metrics : AllMetrics)
  : option NpFloat.t :=
  let male_target_comfort := map target_comfort_from_tsv (male_tsvs metrics) in
  let female_target_comfort :=
    map target_comfort_from_tsv (female_tsvs metrics) in
  match elementwise (fun c t => Qabs (c - t))
          (all_male_comforts metrics) male_target_comfort,
        elementwise (fun c t => Qabs (c - t))
          (all_female_comforts metrics) female_target_comfort with
  | Some male_errors, Some female_errors =>
      let male_accuracy :=
        NpFloat.sub (NpFloat.Fin 1) (mean_of male_errors) in
      let female_accuracy :=
        NpFloat.sub (NpFloat.Fin 1) (mean_of female_errors) in
      let male_accuracy := clamp_accuracy male_accuracy in
      let female_accuracy := clamp_accuracy female_accuracy in
      Some (half_sum male_accuracy female_accuracy)
  | _, _ => None
  end.

(** [calculate_temperature_control_accuracy(metrics)]: the count of the
    temperatures within [20, 26] over the number of temperatures; 0/0 is
    NaN. *)
Definition calculate_temperature_control_accuracy (metrics : AllMetrics)
  : NpFloat.t :=
  share_of (map (fun t => Py.leb 20.0 t && Py.leb t 26.0)
              (all_temperatures metrics)).

Definition expected_preference (tsv : Z) : Z :=
  if (1 <? tsv)%Z then (-1)%Z
  else if (tsv <? -1)%Z then 1%Z
  else 0%Z.

(** [calculate_preference_accuracy(metrics)]. *)
Definition calculate_preference_accuracy (metrics : AllMetrics)
  : option NpFloat.t :=
  let male_expected := map expected_preference (male_tsvs metrics) in
  let female_expected := map expected_preference (female_tsvs metrics) in
  match elementwise Z.eqb (male_preferences metrics) male_expected,
        elementwise Z.eqb (female_preferences metrics) female_expected with
  | Some male_hits, Some female_hits =>
      Some (half_sum (share_of male_hits) (share_of female_hits))
  | _, _ => None
  end.

(** The entries of [results] (without [temp_std], [temperature_stability]
    and [detailed_metrics], which is the log itself). *)
Record Results : Type := {
  avg_temperature : NpFloat.t;
  avg_male_comfort : NpFloat.t;
  avg_female_comfort : NpFloat.t;
  fairness_gap : NpFloat.t;
  male_satisfaction_rate : NpFloat.t;
  female_satisfaction_rate : NpFloat.t;
  overall_satisfaction_rate : NpFloat.t;
  thermal_comfort_accuracy : NpFloat.t;
  temperature_control_accuracy : NpFloat.t;
  preference_prediction_accuracy : NpFloat.t;
  overall_system_accuracy : NpFloat.t
}.

Definition satisfied (c : Q) : bool := Py.ltb 0.6 c.

(** The statements of [evaluate_agent_comprehensive] after the restoring of
    epsilon. *)
Definition evaluation_results (all_metrics : AllMetrics) : option Results :=
  match calculate_thermal_comfort_accuracy all_metrics,
        calculate_preference_accuracy all_metrics with
  | Some thermal, Some preference =>
      let temperature_control :=
        calculate_temperature_control_accuracy all_metrics in
      Some
        {| avg_temperature := mean_of (all_temperatures all_metrics);
           avg_male_comfort := mean_of (all_male_comforts all_metrics);
           avg_female_comfort := mean_of (all_female_comforts all_metrics);
           fairness_gap :=
             np_abs (NpFloat.sub
                       (mean_of (all_male_comforts all_metrics))
                       (mean_of (all_female_comforts all_metrics)));
           male_satisfaction_rate :=
             share_of (map satisfied (all_male_comforts all_metrics));
           female_satisfaction_rate :=
             share_of (map satisfied (all_female_comforts all_metrics));
           overall_satisfaction_rate :=
             share_of (map satisfied
                         (all_male_comforts all_metrics
                          ++ all_female_comforts all_metrics));
           thermal_comfort_accuracy := thermal;
           temperature_control_accuracy := temperature_control;
           preference_prediction_accuracy := preference;
           overall_system_accuracy :=
             np_add
               (np_add (NpFloat.mul (NpFloat.Fin 0.4) thermal)
                       (NpFloat.mul (NpFloat.Fin 0.3) temperature_control))
               (NpFloat.mul (NpFloat.Fin 0.3) preference) |}
  | _, _ => None
  end.

(** A log as an evaluation writes it: the comfort and preference columns
    are the comfort score and the preference signal of the temperature
    column, the vote columns are as long as the temperature column with
    votes from -3 to 3, and the temperatures lie within the default
    bounds. *)
Definition log_well_formed (m : AllMetrics) : Prop :=
  all_male_comforts m
    = map (fun t => calculate_thermal_comfort_score t "male")
        (all_temperatures m) /\
  all_female_comforts m
    = map (fun t => calculate_thermal_comfort_score t "female")
        (all_temperatures m) /\
  male_preferences m
    = map (fun t => calculate_thermal_preference t "male")
        (all_temperatures m) /\
  female_preferences m
    = map (fun t => calculate_thermal_preference t "female")
        (all_temperatures m) /\
  length (male_tsvs m) = length (all_temperatures m) /\
  length (female_tsvs m) = length (all_temperatures m) /\
  Forall (fun v => (-3 <= v <= 3)%Z) (male_tsvs m) /\
  Forall (fun v => (-3 <= v <= 3)%Z) (female_tsvs m) /\
  Forall (fun t => 16 <= t <= 32) (all_temperatures m).

(** ** The loops by the current temperature

    In both loops the state index is a local variable, assigned after the
    reset and after every step.  The definitions below are the two loops
    with that local set afresh at the head of every step, to the index
    over the fixed range [[16.0, 32.0]] of the temperature the environment
    holds at that moment.  The bounds of the environment do not occur in
    that index.  These definitions follow the statement about the state
    index, not the source; they are compared with the loops of the
    source. *)

Definition state_over_default_range : Run.M Z :=
  Run.read (fun st =>
    discretize_state (agent st) (current_temp (env st)) 16.0 32.0).

Definition train_step_over_default_range (d : Draws) (ep : Episode)
  : Run.M Episode :=
  state <- state_over_default_range ;;
  train_step d
    {| ep_state := state;
       episode_reward := episode_reward ep;
       episode_male_comfort := episode_male_comfort ep;
       episode_female_comfort := episode_female_comfort ep;
       episode_temps := episode_temps ep |}.

Definition train_episode_over_default_range (o : Oracle)
    (steps_per_episode : nat) (episode : nat) (metrics : TrainMetrics)
  : Run.M TrainMetrics :=
  state <- episode_start o episode ;;
  ep <- Run.for_range
          (fun i => train_step_over_default_range (step_draw o episode i))
          0 steps_per_episode
          {| ep_state := state;
             episode_reward := 0;
             episode_male_comfort := 0;
             episode_female_comfort := 0;
             episode_temps := [] |} ;;
  match steps_per_episode with
  | O => fun st => (st, inl Py.ZeroDivisionError)
  | S _ =>
      let n := inject_Z (Z.of_nat steps_per_episode) in
      Run.ret
        {| rewards := rewards metrics ++ [episode_reward ep / n];
           male_comforts :=
             male_comforts metrics ++ [episode_male_comfort ep / n];
           female_comforts :=
             female_comforts metrics ++ [episode_female_comfort ep / n];
           fairness_gaps :=
             fairness_gaps metrics ++
               [Qabs (episode_male_comfort ep - episode_female_comfort ep) / n];
           temperatures := temperatures metrics ++ [np_mean (episode_temps ep)] |}
  end.

Definition train_agent_over_default_range (o : Oracle)
    (episodes steps_per_episode : nat) : Run.M TrainMetrics :=
  Run.for_range (train_episode_over_default_range o steps_per_episode)
    0 episodes
    {| rewards := []; male_comforts := []; female_comforts := [];
       fairness_gaps := []; temperatures := [] |}.

Definition eval_step_over_default_range (d : Draws) (loc : Z * AllMetrics)
  : Run.M (Z * AllMetrics) :=
  state <- state_over_default_range ;;
  eval_step d (state, snd loc).

Definition eval_episode_over_default_range (o : Oracle)
    (steps_per_episode : nat) (episode : nat) (all_metrics : AllMetrics)
  : Run.M AllMetrics :=
  state <- episode_start o episode ;;
  loc <- Run.for_range
           (fun i => eval_step_over_default_range (step_draw o episode i))
           0 steps_per_episode (state, all_metrics) ;;
  Run.ret (snd loc).

Definition evaluate_run_over_default_range (o : Oracle)
    (episodes steps_per_episode : nat) : Run.M AllMetrics :=
  original_epsilon <- eval_enter ;;
  all_metrics <-
    Run.for_range (eval_episode_over_default_range o steps_per_episode)
      0 episodes no_metrics ;;
  eval_exit original_epsilon ;;;
  Run.ret all_metrics.

Definition evaluate_over_default_range (ag : Agent) (male_ratio : Q)
    (episodes steps_per_episode : nat) (o : Oracle)
  : Agent * (Py.exn + AllMetrics) :=
  let env := ASHRAEEnvironment_default male_ratio in
  let out := evaluate_run_over_default_range o episodes steps_per_episode
               {| agent := ag; env := env |} in
  (agent (fst out), snd out).

(** A reset to 40 degrees, then the draws of [steady]. *)
Definition hot_start : Oracle :=
  {| reset_draw := fun _ => 40; step_draw := step_draw steady |}.

(** * Properties *)

(** ** Facts about the primitives *)

Section PyFacts.

Lemma ltb_lt a b : Py.ltb a b = true <-> a < b.
Proof.
  unfold Py.ltb. rewrite negb_true_iff, <- not_true_iff_false, Qle_bool_iff.
  split; intros H; [apply Qnot_le_lt | apply Qlt_not_le]; exact H.
Qed.

Lemma ltb_ge a b : Py.ltb a b = false <-> b <= a.
Proof. unfold Py.ltb. rewrite negb_false_iff. apply Qle_bool_iff. Qed.

Lemma leb_le a b : Py.leb a b = true <-> a <= b.
Proof. apply Qle_bool_iff. Qed.

Lemma leb_gt a b : Py.leb a b = false <-> b < a.
Proof.
  unfold Py.leb. rewrite <- not_true_iff_false, Qle_bool_iff.
  split; intros H; [apply Qnot_le_lt | apply Qlt_not_le]; exact H.
Qed.

Lemma max_cases a b :
  (a < b /\ Py.max a b = b) \/ (b <= a /\ Py.max a b = a).
Proof.
  unfold Py.max. destruct (Py.ltb a b) eqn:E.
  - left. split; [now apply ltb_lt | reflexivity].
  - right. split; [now apply ltb_ge | reflexivity].
Qed.

Lemma min_cases a b :
  (b < a /\ Py.min a b = b) \/ (a <= b /\ Py.min a b = a).
Proof.
  unfold Py.min. destruct (Py.ltb b a) eqn:E.
  - left. split; [now apply ltb_lt | reflexivity].
  - right. split; [now apply ltb_ge | reflexivity].
Qed.

(** The built-in [max]/[min] compute the mathematical ones. *)
Lemma max_Qmax a b : Py.max a b == Qmax a b.
Proof.
  destruct (max_cases a b) as [[H ->]|[H ->]];
    destruct (Q.max_spec a b) as [[H' ->]|[H' ->]]; lra.
Qed.

Lemma min_Qmin a b : Py.min a b == Qmin a b.
Proof.
  destruct (min_cases a b) as [[H ->]|[H ->]];
    destruct (Q.min_spec a b) as [[H' ->]|[H' ->]]; lra.
Qed.

(** [max(0.0, min(1.0, x))] is the clamp of [x] to the unit interval. *)
Lemma unit_clamp x : Py.max 0.0 (Py.min 1.0 x) == Qmax 0 (Qmin 1 x).
Proof.
  destruct (min_cases 1.0 x) as [[H1 E1]|[H1 E1]]; rewrite E1;
    destruct (max_cases 0.0 (Py.min 1.0 x)) as [[H2 E2]|[H2 E2]];
    rewrite E1 in H2, E2; rewrite E2;
    destruct (Q.min_spec 1 x) as [[H3 E3]|[H3 E3]];
    destruct (Q.max_spec 0 (Qmin 1 x)) as [[H4 E4]|[H4 E4]];
    rewrite E3 in H4; rewrite E4, ?E3; lra.
Qed.

Lemma clip_between x lo hi : lo <= hi -> lo <= Py.clip x lo hi <= hi.
Proof.
  intros Hb. unfold Py.clip.
  destruct (max_cases x lo) as [[H1 ->]|[H1 ->]];
    destruct (min_cases lo hi) as [[H2 E2]|[H2 E2]];
    destruct (min_cases x hi) as [[H3 E3]|[H3 E3]];
    rewrite ?E2, ?E3; lra.
Qed.

End PyFacts.

(** Case analysis on every float comparison in the goal. *)
Ltac case_cmp :=
  repeat match goal with
  | |- context [Py.leb ?a ?b] =>
      let E := fresh "E" in
      destruct (Py.leb a b) eqn:E; [apply leb_le in E | apply leb_gt in E]
  | |- context [Py.ltb ?a ?b] =>
      let E := fresh "E" in
      destruct (Py.ltb a b) eqn:E; [apply ltb_lt in E | apply ltb_ge in E]
  end.

(** The agents of the examples are what the constructor returns. *)
Lemma examples_constructed :
  (forall cls,
      new_agent cls 100 5 0.1 0.9 0.3 0.995 0.01 = inr (default_agent cls)) /\
  new_agent (Biased "male") 4 5 0.1 0.9 0.3 0.995 0.01 = inr four_bins /\
  new_agent QLearning 2 1 0.1 0.9 0.3 2.0 0.01 = inr growing.
Proof. repeat split. Qed.

(** ** The comfort score *)

(** C6.  The comfort score is the piecewise-linear function of the
    deviation [dev = |t - optimal(g)|] given in the specification (one line
    per bracket), multiplied by 0.9 for the group "female" whenever
    [dev > 0], and clamped to [0, 1].  The optima are 22.0 for "male" and
    24.0 for "female"; at [t = 22.0] the comfort of "male" is 1.0 and the
    comfort of "female" is 0.36. *)
Theorem comfort_score_piecewise (t : Q) (g : string) :
  let dev := Qabs (t - optimal (prefs_of g)) in
  (exists base : Q,
      (dev <= 1 -> base == 1 - 0.2 * dev) /\
      (1 < dev /\ dev <= 2 -> base == 0.8 - 0.4 * (dev - 1)) /\
      (2 < dev /\ dev <= 4 -> base == 0.4 - 0.15 * (dev - 2)) /\
      (4 < dev -> base == 0.1) /\
      (g = "female"%string /\ 0 < dev ->
         calculate_thermal_comfort_score t g == Qmax 0 (Qmin 1 (base * 0.9))) /\
      (~ (g = "female"%string /\ 0 < dev) ->
         calculate_thermal_comfort_score t g == Qmax 0 (Qmin 1 base))) /\
  optimal (prefs_of "male") == 22 /\
  optimal (prefs_of "female") == 24 /\
  calculate_thermal_comfort_score 22 "male" == 1 /\
  calculate_thermal_comfort_score 22 "female" == 0.36.
Proof.
  intros dev. split; [| repeat split; reflexivity].
  unfold calculate_thermal_comfort_score. fold dev.
  set (base := if Py.leb dev 1.0 then _ else _).
  exists base. subst base.
  repeat split.
  - intros H. case_cmp; lra.
  - intros [H1 H2]. case_cmp; lra.
  - intros [H1 H2]. case_cmp; lra.
  - intros H. case_cmp; lra.
  - intros [-> H]. apply ltb_lt in H. rewrite H. apply unit_clamp.
  - intros H.
    destruct (String.eqb g "female" && Py.ltb 0 dev) eqn:E.
    + exfalso. apply H. apply andb_true_iff in E as [E1 E2].
      split; [now apply String.eqb_eq | now apply ltb_lt].
    + apply unit_clamp.
Qed.

(** ** The environment step *)

Lemma clip_clamp x lo hi : lo <= hi -> Py.clip x lo hi == Qmax lo (Qmin hi x).
Proof.
  intros Hb. unfold Py.clip.
  destruct (max_cases x lo) as [[H1 E1]|[H1 E1]]; rewrite E1;
    [destruct (min_cases lo hi) as [[H2 E2]|[H2 E2]]
    |destruct (min_cases x hi) as [[H2 E2]|[H2 E2]]]; rewrite E2;
    destruct (Q.min_spec hi x) as [[H3 E3]|[H3 E3]];
    destruct (Q.max_spec lo (Qmin hi x)) as [[H4 E4]|[H4 E4]];
    rewrite E3 in H4; rewrite E4, ?E3; lra.
Qed.

(** The five actions, by Python index. *)
Lemma action_lookup (i : Z) :
  (-5 <= i <= 4)%Z ->
  exists delta, Py.getitem [-1.0; -0.5; 0.0; 0.5; 1.0] i = inr delta.
Proof.
  intros H.
  assert (C : (i = -5 \/ i = -4 \/ i = -3 \/ i = -2 \/ i = -1 \/
               i = 0 \/ i = 1 \/ i = 2 \/ i = 3 \/ i = 4)%Z) by lia.
  repeat (destruct C as [-> | C]); try subst i; eexists; reflexivity.
Qed.

Lemma getitem_out_of_range {A} (l : list A) (i : Z) :
  (i < - Z.of_nat (length l) \/ Z.of_nat (length l) <= i)%Z ->
  Py.getitem l i = inl Py.IndexError.
Proof.
  intros H. unfold Py.getitem, Py.locate, Py.index.
  destruct (Z.leb_spec 0 i); destruct (Z.ltb_spec i (Z.of_nat (length l)));
    destruct (Z.leb_spec (- Z.of_nat (length l)) i);
    destruct (Z.ltb_spec i 0); simpl; try reflexivity; lia.
Qed.

(** C7.  In an environment as the constructor builds it, with
    [min_temp <= max_temp], a step with an index among the five actions
    returns: the new temperature is the current one plus the action's
    delta plus the noise, clamped to [[min_temp, max_temp]] whatever the
    noise; it is stored as the current temperature and lies within the
    bounds; the blended reward is [r * comfortA + (1 - r) * comfortB],
    less 0.3 exactly when the new temperature is outside [[18, 28]], a band
    strictly inside the default bounds [[16, 32]]. *)
Theorem step_clamps_and_blends (en : Env) (action_idx : Z) (d : StepDraws) :
  action_space en = [-1.0; -0.5; 0.0; 0.5; 1.0] ->
  female_ratio en == 1 - male_ratio en ->
  min_temp en <= max_temp en ->
  (0 <= action_idx < 5)%Z ->
  (exists delta en' r,
      Py.getitem (action_space en) action_idx = inr delta /\
      step en action_idx d = inr (en', r) /\
      new_temp r ==
        Qmax (min_temp en)
             (Qmin (max_temp en) (current_temp en + delta + noise d)) /\
      en' = set_current_temp en (new_temp r) /\
      current_temp en' = new_temp r /\
      min_temp en <= new_temp r <= max_temp en /\
      male_comfort r = calculate_thermal_comfort_score (new_temp r) "male" /\
      female_comfort r = calculate_thermal_comfort_score (new_temp r) "female" /\
      (18 <= new_temp r <= 28 ->
         blended_reward r ==
           male_ratio en * male_comfort r
           + (1 - male_ratio en) * female_comfort r) /\
      (new_temp r < 18 \/ 28 < new_temp r ->
         blended_reward r ==
           male_ratio en * male_comfort r
           + (1 - male_ratio en) * female_comfort r - 0.3)) /\
  min_temp (ASHRAEEnvironment_default (male_ratio en)) < 18 /\
  28 < max_temp (ASHRAEEnvironment_default (male_ratio en)).
Proof.
  intros Hact Hratio Hb Hidx.
  split; [| split; reflexivity].
  destruct (action_lookup action_idx) as [delta Hd]; [lia |].
  unfold step. rewrite Hact, Hd.
  set (t' := Py.clip (current_temp en + delta + noise d) (min_temp en) (max_temp en)).
  eexists delta, _, _. split; [reflexivity |]. split; [reflexivity |].
  cbn [new_temp current_temp male_comfort female_comfort blended_reward
       set_current_temp male_ratio female_ratio].
  split; [apply clip_clamp; exact Hb |].
  split; [reflexivity |]. split; [reflexivity |].
  split; [apply clip_between; exact Hb |].
  split; [reflexivity |]. split; [reflexivity |].
  split.
  - intros [H1 H2]. case_cmp; simpl orb; cbv iota; try lra.
    rewrite Hratio. reflexivity.
  - intros H. case_cmp; simpl orb; cbv iota; try lra;
      rewrite Hratio; reflexivity.
Qed.

(** At the upper bound the noise is clamped away: from 31.5, the action
    +1.0 and a noise of 100 leave the temperature at 32. *)
Lemma step_clamps_and_blends_witness :
  let en := set_current_temp (ASHRAEEnvironment_default 0.5) 31.5 in
  let d := {| noise := 100; male_tsv_noise := 0; female_tsv_noise := 0 |} in
  action_space en = [-1.0; -0.5; 0.0; 0.5; 1.0] /\
  female_ratio en == 1 - male_ratio en /\
  min_temp en <= max_temp en /\
  (0 <= 4 < 5)%Z /\
  exists en' r, step en 4 d = inr (en', r) /\ new_temp r <= 32.
Proof.
  intros en d.
  assert (Ha : action_space en = [-1.0; -0.5; 0.0; 0.5; 1.0]) by reflexivity.
  assert (Hr : female_ratio en == 1 - male_ratio en) by reflexivity.
  assert (Hb : min_temp en <= max_temp en) by (vm_compute; discriminate).
  assert (Hi : (0 <= 4 < 5)%Z) by lia.
  repeat split; try assumption; try lia.
  destruct (step_clamps_and_blends en 4 d Ha Hr Hb Hi)
    as [(delta & en' & r & _ & Hs & _ & _ & _ & [_ Hhi] & _) _].
  exists en', r. split; [exact Hs |].
  change (max_temp en) with 32.0 in Hhi. lra.
Defined.

(** ** Action indices out of range *)

(** C4, as stated, fails: the index -1 is outside [0 .. 4], yet the step
    returns.  It takes the last action, +1.0: from the initial 22.0 the
    new temperature is 23. *)
Lemma step_negative_index_returns :
  ~ (0 <= -1 < 5)%Z /\
  exists en' r,
    step (ASHRAEEnvironment_default 0.5) (-1) calm = inr (en', r) /\
    new_temp r == 23.
Proof.
  split; [lia |].
  eexists _, _. split; [reflexivity |]. vm_compute. reflexivity.
Qed.

(** C4, amended.  In an environment with the five actions, [step] raises
    [IndexError] exactly for the indices below -5 or above 4; for every
    index from -5 to 4 it returns, and the indices -5 .. -1 address the
    actions from the end (index [i] is the action at [i + 5]). *)
Theorem step_index_error (en : Env) (action_idx : Z) (d : StepDraws) :
  action_space en = [-1.0; -0.5; 0.0; 0.5; 1.0] ->
  ((action_idx < -5 \/ 4 < action_idx)%Z ->
     step en action_idx d = inl Py.IndexError) /\
  ((-5 <= action_idx <= 4)%Z ->
     exists out, step en action_idx d = inr out) /\
  ((-5 <= action_idx < 0)%Z ->
     step en action_idx d = step en (action_idx + 5) d).
Proof.
  intros Hact. repeat split.
  - intros H. unfold step.
    rewrite getitem_out_of_range; [reflexivity |].
    rewrite Hact. simpl length. lia.
  - intros H. destruct (action_lookup action_idx H) as [delta Hd].
    unfold step. rewrite Hact, Hd. eexists. reflexivity.
  - intros H. unfold step. rewrite Hact.
    assert (C : (action_idx = -5 \/ action_idx = -4 \/ action_idx = -3 \/
                 action_idx = -2 \/ action_idx = -1)%Z) by lia.
    repeat (destruct C as [-> | C]); try subst action_idx; reflexivity.
Qed.

Lemma step_index_error_witness :
  action_space (ASHRAEEnvironment_default 0.5) = [-1.0; -0.5; 0.0; 0.5; 1.0] /\
  step (ASHRAEEnvironment_default 0.5) 5 calm = inl Py.IndexError /\
  step (ASHRAEEnvironment_default 0.5) (-6) calm = inl Py.IndexError.
Proof.
  assert (Ha : action_space (ASHRAEEnvironment_default 0.5)
               = [-1.0; -0.5; 0.0; 0.5; 1.0]) by reflexivity.
  split; [exact Ha |]. split.
  - destruct (step_index_error (ASHRAEEnvironment_default 0.5) 5 calm Ha)
      as [H _]. apply H. right. reflexivity.
  - destruct (step_index_error (ASHRAEEnvironment_default 0.5) (-6) calm Ha)
      as [H _]. apply H. left. reflexivity.
Defined.

(** ** Discretization *)

(** On a non-negative float, [int] is the floor. *)
Lemma int_floor (x : Q) : 0 <= x -> Py.int x = Qfloor x.
Proof.
  destruct x as [n p]. unfold Qle, Py.int, Qfloor. simpl. intros H.
  apply Z.quot_div_nonneg; lia.
Qed.

(** The share of the clamped temperature in the range lies in [0, 1], so
    the mapped value lies in [0, bins - 1]. *)
Lemma mapped_range (c lo hi : Q) (n : Z) :
  lo < hi -> lo <= c <= hi -> (0 <= n)%Z ->
  0 <= (c - lo) / (hi - lo) * inject_Z n <= inject_Z n.
Proof.
  intros Hlt [H1 H2] Hn.
  assert (Hd : 0 < hi - lo) by lra.
  assert (Hz : 0 <= inject_Z n) by (unfold Qle; simpl; lia).
  assert (Hu0 : 0 <= (c - lo) / (hi - lo)).
  { apply Qle_shift_div_l; [exact Hd | lra]. }
  assert (Hu1 : (c - lo) / (hi - lo) <= 1).
  { apply Qle_shift_div_r; [exact Hd | lra]. }
  split.
  - apply Qmult_le_0_compat; assumption.
  - apply Qle_trans with (1 * inject_Z n); [| rewrite Qmult_1_l; apply Qle_refl].
    apply Qmult_le_compat_r; assumption.
Qed.

(** C2, as stated, fails: with 100 bins, 16.1 degrees maps to 0.61875,
    whose nearest integer is 1 (the only integer within 1/2 of it, and what
    rounding to nearest gives), but [discretize_state] returns 0. *)
Lemma discretize_state_not_nearest :
  let ag := default_agent QLearning in
  let mapped :=
    (Qmax 16 (Qmin 32 16.1) - 16) / (32 - 16) * inject_Z (state_bins ag - 1) in
  mapped == 0.61875 /\
  (forall k : Z, Qabs (mapped - inject_Z k) <= 1 # 2 -> k = 1%Z) /\
  Py.round mapped = 1%Z /\
  discretize_state ag 16.1 16.0 32.0 = inr 0%Z.
Proof.
  intros ag mapped.
  assert (Hm : mapped == 0.61875) by (vm_compute; reflexivity).
  split; [exact Hm |]. split; [| split; vm_compute; reflexivity].
  intros k Hk. rewrite Hm in Hk.
  apply Qabs_Qle_condition in Hk. destruct Hk as [H1 H2].
  unfold Qle, Qminus, Qplus, Qopp, inject_Z in H1, H2. simpl in H1, H2. lia.
Qed.

(** C2, amended.  With [min_temp < max_temp] and at least one bin,
    [discretize_state] clamps the temperature to the bounds, maps it
    linearly onto [[0, bins - 1]], takes the integer part of the mapped
    value (its floor: the largest integer not above it) and reclamps to
    [[0, bins - 1]], which changes nothing. *)
Theorem discretize_state_floor (ag : Agent) (t lo hi : Q) :
  lo < hi -> (1 <= state_bins ag)%Z ->
  let clamped := Qmax lo (Qmin hi t) in
  let mapped := (clamped - lo) / (hi - lo) * inject_Z (state_bins ag - 1) in
  0 <= mapped <= inject_Z (state_bins ag - 1) /\
  exists idx : Z,
    discretize_state ag t lo hi = inr idx /\
    idx = Py.clipZ (Qfloor mapped) 0 (state_bins ag - 1) /\
    idx = Qfloor mapped /\
    inject_Z idx <= mapped < inject_Z idx + 1 /\
    (0 <= idx <= state_bins ag - 1)%Z.
Proof.
  intros Hlt Hbins clamped mapped.
  assert (Hle : lo <= hi) by lra.
  pose proof (clip_clamp t lo hi Hle) as Hc. fold clamped in Hc.
  pose proof (clip_between t lo hi Hle) as Hcb.
  assert (Hcl : lo <= clamped <= hi) by (rewrite <- Hc; exact Hcb).
  assert (Hm : 0 <= mapped <= inject_Z (state_bins ag - 1))
    by (apply mapped_range; [exact Hlt | exact Hcl | lia]).
  split; [exact Hm |].
  assert (Hfl : (0 <= Qfloor mapped <= state_bins ag - 1)%Z).
  { split.
    - change 0%Z with (Qfloor 0). apply Qfloor_resp_le. apply Hm.
    - rewrite <- (Qfloor_Z (state_bins ag - 1)). apply Qfloor_resp_le. apply Hm. }
  exists (Qfloor mapped).
  split; [| split; [| split; [reflexivity | split; [| exact Hfl]]]].
  - unfold discretize_state.
    assert (Hz : Qeq_bool (hi - lo) 0 = false).
    { destruct (Qeq_bool (hi - lo) 0) eqn:E; [| reflexivity].
      apply Qeq_bool_eq in E. lra. }
    rewrite Hz.
    set (m := (Py.clip t lo hi - lo) / (hi - lo) * inject_Z (state_bins ag - 1)).
    assert (Hmm : m == mapped) by (unfold m, mapped; rewrite Hc; reflexivity).
    rewrite int_floor by (rewrite Hmm; apply Hm).
    rewrite Hmm. f_equal. unfold Py.clipZ. lia.
  - unfold Py.clipZ. lia.
  - split; [apply Qfloor_le |].
    pose proof (Qlt_floor mapped) as H. rewrite inject_Z_plus in H. exact H.
Qed.

Lemma discretize_state_floor_witness :
  16.0 < 32.0 /\ (1 <= state_bins (default_agent QLearning))%Z /\
  discretize_state (default_agent QLearning) 16.1 16.0 32.0 = inr 0%Z.
Proof.
  assert (Hlt : 16.0 < 32.0) by reflexivity.
  assert (Hb : (1 <= state_bins (default_agent QLearning))%Z)
    by (vm_compute; discriminate).
  split; [exact Hlt |]. split; [exact Hb |].
  destruct (discretize_state_floor (default_agent QLearning) 16.1 16.0 32.0
              Hlt Hb) as [_ (idx & Hd & _ & Hi & _)].
  rewrite Hd, Hi. vm_compute. reflexivity.
Defined.

(** ** One step of the training loop *)

(** What a training step that returns has done, statement by statement. *)
Lemma train_step_inv d ep st st' ep' :
  train_step d ep st = (st', inr ep') ->
  exists action r next_state,
    choose_action (agent st) (ep_state ep) (explore d) (randint d)
      = inr action /\
    step (env st) action (env_draws d) = inr (env st', r) /\
    discretize_state_default (agent st) (new_temp r) = inr next_state /\
    agent_learning (agent st) (ep_state ep) action r next_state
      = inr (agent st') /\
    ep_state ep' = next_state.
Proof.
  unfold train_step, Run.bind, Run.read, Run.on_env, Run.on_agent, Run.ret.
  destruct (choose_action _ _ _ _) as [e | action] eqn:Ha; [discriminate |].
  destruct (step _ _ _) as [e | [en r]] eqn:Hs; [discriminate |].
  cbn [agent env].
  destruct (discretize_state_default _ _) as [e | next_state] eqn:Hd;
    [discriminate |].
  destruct (agent_learning _ _ _ _ _) as [e | ag'] eqn:Hl; [discriminate |].
  intros H. injection H as <- <-.
  exists action, r, next_state. cbn [agent env ep_state]. auto.
Qed.

Lemma eval_step_inv d loc st st' loc' :
  eval_step d loc st = (st', inr loc') ->
  exists action r next_state,
    choose_action (agent st) (fst loc) (explore d) (randint d) = inr action /\
    step (env st) action (env_draws d) = inr (env st', r) /\
    discretize_state_default (agent st) (new_temp r) = inr next_state /\
    agent st' = agent st /\
    loc' = (next_state, record_step (snd loc) r).
Proof.
  unfold eval_step, Run.bind, Run.read, Run.on_env, Run.ret.
  destruct (choose_action _ _ _ _) as [e | action] eqn:Ha; [discriminate |].
  destruct (step _ _ _) as [e | [en r]] eqn:Hs; [discriminate |].
  cbn [agent env].
  destruct (discretize_state_default _ _) as [e | next_state] eqn:Hd;
    [discriminate |].
  intros H. injection H as <- <-.
  exists action, r, next_state. cbn [agent env]. auto.
Qed.

Lemma episode_start_inv o episode st st' s :
  episode_start o episode st = (st', inr s) ->
  discretize_state_default (agent st) (reset_draw o episode) = inr s /\
  agent st' = agent st /\
  env st' = set_current_temp (env st) (reset_draw o episode).
Proof.
  unfold episode_start, Run.bind, Run.read, Run.on_env, reset.
  cbn [agent env].
  destruct (discretize_state_default _ _) as [e | s'] eqn:Hd; [discriminate |].
  intros H. injection H as <- <-. auto.
Qed.

(** [step] stores the temperature it returns. *)
Lemma step_current_temp en action d en' r :
  step en action d = inr (en', r) -> current_temp en' = new_temp r.
Proof.
  unfold step. destruct (Py.getitem _ _); [discriminate |].
  intros H. injection H as <- <-. reflexivity.
Qed.

(** C9.  The fairness reward is [(c1 + c2) / 2 - w * |c1 - c2|] for all
    comforts and weights.  The update of a training step is [learn] with a
    reward fixed by the class of the agent: the fairness reward of the two
    comforts for the fairness-aware agent, the comfort of the trained group
    alone for the biased agent ("male": the male comfort, otherwise the
    female comfort), and the blended reward of the environment for every
    other agent; a training step that returns leaves the agent this update
    produces. *)
Theorem training_reward_by_variant :
  (forall w c1 c2 : Q,
      calculate_fairness_reward w c1 c2 == (c1 + c2) / 2 - w * Qabs (c1 - c2)) /\
  (forall ag state action r next_state,
      agent_learning ag state action r next_state =
      learn ag state action
        match agent_class ag with
        | FairnessAware w =>
            (male_comfort r + female_comfort r) / 2
            - w * Qabs (male_comfort r - female_comfort r)
        | Biased g =>
            if String.eqb g "male" then male_comfort r else female_comfort r
        | QLearning | HybridAdaptive => blended_reward r
        end
        next_state) /\
  (forall d ep st st' ep',
      train_step d ep st = (st', inr ep') ->
      exists action r,
        step (env st) action (env_draws d) = inr (env st', r) /\
        male_comfort r
          = calculate_thermal_comfort_score (new_temp r) "male" /\
        female_comfort r
          = calculate_thermal_comfort_score (new_temp r) "female" /\
        agent_learning (agent st) (ep_state ep) action r (ep_state ep')
          = inr (agent st')).
Proof.
  split; [| split].
  - intros w c1 c2. unfold calculate_fairness_reward. reflexivity.
  - intros ag state action r next_state. unfold agent_learning.
    destruct (agent_class ag) as [| | w | g]; try reflexivity.
    destruct (String.eqb g "male"); reflexivity.
  - intros d ep st st' ep' H.
    destruct (train_step_inv _ _ _ _ _ H)
      as (action & r & next_state & Ha & Hs & Hd & Hl & He).
    exists action, r. subst next_state.
    split; [exact Hs |].
    unfold step in Hs. destruct (Py.getitem _ _); [discriminate |].
    injection Hs as _ <-. auto.
Qed.

(** A training step of the agent biased to "male", from 22.3 degrees. *)
Lemma training_reward_by_variant_witness :
  let st := {| agent := four_bins;
               env := set_current_temp (ASHRAEEnvironment_default 1) 22.3 |} in
  let ep := {| ep_state := 1; episode_reward := 0; episode_male_comfort := 0;
               episode_female_comfort := 0; episode_temps := [] |} in
  exists st' ep',
    train_step (step_draw steady 0 0) ep st = (st', inr ep') /\
    exists action r,
      step (env st) action (env_draws (step_draw steady 0 0))
        = inr (env st', r) /\
      agent_learning four_bins 1 action r (ep_state ep') = inr (agent st').
Proof.
  intros st ep.
  destruct (train_step (step_draw steady 0 0) ep st) as [st' [e | ep']] eqn:H;
    [vm_compute in H; discriminate |].
  exists st', ep'. split; [reflexivity |].
  destruct training_reward_by_variant as (_ & _ & Hstep).
  destruct (Hstep _ _ _ _ _ H) as (action & r & Hs & _ & _ & Hl).
  exists action, r. split; [exact Hs | exact Hl].
Defined.

(** ** The range of the state index *)

Lemma learn_state_bins ag state action reward next_state ag' :
  learn ag state action reward next_state = inr ag' ->
  state_bins ag' = state_bins ag.
Proof.
  unfold learn.
  destruct (Py.locate (q_table ag) state) as [e | [i row]]; [discriminate |].
  cbn [Py.bind].
  destruct (Py.locate row action) as [e | [j old]]; [discriminate |].
  cbn [Py.bind].
  destruct (Py.getitem (q_table ag) next_state) as [e | next_row];
    [discriminate |].
  cbn [Py.bind].
  destruct (Py.np_max next_row) as [e | next_max]; [discriminate |].
  cbn [Py.bind]. intros H. injection H as <-. reflexivity.
Qed.

Lemma agent_learning_state_bins ag state action r next_state ag' :
  agent_learning ag state action r next_state = inr ag' ->
  state_bins ag' = state_bins ag.
Proof.
  unfold agent_learning, learn_with_fairness.
  destruct (agent_class ag) as [| | w | g];
    try destruct (String.eqb g "male"); apply learn_state_bins.
Qed.

Lemma discretize_state_by_bins ag ag' t lo hi :
  state_bins ag' = state_bins ag ->
  discretize_state ag' t lo hi = discretize_state ag t lo hi.
Proof. intros H. unfold discretize_state. rewrite H. reflexivity. Qed.

(** Two loop bodies that agree wherever an invariant of the locals and
    the store holds give the same loop. *)
Lemma for_range_same {L} (I : L -> Store -> Prop)
    (body1 body2 : nat -> L -> Run.M L) :
  (forall i acc st, I acc st -> body1 i acc st = body2 i acc st) ->
  (forall i acc st st' acc',
      I acc st -> body1 i acc st = (st', inr acc') -> I acc' st') ->
  forall count start acc st,
    I acc st ->
    Run.for_range body1 start count acc st
    = Run.for_range body2 start count acc st.
Proof.
  intros Hext Hpres. induction count as [| count IH]; intros start acc st HI.
  - reflexivity.
  - cbn [Run.for_range]. unfold Run.bind.
    rewrite <- (Hext start acc st HI).
    destruct (body1 start acc st) as [st1 [e | a1]] eqn:Hb; [reflexivity |].
    apply IH. exact (Hpres _ _ _ _ _ HI Hb).
Qed.

(** The local of the training loop is the index of the current
    temperature: a step that starts so ends so. *)
Lemma train_step_keeps_index d ep st st' ep' :
  train_step d ep st = (st', inr ep') ->
  discretize_state (agent st') (current_temp (env st')) 16.0 32.0
  = inr (ep_state ep').
Proof.
  intros H.
  destruct (train_step_inv _ _ _ _ _ H)
    as (action & r & next_state & _ & Hs & Hd & Hl & He).
  rewrite (discretize_state_by_bins (agent st) (agent st')
             _ _ _ (agent_learning_state_bins _ _ _ _ _ _ Hl)).
  rewrite (step_current_temp _ _ _ _ _ Hs), He. exact Hd.
Qed.

Lemma eval_step_keeps_index d loc st st' loc' :
  eval_step d loc st = (st', inr loc') ->
  discretize_state (agent st') (current_temp (env st')) 16.0 32.0
  = inr (fst loc').
Proof.
  intros H.
  destruct (eval_step_inv _ _ _ _ _ H)
    as (action & r & next_state & _ & Hs & Hd & Ha & ->).
  rewrite Ha, (step_current_temp _ _ _ _ _ Hs). exact Hd.
Qed.

Lemma episode_start_index o episode st st' s :
  episode_start o episode st = (st', inr s) ->
  discretize_state (agent st') (current_temp (env st')) 16.0 32.0 = inr s.
Proof.
  intros H. destruct (episode_start_inv _ _ _ _ _ H) as (Hd & Ha & He).
  rewrite Ha, He. exact Hd.
Qed.

Lemma train_episode_by_temperature o steps episode metrics st :
  train_episode o steps episode metrics st
  = train_episode_over_default_range o steps episode metrics st.
Proof.
  unfold train_episode, train_episode_over_default_range.
  unfold Run.bind at 1 3.
  destruct (episode_start o episode st) as [st0 [e | s]] eqn:Hs;
    [reflexivity |].
  unfold Run.bind.
  rewrite (for_range_same
             (fun ep st =>
                discretize_state (agent st) (current_temp (env st)) 16.0 32.0
                = inr (ep_state ep))
             (fun i => train_step (step_draw o episode i))
             (fun i => train_step_over_default_range (step_draw o episode i))).
  - reflexivity.
  - intros i ep st1 HI.
    unfold train_step_over_default_range, state_over_default_range,
      Run.bind, Run.read.
    rewrite HI. destruct ep. reflexivity.
  - intros i ep st1 st2 ep' _ Hb. exact (train_step_keeps_index _ _ _ _ _ Hb).
  - exact (episode_start_index _ _ _ _ _ Hs).
Qed.

Lemma eval_episode_by_temperature o steps episode all_metrics st :
  eval_episode o steps episode all_metrics st
  = eval_episode_over_default_range o steps episode all_metrics st.
Proof.
  unfold eval_episode, eval_episode_over_default_range.
  unfold Run.bind at 1 3.
  destruct (episode_start o episode st) as [st0 [e | s]] eqn:Hs;
    [reflexivity |].
  unfold Run.bind.
  rewrite (for_range_same
             (fun (loc : Z * AllMetrics) st =>
                discretize_state (agent st) (current_temp (env st)) 16.0 32.0
                = inr (fst loc))
             (fun i => eval_step (step_draw o episode i))
             (fun i => eval_step_over_default_range (step_draw o episode i))).
  - reflexivity.
  - intros i loc st1 HI.
    unfold eval_step_over_default_range, state_over_default_range,
      Run.bind, Run.read.
    rewrite HI. destruct loc. reflexivity.
  - intros i loc st1 st2 loc' _ Hb. exact (eval_step_keeps_index _ _ _ _ _ Hb).
  - exact (episode_start_index _ _ _ _ _ Hs).
Qed.

Lemma evaluate_run_by_temperature o episodes steps st :
  evaluate_run o episodes steps st
  = evaluate_run_over_default_range o episodes steps st.
Proof.
  unfold evaluate_run, evaluate_run_over_default_range, eval_enter, eval_exit.
  unfold Run.bind, Run.read, Run.on_agent, Run.ret. cbn [agent env].
  rewrite (for_range_same (fun _ _ => True)
             (eval_episode o steps)
             (eval_episode_over_default_range o steps));
    [reflexivity | | auto | exact I].
  intros i acc st2 _. apply eval_episode_by_temperature.
Qed.

(** C10.  [discretize_state] called without bounds works over
    [[16.0, 32.0]], and both loops call it that way.  The state an episode
    starts in, and the state every step moves to, is the index of the
    temperature over [[16.0, 32.0]].  The state every step of the training
    loop and of the evaluation loop hands to [choose_action] and to
    [learn] is therefore the index over [[16.0, 32.0]] of the temperature
    the environment holds at that moment: an episode, a training run and
    an evaluation are the same computations, result and final store, as
    the ones that set the state so at the head of every step.  The bounds
    of the environment have no part in it: in an environment with the
    bounds [[0, 50]], 40 degrees falls into the last bin like 32 degrees,
    not into bin 79 of 100. *)
Theorem state_index_over_default_range :
  (forall ag t,
      discretize_state_default ag t = discretize_state ag t 16.0 32.0) /\
  (forall o episode st st' s,
      episode_start o episode st = (st', inr s) ->
      discretize_state (agent st) (current_temp (env st')) 16.0 32.0 = inr s) /\
  (forall d ep st st' ep',
      train_step d ep st = (st', inr ep') ->
      exists action r,
        choose_action (agent st) (ep_state ep) (explore d) (randint d)
          = inr action /\
        discretize_state (agent st) (current_temp (env st')) 16.0 32.0
          = inr (ep_state ep') /\
        agent_learning (agent st) (ep_state ep) action r (ep_state ep')
          = inr (agent st')) /\
  (forall d loc st st' loc',
      eval_step d loc st = (st', inr loc') ->
      exists action,
        choose_action (agent st) (fst loc) (explore d) (randint d)
          = inr action /\
        discretize_state (agent st) (current_temp (env st')) 16.0 32.0
          = inr (fst loc')) /\
  (let en := set_current_temp (ASHRAEEnvironment 0.5 0 50) 40 in
   let ag := default_agent QLearning in
   discretize_state_default ag (current_temp en) = inr 99%Z /\
   discretize_state_default ag 32 = inr 99%Z /\
   discretize_state ag (current_temp en) (min_temp en) (max_temp en)
     = inr 79%Z) /\
  (forall o steps_per_episode episode metrics st,
      train_episode o steps_per_episode episode metrics st
      = train_episode_over_default_range o steps_per_episode episode
          metrics st) /\
  (forall o episodes steps_per_episode st,
      train_agent o episodes steps_per_episode st
      = train_agent_over_default_range o episodes steps_per_episode st) /\
  (forall o steps_per_episode episode all_metrics st,
      eval_episode o steps_per_episode episode all_metrics st
      = eval_episode_over_default_range o steps_per_episode episode
          all_metrics st) /\
  (forall ag male_ratio episodes steps_per_episode o,
      evaluate_agent_comprehensive ag male_ratio episodes steps_per_episode o
      = evaluate_over_default_range ag male_ratio episodes
          steps_per_episode o).
Proof.
  split; [reflexivity |]. split; [| split; [| split; [| split]]].
  - intros o episode st st' s H.
    destruct (episode_start_inv _ _ _ _ _ H) as (Hd & _ & He).
    rewrite He. exact Hd.
  - intros d ep st st' ep' H.
    destruct (train_step_inv _ _ _ _ _ H)
      as (action & r & next_state & Ha & Hs & Hd & Hl & He).
    exists action, r. subst next_state.
    rewrite (step_current_temp _ _ _ _ _ Hs). auto.
  - intros d loc st st' loc' H.
    destruct (eval_step_inv _ _ _ _ _ H)
      as (action & r & next_state & Ha & Hs & Hd & _ & ->).
    exists action. rewrite (step_current_temp _ _ _ _ _ Hs). auto.
  - repeat split; vm_compute; reflexivity.
  - split; [exact train_episode_by_temperature |].
    split; [| split; [exact eval_episode_by_temperature |]].
    + intros o episodes steps st.
      unfold train_agent, train_agent_over_default_range.
      apply (for_range_same (fun _ _ => True)); [| auto | exact I].
      intros i acc st1 _. apply train_episode_by_temperature.
    + intros ag male_ratio episodes steps o.
      unfold evaluate_agent_comprehensive, evaluate_over_default_range.
      cbv zeta. rewrite evaluate_run_by_temperature. reflexivity.
Qed.

(** In an environment with the bounds [[0, 50]], an episode that resets
    to 40 degrees starts in state 99 of the default agent, the index over
    [[16.0, 32.0]], not in state 79, the index over the bounds of the
    environment.  The episode of one training step is the one that reads
    its state as the index of the current temperature, and its update
    writes row 99 of the table and leaves row 79 as it was. *)
Lemma state_index_over_default_range_witness :
  let st := {| agent := default_agent QLearning;
               env := ASHRAEEnvironment 0.5 0 50 |} in
  let metrics := {| rewards := []; male_comforts := [];
                    female_comforts := []; fairness_gaps := [];
                    temperatures := [] |} in
  exists st0 st1 m,
    episode_start hot_start 0 st = (st0, inr 99%Z) /\
    discretize_state (agent st) (current_temp (env st0)) 16.0 32.0
      = inr 99%Z /\
    discretize_state (agent st) (current_temp (env st0))
      (min_temp (env st0)) (max_temp (env st0)) = inr 79%Z /\
    train_episode_over_default_range hot_start 1 0 metrics st
      = (st1, inr m) /\
    train_episode hot_start 1 0 metrics st = (st1, inr m) /\
    q_table (agent st1) !! 99%nat <> q_table (agent st) !! 99%nat /\
    q_table (agent st1) !! 79%nat = q_table (agent st) !! 79%nat.
Proof.
  intros st metrics.
  destruct (episode_start hot_start 0 st) as [st0 [e | s]] eqn:H;
    [vm_compute in H; discriminate |].
  destruct state_index_over_default_range
    as (_ & Hstart & _ & _ & _ & Hep & _).
  pose proof (Hstart _ _ _ _ _ H) as Hd.
  assert (Hs : s = 99%Z).
  { vm_compute in H. injection H as _ <-. reflexivity. }
  subst s.
  destruct (train_episode_over_default_range hot_start 1 0 metrics st)
    as [st1 [e | m]] eqn:Hrun; [vm_compute in Hrun; discriminate |].
  exists st0, st1, m.
  split; [reflexivity |]. split; [exact Hd |].
  split; [vm_compute in H; injection H as <-; vm_compute; reflexivity |].
  split; [reflexivity |].
  split; [rewrite Hep; exact Hrun |].
  vm_compute in Hrun. injection Hrun as <- _.
  split; [vm_compute; discriminate | vm_compute; reflexivity].
Defined.

(** ** The Bellman update *)

Lemma locate_nat {A} (l : list A) (i : nat) (x : A) :
  l !! i = Some x -> Py.locate l (Z.of_nat i) = inr (i, x).
Proof.
  intros H. pose proof (lookup_lt_Some _ _ _ H) as Hlt.
  unfold Py.locate, Py.index.
  destruct (Z.leb_spec 0 (Z.of_nat i)); [| lia].
  destruct (Z.ltb_spec (Z.of_nat i) (Z.of_nat (length l))); [| lia].
  simpl. rewrite Nat2Z.id, H. reflexivity.
Qed.

Lemma getitem_nat {A} (l : list A) (i : nat) (x : A) :
  l !! i = Some x -> Py.getitem l (Z.of_nat i) = inr x.
Proof.
  intros H. unfold Py.getitem. rewrite (locate_nat _ _ _ H). reflexivity.
Qed.

(** [np.max] returns an element of the row that no element exceeds. *)
Lemma fold_max_spec (xs : list Q) (x : Q) :
  (fold_left Py.max xs x = x \/ In (fold_left Py.max xs x) xs) /\
  x <= fold_left Py.max xs x /\
  (forall y, In y xs -> y <= fold_left Py.max xs x).
Proof.
  revert x. induction xs as [| y ys IH]; intros x; simpl.
  - split; [left; reflexivity |]. split; [apply Qle_refl | intros ? []].
  - destruct (IH (Py.max x y)) as (Hin & Hle & Hall).
    destruct (max_cases x y) as [[Hxy E] | [Hxy E]]; rewrite E in *.
    + split; [right; destruct Hin as [-> | Hin]; auto |].
      split; [lra |]. intros z [<- | Hz]; [exact Hle | apply Hall, Hz].
    + split; [destruct Hin as [-> | Hin]; auto |].
      split; [exact Hle |]. intros z [<- | Hz]; [lra | apply Hall, Hz].
Qed.

Lemma np_max_spec (row : list Q) (m : Q) :
  Py.np_max row = inr m ->
  In m row /\ (forall y, In y row -> y <= m).
Proof.
  destruct row as [| x xs]; [discriminate |].
  simpl. intros H. injection H as <-.
  destruct (fold_max_spec xs x) as (Hin & Hle & Hall).
  split.
  - destruct Hin as [-> | Hin]; [left; reflexivity | right; exact Hin].
  - intros y [<- | Hy]; [exact Hle | apply Hall, Hy].
Qed.

(** The agent one successful update leaves. *)
Lemma learn_ok ag (i j i' : nat) row old next_row next_max (r : Q) :
  q_table ag !! i = Some row ->
  row !! j = Some old ->
  q_table ag !! i' = Some next_row ->
  Py.np_max next_row = inr next_max ->
  exists ag',
    learn ag (Z.of_nat i) (Z.of_nat j) r (Z.of_nat i') = inr ag' /\
    q_table ag' =
      <[i := <[j := old + alpha ag * (r + gamma ag * next_max - old)]> row]>
        (q_table ag) /\
    total_updates ag' = (total_updates ag + 1)%Z /\
    epsilon ag' =
      (if ((total_updates ag + 1) mod 500 =? 0)%Z
       then Py.max (min_epsilon ag) (epsilon ag * epsilon_decay ag)
       else epsilon ag) /\
    alpha ag' = alpha ag /\ gamma ag' = gamma ag /\
    epsilon_decay ag' = epsilon_decay ag /\ min_epsilon ag' = min_epsilon ag.
Proof.
  intros Hrow Hold Hnext Hmax. unfold learn.
  rewrite (locate_nat _ _ _ Hrow). cbn [Py.bind].
  rewrite (locate_nat _ _ _ Hold). cbn [Py.bind].
  rewrite (getitem_nat _ _ _ Hnext). cbn [Py.bind].
  rewrite Hmax. cbn [Py.bind].
  eexists. split; [reflexivity |]. cbn. repeat split.
Qed.

Lemma entry_after_insert (tbl : list (list Q)) (i j : nat) row old (v : Q) :
  tbl !! i = Some row -> row !! j = Some old ->
  (<[i := <[j := v]> row]> tbl) !! i = Some (<[j := v]> row) /\
  (<[j := v]> row) !! j = Some v.
Proof.
  intros Hrow Hold. split.
  - apply list_lookup_insert_eq. eapply lookup_lt_Some, Hrow.
  - apply list_lookup_insert_eq. eapply lookup_lt_Some, Hold.
Qed.

(** One update moves the entry toward the target by the factor [alpha]:
    the distance to the target shrinks by [1 - alpha]. *)
Lemma bellman_contraction (a old target : Q) :
  0 < a <= 1 ->
  Qabs (old + a * (target - old) - target) == (1 - a) * Qabs (old - target).
Proof.
  intros Ha.
  assert (E : old + a * (target - old) - target == (1 - a) * (old - target))
    by ring.
  rewrite E, Qabs_Qmult. rewrite (Qabs_pos (1 - a)) by lra. reflexivity.
Qed.

(** The arithmetic of the induction step of [learn_n_bound]. *)
Lemma shrink_step (a b al k : Q) :
  0 <= a -> 0 <= b -> 0 < al <= 1 -> 1 <= k ->
  a * k <= (1 - al) * b -> a * (k + al) <= b.
Proof.
  intros Ha Hb Hal Hk H.
  assert (H1 : a <= a * k).
  { apply Qle_trans with (a * 1); [rewrite Qmult_1_r; apply Qle_refl |].
    rewrite (Qmult_comm a 1), (Qmult_comm a k).
    apply Qmult_le_compat_r; assumption. }
  assert (H2 : (1 - al) * b <= b).
  { apply Qle_trans with (1 * b); [| rewrite Qmult_1_l; apply Qle_refl].
    apply Qmult_le_compat_r; [lra | assumption]. }
  assert (H3 : a * al <= al * b).
  { rewrite (Qmult_comm al b). apply Qmult_le_compat_r; lra. }
  assert (H4 : (1 - al) * b == b - al * b) by ring.
  assert (H5 : a * (k + al) == a * k + a * al) by ring.
  rewrite H5. lra.
Qed.

(** Repeated updates of one entry while the row of the next state is
    another row: every update succeeds, the next state's row stays as it
    is, the counter grows by [n], epsilon is untouched as long as the
    counter does not reach a multiple of 500, and, for [0 < alpha <= 1],
    after [n] updates the distance of the entry to the target
    [r + gamma * next_max] is at most the initial distance divided by
    [1 + n * alpha]. *)
Lemma learn_n_run (n : nat) :
  forall ag (i j i' : nat) row old next_row next_max (r : Q),
    q_table ag !! i = Some row ->
    row !! j = Some old ->
    q_table ag !! i' = Some next_row ->
    Py.np_max next_row = inr next_max ->
    i <> i' ->
    exists ag_n row_n v,
      learn_n n ag (Z.of_nat i) (Z.of_nat j) r (Z.of_nat i') = inr ag_n /\
      q_table ag_n !! i = Some row_n /\ row_n !! j = Some v /\
      q_table ag_n !! i' = Some next_row /\
      total_updates ag_n = (total_updates ag + Z.of_nat n)%Z /\
      epsilon_decay ag_n = epsilon_decay ag /\
      min_epsilon ag_n = min_epsilon ag /\
      ((total_updates ag mod 500 + Z.of_nat n < 500)%Z ->
         epsilon ag_n = epsilon ag) /\
      (0 < alpha ag <= 1 ->
         Qabs (v - (r + gamma ag * next_max))
           * (1 + inject_Z (Z.of_nat n) * alpha ag)
         <= Qabs (old - (r + gamma ag * next_max))).
Proof.
  induction n as [| n IH];
    intros ag i j i' row old next_row next_max r Hrow Hold Hnext Hmax Hne.
  - exists ag, row, old. split; [reflexivity |].
    split; [exact Hrow |]. split; [exact Hold |]. split; [exact Hnext |].
    split; [simpl; lia |]. split; [reflexivity |]. split; [reflexivity |].
    split; [reflexivity |]. intros _.
    change (inject_Z (Z.of_nat 0)) with 0.
    assert (E : 1 + 0 * alpha ag == 1) by ring.
    rewrite E, Qmult_1_r. apply Qle_refl.
  - destruct (learn_ok ag i j i' row old next_row next_max r
                Hrow Hold Hnext Hmax)
      as (ag1 & Hl & Htbl & Hcnt & Heps & Ha1 & Hg1 & Hd1 & Hm1).
    set (v1 := old + alpha ag * (r + gamma ag * next_max - old)) in *.
    destruct (entry_after_insert (q_table ag) i j row old v1 Hrow Hold)
      as [Hrow1 Hold1].
    rewrite <- Htbl in Hrow1.
    assert (Hnext1 : q_table ag1 !! i' = Some next_row).
    { rewrite Htbl, list_lookup_insert_ne by exact Hne. exact Hnext. }
    destruct (IH ag1 i j i' _ v1 next_row next_max r
                Hrow1 Hold1 Hnext1 Hmax Hne)
      as (ag_n & row_n & v & Hn & Hr & He & Hx & Hc & Hd & Hm & Hk & Hb).
    exists ag_n, row_n, v. cbn [learn_n]. rewrite Hl. cbn [Py.bind].
    split; [exact Hn |]. split; [exact Hr |]. split; [exact He |].
    split; [exact Hx |]. split; [lia |].
    split; [congruence |]. split; [congruence |]. split.
    + intros Hlt.
      assert (Hmod : ((total_updates ag + 1) mod 500
                      = total_updates ag mod 500 + 1)%Z).
      { rewrite Z.add_mod by lia.
        pose proof (Z.mod_pos_bound (total_updates ag) 500 ltac:(lia)).
        rewrite (Z.mod_small 1) by lia. apply Z.mod_small. lia. }
      rewrite Hk by (rewrite Hcnt, Hmod; lia).
      rewrite Heps.
      pose proof (Z.mod_pos_bound (total_updates ag) 500 ltac:(lia)).
      destruct (Z.eqb_spec ((total_updates ag + 1) mod 500) 0);
        [lia | reflexivity].
    + intros Hal.
      assert (Hal1 : 0 < alpha ag1 <= 1) by (rewrite Ha1; exact Hal).
      specialize (Hb Hal1). rewrite Ha1, Hg1 in Hb.
      set (T := r + gamma ag * next_max) in *.
      assert (Hcn : Qabs (v1 - T) == (1 - alpha ag) * Qabs (old - T))
        by (apply bellman_contraction; exact Hal).
      rewrite Hcn in Hb.
      assert (Hs : 1 + inject_Z (Z.of_nat (S n)) * alpha ag
                   == (1 + inject_Z (Z.of_nat n) * alpha ag) + alpha ag).
      { rewrite Nat2Z.inj_succ. unfold Z.succ. rewrite inject_Z_plus. ring. }
      rewrite Hs. apply shrink_step; try assumption.
      * apply Qabs_nonneg.
      * apply Qabs_nonneg.
      * assert (0 <= inject_Z (Z.of_nat n) * alpha ag).
        { apply Qmult_le_0_compat; [| lra].
          unfold Qle; simpl; lia. }
        lra.
Qed.

Lemma learn_n_bound (n : nat) ag (i j i' : nat) row old next_row next_max r :
  q_table ag !! i = Some row ->
  row !! j = Some old ->
  q_table ag !! i' = Some next_row ->
  Py.np_max next_row = inr next_max ->
  i <> i' ->
  0 < alpha ag <= 1 ->
  exists ag_n v,
    learn_n n ag (Z.of_nat i) (Z.of_nat j) r (Z.of_nat i') = inr ag_n /\
    entry ag_n i j = Some v /\
    q_table ag_n !! i' = Some next_row /\
    Qabs (v - (r + gamma ag * next_max))
      * (1 + inject_Z (Z.of_nat n) * alpha ag)
    <= Qabs (old - (r + gamma ag * next_max)).
Proof.
  intros Hrow Hold Hnext Hmax Hne Hal.
  destruct (learn_n_run n ag i j i' row old next_row next_max r
              Hrow Hold Hnext Hmax Hne)
    as (ag_n & row_n & v & Hn & Hr & He & Hx & _ & _ & _ & _ & Hb).
  exists ag_n, v. split; [exact Hn |].
  split; [unfold entry; rewrite Hr; exact He |].
  split; [exact Hx | exact (Hb Hal)].
Qed.

(** [np.max] of a row is, as a number, any entry that no entry exceeds. *)
Lemma np_max_of_largest (row : list Q) (j : nat) (v m : Q) :
  row !! j = Some v ->
  (forall l y, l <> j -> row !! l = Some y -> y <= v) ->
  Py.np_max row = inr m -> m == v.
Proof.
  intros Hj Hle Hm. destruct (np_max_spec row m Hm) as [Hin Hall].
  apply Qle_antisym.
  - apply list_elem_of_In, list_elem_of_lookup in Hin. destruct Hin as [l Hl].
    destruct (Nat.eq_dec l j) as [-> | Hne].
    + rewrite Hj in Hl. injection Hl as ->. apply Qle_refl.
    + apply (Hle l m Hne Hl).
  - apply Hall. apply list_elem_of_In, list_elem_of_lookup. exists j. exact Hj.
Qed.

Lemma np_max_nonempty (row : list Q) (j : nat) (v : Q) :
  row !! j = Some v -> exists m, Py.np_max row = inr m.
Proof.
  destruct row as [| x xs]; [destruct j; discriminate |].
  intros _. eexists. reflexivity.
Qed.

(** A self-loop step: with the entry the largest of its row, the update is
    a step of size [alpha * (1 - gamma)] toward [r / (1 - gamma)]. *)
Lemma self_loop_step (a g old m r : Q) :
  g < 1 -> m == old ->
  old + a * (r + g * m - old)
  == old + a * (1 - g) * (r / (1 - g) - old).
Proof.
  intros Hg Hm. rewrite Hm. field. lra.
Qed.

(** Repeated updates of an entry whose next state is its own state, the
    entry being the largest of its row and the other entries of the row
    being at most [r / (1 - gamma)]: every update succeeds and after [n]
    updates the distance of the entry to [r / (1 - gamma)] is at most the
    initial distance divided by [1 + n * alpha * (1 - gamma)]. *)
Lemma learn_n_self (n : nat) :
  forall ag (i j : nat) row old (r : Q),
    q_table ag !! i = Some row ->
    row !! j = Some old ->
    0 < alpha ag <= 1 ->
    0 <= gamma ag < 1 ->
    (forall l y, l <> j -> row !! l = Some y ->
                 y <= old /\ y <= r / (1 - gamma ag)) ->
    exists ag_n v,
      learn_n n ag (Z.of_nat i) (Z.of_nat j) r (Z.of_nat i) = inr ag_n /\
      entry ag_n i j = Some v /\
      Qabs (v - r / (1 - gamma ag))
        * (1 + inject_Z (Z.of_nat n) * (alpha ag * (1 - gamma ag)))
      <= Qabs (old - r / (1 - gamma ag)).
Proof.
  induction n as [| n IH]; intros ag i j row old r Hrow Hold Hal Hga Hoth.
  - exists ag, old. split; [reflexivity |].
    split; [unfold entry; rewrite Hrow; exact Hold |].
    change (inject_Z (Z.of_nat 0)) with 0.
    assert (E : 1 + 0 * (alpha ag * (1 - gamma ag)) == 1) by ring.
    rewrite E, Qmult_1_r. apply Qle_refl.
  - destruct (np_max_nonempty row j old Hold) as [m Hmax].
    assert (Hm : m == old).
    { apply (np_max_of_largest row j old m Hold); [| exact Hmax].
      intros l y Hl Hy. apply (Hoth l y Hl Hy). }
    destruct (learn_ok ag i j i row old row m r Hrow Hold Hrow Hmax)
      as (ag1 & Hl & Htbl & _ & _ & Ha1 & Hg1 & _).
    set (q := r / (1 - gamma ag)) in *.
    set (b := alpha ag * (1 - gamma ag)).
    assert (Hb : 0 < b <= 1).
    { unfold b. split.
      - apply Qmult_lt_0_compat; lra.
      - apply Qle_trans with (1 * (1 - gamma ag)); [| lra].
        apply Qmult_le_compat_r; lra. }
    set (v1 := old + alpha ag * (r + gamma ag * m - old)) in *.
    assert (Hv1 : v1 == old + b * (q - old)).
    { unfold v1, b, q. apply self_loop_step; [lra | exact Hm]. }
    destruct (entry_after_insert (q_table ag) i j row old v1 Hrow Hold)
      as [Hrow1 Hold1].
    rewrite <- Htbl in Hrow1.
    assert (Hoth1 : forall l y, l <> j -> <[j := v1]> row !! l = Some y ->
                                y <= v1 /\ y <= r / (1 - gamma ag1)).
    { intros l y Hne Hy. rewrite list_lookup_insert_ne in Hy by congruence.
      destruct (Hoth l y Hne Hy) as [H1 H2]. rewrite Hg1. fold q.
      split; [| exact H2]. rewrite Hv1.
      assert (H3 : 0 <= (1 - b) * (old - y))
        by (apply Qmult_le_0_compat; lra).
      assert (H4 : 0 <= b * (q - y)) by (apply Qmult_le_0_compat; lra).
      assert (E : old + b * (q - old) - y
                  == (1 - b) * (old - y) + b * (q - y)) by ring.
      lra. }
    destruct (IH ag1 i j _ v1 r Hrow1 Hold1
                ltac:(rewrite Ha1; exact Hal) ltac:(rewrite Hg1; exact Hga)
                Hoth1)
      as (ag_n & v & Hn & He & Hbound).
    exists ag_n, v. cbn [learn_n]. rewrite Hl. cbn [Py.bind].
    split; [exact Hn |]. split; [exact He |].
    rewrite Ha1, Hg1 in Hbound. fold q b in Hbound. fold b.
    assert (Hc : Qabs (v1 - q) == (1 - b) * Qabs (old - q)).
    { rewrite Hv1. apply bellman_contraction. exact Hb. }
    rewrite Hc in Hbound.
    assert (Hs : 1 + inject_Z (Z.of_nat (S n)) * b
                 == (1 + inject_Z (Z.of_nat n) * b) + b).
    { rewrite Nat2Z.inj_succ. unfold Z.succ. rewrite inject_Z_plus. ring. }
    rewrite Hs. apply shrink_step; try assumption.
    + apply Qabs_nonneg.
    + apply Qabs_nonneg.
    + assert (0 <= inject_Z (Z.of_nat n) * b).
      { apply Qmult_le_0_compat; [| lra]. unfold Qle; simpl; lia. }
      lra.
Qed.

(** A sequence whose distance to [target], times [1 + n * alpha], stays
    below a fixed bound gets within any [eps] of the target. *)
Lemma rate_gives_limit (D al eps : Q) :
  0 <= D -> 0 < al -> 0 < eps ->
  exists N : nat, forall (n : nat) (a : Q),
    (N <= n)%nat -> 0 <= a ->
    a * (1 + inject_Z (Z.of_nat n) * al) <= D -> a < eps.
Proof.
  intros HD Hal Heps.
  set (x := D / (eps * al)).
  exists (Z.to_nat (Qceiling x)). intros n a Hn Ha Hb.
  assert (Hpos : 0 < eps * al) by (apply Qmult_lt_0_compat; assumption).
  assert (Hx : x <= inject_Z (Z.of_nat n)).
  { apply Qle_trans with (inject_Z (Qceiling x)); [apply Qle_ceiling |].
    rewrite <- Zle_Qle. lia. }
  assert (Hq : 0 <= inject_Z (Z.of_nat n)) by (unfold Qle; simpl; lia).
  assert (HD' : D <= inject_Z (Z.of_nat n) * (eps * al)).
  { assert (E : D == x * (eps * al)) by (unfold x; field; lra).
    rewrite E. apply Qmult_le_compat_r; [exact Hx | lra]. }
  destruct (Qlt_le_dec a eps) as [Hlt | Hge]; [exact Hlt | exfalso].
  assert (Hk : 0 <= 1 + inject_Z (Z.of_nat n) * al).
  { assert (0 <= inject_Z (Z.of_nat n) * al)
      by (apply Qmult_le_0_compat; lra). lra. }
  assert (H1 : eps * (1 + inject_Z (Z.of_nat n) * al)
               <= a * (1 + inject_Z (Z.of_nat n) * al))
    by (apply Qmult_le_compat_r; assumption).
  assert (E : eps * (1 + inject_Z (Z.of_nat n) * al)
              == eps + inject_Z (Z.of_nat n) * (eps * al)) by ring.
  rewrite E in H1. lra.
Qed.

(** C8, as stated, fails.  On a fresh default agent ([alpha = 0.1],
    [gamma = 0.9], all entries 0) update the entry (0, 0) with reward 1
    and next state 1, again and again.  The values of the next state never
    change, and [r / (1 - gamma)] is 10; yet after any number of updates
    the entry is at least 8 away from 10 (it tends to 1). *)
Lemma constant_reward_limit_not_r_over_1_minus_gamma :
  let ag := default_agent QLearning in
  1 / (1 - gamma ag) == 10 /\
  forall n : nat, exists ag_n v,
    learn_n n ag 0 0 1 1 = inr ag_n /\
    q_table ag_n !! 1%nat = q_table ag !! 1%nat /\
    entry ag_n 0 0 = Some v /\
    8 <= Qabs (v - 1 / (1 - gamma ag)).
Proof.
  intros ag. split; [vm_compute; reflexivity |]. intros n.
  destruct (learn_n_bound n ag 0 0 1 (replicate 5 0.0) 0.0
              (replicate 5 0.0) 0.0 1) as (ag_n & v & Hn & He & Hx & Hb);
    try reflexivity; [discriminate | vm_compute; split; [reflexivity | discriminate] |].
  exists ag_n, v. split; [exact Hn |]. split; [rewrite Hx; reflexivity |].
  split; [exact He |].
  change (gamma ag) with 0.9 in *. change (alpha ag) with 0.1 in Hb.
  assert (E1 : 1 + 0.9 * 0.0 == 1) by reflexivity.
  assert (E2 : Qabs (0.0 - (1 + 0.9 * 0.0)) == 1) by reflexivity.
  rewrite E2 in Hb. rewrite E1 in Hb.
  assert (Hq : 0 <= inject_Z (Z.of_nat n)) by (unfold Qle; simpl; lia).
  assert (Ha : 0 <= Qabs (v - 1)) by apply Qabs_nonneg.
  assert (Hle : Qabs (v - 1) <= 1).
  { apply Qle_trans with (Qabs (v - 1) * (1 + inject_Z (Z.of_nat n) * 0.1));
      [| exact Hb].
    apply Qle_trans with (Qabs (v - 1) * 1);
      [rewrite Qmult_1_r; apply Qle_refl |].
    rewrite !(Qmult_comm (Qabs (v - 1))).
    apply Qmult_le_compat_r; [| exact Ha].
    assert (0 <= inject_Z (Z.of_nat n) * 0.1)
      by (apply Qmult_le_0_compat; lra). lra. }
  apply Qabs_Qle_condition in Hle. destruct Hle as [_ Hv].
  assert (E3 : 1 / (1 - 0.9) == 10) by reflexivity.
  rewrite E3.
  apply Qle_trans with (- (v - 10)); [lra |].
  rewrite <- Qabs_opp. apply Qle_Qabs.
Qed.

(** C8, amended.  For a state, an action and a next state within the
    table: [learn] returns, the new entry is
    [old + alpha * (r + gamma * max - old)] where [max] is the largest
    value of the next state's row before the update, every other entry is
    unchanged and the update counter grows by one.  Repeating the update
    with the same reward, for [0 < alpha <= 1]:
    - when the next state's row is not the row being updated (so the
      update leaves its values alone), the entry gets as close as one
      likes to [r + gamma * max], not to [r / (1 - gamma)] unless the two
      coincide;
    - when the next state is the state itself, [0 <= gamma < 1], the entry
      is the largest of its row and the other entries of the row are at
      most [r / (1 - gamma)], the entry gets as close as one likes to
      [r / (1 - gamma)]. *)
Theorem learn_bellman_update
    (ag : Agent) (i j i' : nat) (row next_row : list Q)
    (old next_max r : Q) :
  q_table ag !! i = Some row ->
  row !! j = Some old ->
  q_table ag !! i' = Some next_row ->
  Py.np_max next_row = inr next_max ->
  let target := r + gamma ag * next_max in
  (In next_max next_row /\ forall y, In y next_row -> y <= next_max) /\
  (exists ag',
      learn ag (Z.of_nat i) (Z.of_nat j) r (Z.of_nat i') = inr ag' /\
      entry ag' i j = Some (old + alpha ag * (target - old)) /\
      (forall k l, (k, l) <> (i, j) -> entry ag' k l = entry ag k l) /\
      total_updates ag' = (total_updates ag + 1)%Z) /\
  (i <> i' -> 0 < alpha ag <= 1 ->
   forall eps : Q, 0 < eps ->
   exists N : nat, forall n : nat, (N <= n)%nat ->
   exists ag_n v,
     learn_n n ag (Z.of_nat i) (Z.of_nat j) r (Z.of_nat i') = inr ag_n /\
     q_table ag_n !! i' = Some next_row /\
     entry ag_n i j = Some v /\
     Qabs (v - target) < eps) /\
  (0 < alpha ag <= 1 -> 0 <= gamma ag < 1 ->
   (forall l y, l <> j -> row !! l = Some y ->
                y <= old /\ y <= r / (1 - gamma ag)) ->
   forall eps : Q, 0 < eps ->
   exists N : nat, forall n : nat, (N <= n)%nat ->
   exists ag_n v,
     learn_n n ag (Z.of_nat i) (Z.of_nat j) r (Z.of_nat i) = inr ag_n /\
     entry ag_n i j = Some v /\
     Qabs (v - r / (1 - gamma ag)) < eps).
Proof.
  intros Hrow Hold Hnext Hmax target.
  split; [apply np_max_spec; exact Hmax |]. split; [| split].
  - destruct (learn_ok ag i j i' row old next_row next_max r
                Hrow Hold Hnext Hmax) as (ag' & Hl & Htbl & Hcnt & _).
    exists ag'. split; [exact Hl |].
    destruct (entry_after_insert (q_table ag) i j row old
                (old + alpha ag * (target - old)) Hrow Hold) as [H1 H2].
    split; [unfold entry; rewrite Htbl; fold target; rewrite H1; exact H2 |].
    split; [| exact Hcnt].
    intros k l Hkl. unfold entry. rewrite Htbl.
    destruct (Nat.eq_dec k i) as [-> | Hk].
    + fold target. rewrite H1, Hrow.
      apply list_lookup_insert_ne. congruence.
    + rewrite list_lookup_insert_ne by congruence. reflexivity.
  - intros Hne Hal eps Heps.
    destruct (rate_gives_limit (Qabs (old - target)) (alpha ag) eps)
      as [N HN]; [apply Qabs_nonneg | apply Hal | exact Heps |].
    exists N. intros n Hn.
    destruct (learn_n_bound n ag i j i' row old next_row next_max r
                Hrow Hold Hnext Hmax Hne Hal) as (ag_n & v & Hl & He & Hx & Hb).
    exists ag_n, v. repeat split; try assumption.
    apply (HN n); [exact Hn | apply Qabs_nonneg | exact Hb].
  - intros Hal Hga Hoth eps Heps.
    destruct (rate_gives_limit (Qabs (old - r / (1 - gamma ag)))
                (alpha ag * (1 - gamma ag)) eps)
      as [N HN];
      [apply Qabs_nonneg | apply Qmult_lt_0_compat; lra | exact Heps |].
    exists N. intros n Hn.
    destruct (learn_n_self n ag i j row old r Hrow Hold Hal Hga Hoth)
      as (ag_n & v & Hl & He & Hb).
    exists ag_n, v. repeat split; try assumption.
    apply (HN n); [exact Hn | apply Qabs_nonneg | exact Hb].
Qed.

(** On the fresh default agent, the entry (0, 0) updated with reward 1 and
    next state 1 becomes 0.1, and repeated updates bring it within 1/2 of
    the target 1; with next state 0 they bring it within 1/2 of 10. *)
Lemma learn_bellman_update_witness :
  let ag := default_agent QLearning in
  q_table ag !! 0%nat = Some (replicate 5 0.0) /\
  replicate 5 0.0 !! 0%nat = Some 0.0 /\
  q_table ag !! 1%nat = Some (replicate 5 0.0) /\
  Py.np_max (replicate 5 0.0) = inr 0.0 /\
  (exists ag', learn ag 0 0 1 1 = inr ag' /\
               entry ag' 0 0 = Some (0.0 + 0.1 * (1 + 0.9 * 0.0 - 0.0))) /\
  (exists N : nat, forall n : nat, (N <= n)%nat ->
   exists ag_n v,
     learn_n n ag 0 0 1 1 = inr ag_n /\ entry ag_n 0 0 = Some v /\
     Qabs (v - (1 + 0.9 * 0.0)) < 1 # 2) /\
  (exists N : nat, forall n : nat, (N <= n)%nat ->
   exists ag_n v,
     learn_n n ag 0 0 1 0 = inr ag_n /\ entry ag_n 0 0 = Some v /\
     Qabs (v - 1 / (1 - 0.9)) < 1 # 2).
Proof.
  intros ag.
  assert (H1 : q_table ag !! 0%nat = Some (replicate 5 0.0)) by reflexivity.
  assert (H2 : replicate 5 0.0 !! 0%nat = Some 0.0) by reflexivity.
  assert (H3 : q_table ag !! 1%nat = Some (replicate 5 0.0)) by reflexivity.
  assert (H4 : Py.np_max (replicate 5 0.0) = inr 0.0) by reflexivity.
  repeat (split; [assumption |]).
  destruct (learn_bellman_update ag 0 0 1 _ _ 0.0 0.0 1 H1 H2 H3 H4)
    as (_ & (ag' & Hl & He & _) & Hlim & Hself).
  split; [exists ag'; split; [exact Hl | exact He] |].
  assert (Hal : 0 < alpha ag <= 1)
    by (split; [reflexivity | vm_compute; discriminate]).
  split.
  - destruct (Hlim ltac:(discriminate) Hal (1 # 2) ltac:(reflexivity))
      as [N HN].
    exists N. intros n Hn.
    destruct (HN n Hn) as (ag_n & v & Hn' & _ & Hv & Hd).
    exists ag_n, v. auto.
  - assert (Hga : 0 <= gamma ag < 1)
      by (split; [vm_compute; discriminate | reflexivity]).
    assert (Hoth : forall l y, l <> 0%nat -> replicate 5 0.0 !! l = Some y ->
                               y <= 0.0 /\ y <= 1 / (1 - gamma ag)).
    { intros l y _ Hy.
      apply lookup_replicate in Hy. destruct Hy as [-> _].
      split; vm_compute; discriminate. }
    destruct (Hself Hal Hga Hoth (1 # 2) ltac:(reflexivity)) as [N HN].
    exists N. intros n Hn. destruct (HN n Hn) as (ag_n & v & Hn' & Hv & Hd).
    exists ag_n, v. auto.
Defined.

(** ** Runs and the agent *)

(** A property of the store that every iteration keeps, whether it
    returns or raises, holds after the loop. *)
Lemma for_range_preserves {L} (P : Store -> Prop) (body : nat -> L -> Run.M L) :
  (forall i acc st, P st -> P (fst (body i acc st))) ->
  forall count start acc st,
    P st -> P (fst (Run.for_range body start count acc st)).
Proof.
  intros Hbody. induction count as [| count IH]; intros start acc st HP.
  - exact HP.
  - cbn [Run.for_range]. unfold Run.bind.
    pose proof (Hbody start acc st HP) as H1.
    destruct (body start acc st) as [st1 [e | acc1]]; cbn [fst] in *.
    + exact H1.
    + apply IH, H1.
Qed.

Lemma episode_start_agent o episode st :
  agent (fst (episode_start o episode st)) = agent st.
Proof.
  unfold episode_start, Run.bind, Run.read, Run.on_env, reset.
  cbn [agent env]. destruct (discretize_state_default _ _); reflexivity.
Qed.

(** A step of the evaluation loop does not write to the agent. *)
Lemma eval_step_agent d loc st :
  agent (fst (eval_step d loc st)) = agent st.
Proof.
  unfold eval_step, Run.bind, Run.read, Run.on_env, Run.ret.
  destruct (choose_action _ _ _ _); [reflexivity |].
  destruct (step _ _ _) as [e | [en r]]; [reflexivity |].
  cbn [agent env].
  destruct (discretize_state_default _ _); reflexivity.
Qed.

Lemma eval_episode_agent o steps episode m st :
  agent (fst (eval_episode o steps episode m st)) = agent st.
Proof.
  unfold eval_episode, Run.bind.
  pose proof (episode_start_agent o episode st) as H0.
  destruct (episode_start o episode st) as [st0 [e | s]]; cbn [fst] in *;
    [exact H0 |].
  pose proof (for_range_preserves (fun st' => agent st' = agent st)
                (fun i => eval_step (step_draw o episode i))
                (fun i acc st' H => eq_trans (eval_step_agent _ acc st') H)
                steps 0%nat (s, m) st0 H0) as H1.
  cbn beta in H1.
  destruct (Run.for_range _ _ _ _ _) as [st1 [e | loc]]; exact H1.
Qed.

Lemma eval_loops_agent o episodes steps st :
  agent (fst (Run.for_range (eval_episode o steps) 0 episodes no_metrics st))
  = agent st.
Proof.
  apply (for_range_preserves (fun st' => agent st' = agent st)
           (eval_episode o steps)); [| reflexivity].
  intros i acc st' H. rewrite eval_episode_agent. exact H.
Qed.

Lemma set_epsilon_back ag : set_epsilon (set_epsilon ag 0.0) (epsilon ag) = ag.
Proof. destruct ag. reflexivity. Qed.

(** The evaluation, with its three parts in sequence: the restoring runs
    only on the branch where the loops have returned. *)
Lemma evaluate_run_unfold o episodes steps st :
  evaluate_run o episodes steps st =
  match Run.for_range (eval_episode o steps) 0 episodes no_metrics
          {| agent := set_epsilon (agent st) 0.0; env := env st |} with
  | (st1, inl e) => (st1, inl e)
  | (st1, inr m) =>
      ({| agent := set_epsilon (agent st1) (epsilon (agent st));
          env := env st1 |}, inr m)
  end.
Proof.
  unfold evaluate_run, eval_enter, eval_exit.
  unfold Run.bind, Run.read, Run.on_agent, Run.ret. cbn [agent env].
  destruct (Run.for_range _ _ _ _ _) as [st1 [e | m]]; reflexivity.
Qed.

(** What the call leaves of the agent, by the way it ends. *)
Lemma evaluate_outcome ag male_ratio episodes steps o :
  match snd (evaluate_agent_comprehensive ag male_ratio episodes steps o) with
  | inr _ =>
      fst (evaluate_agent_comprehensive ag male_ratio episodes steps o) = ag
  | inl _ =>
      fst (evaluate_agent_comprehensive ag male_ratio episodes steps o)
      = set_epsilon ag 0.0
  end.
Proof.
  unfold evaluate_agent_comprehensive. rewrite evaluate_run_unfold.
  cbn [agent env].
  set (st0 := {| agent := set_epsilon ag 0.0;
                 env := ASHRAEEnvironment_default male_ratio |}).
  pose proof (eval_loops_agent o episodes steps st0) as H.
  destruct (Run.for_range _ _ _ _ _) as [st1 [e | m]]; cbn [fst snd agent] in *.
  - exact H.
  - rewrite H. apply set_epsilon_back.
Qed.

(** ** Epsilon across an evaluation *)

(** C1, as stated, fails on the exceptional path.  The agent built for six
    actions prefers its sixth action in state 38.  Its evaluation starts at
    22.3 degrees, which is state 38; the first step asks the environment
    for action 5, which has only five: [IndexError].  The call ends by
    this exception and leaves the agent with epsilon 0.0, not with the 0.3
    it had. *)
Lemma evaluate_raises_epsilon_zero :
  exists ag,
    six_actions = inr ag /\
    epsilon ag == 0.3 /\
    snd (evaluate_agent_comprehensive ag 0.5 1 1 steady) = inl Py.IndexError /\
    epsilon (fst (evaluate_agent_comprehensive ag 0.5 1 1 steady)) == 0 /\
    ~ epsilon (fst (evaluate_agent_comprehensive ag 0.5 1 1 steady))
      == epsilon ag.
Proof.
  destruct six_actions as [e | ag] eqn:H; [vm_compute in H; discriminate |].
  exists ag. split; [reflexivity |].
  vm_compute in H. injection H as <-.
  split; [reflexivity |].
  split; [vm_compute; reflexivity |].
  split; [vm_compute; reflexivity |].
  vm_compute. discriminate.
Qed.

(** C1, amended.  When the call returns normally, the agent is exactly as
    it was before the call, its epsilon in particular.  The restoring is
    not scoped: it is the statement after the loops, and a call that a
    statement of the loops ends by an exception does not reach it (the
    agent then differs from the one before the call in its epsilon only,
    which is the 0.0 of the evaluation). *)
Theorem evaluate_restores_epsilon_on_return
    (ag : Agent) (male_ratio : Q) (episodes steps_per_episode : nat)
    (o : Oracle) :
  let out :=
    evaluate_agent_comprehensive ag male_ratio episodes steps_per_episode o in
  (forall m, snd out = inr m -> fst out = ag /\ epsilon (fst out) = epsilon ag) /\
  (forall e, snd out = inl e -> fst out = set_epsilon ag 0.0).
Proof.
  intros out.
  pose proof (evaluate_outcome ag male_ratio episodes steps_per_episode o) as H.
  fold out in H. split.
  - intros m Hm. rewrite Hm in H. rewrite H. auto.
  - intros e He. rewrite He in H. exact H.
Qed.

(** An evaluation of two steps that returns: the agent keeps its 0.3. *)
Lemma evaluate_restores_epsilon_on_return_witness :
  exists m,
    snd (evaluate_agent_comprehensive four_bins 0.5 1 2 steady) = inr m /\
    epsilon (fst (evaluate_agent_comprehensive four_bins 0.5 1 2 steady))
    = epsilon four_bins.
Proof.
  destruct (snd (evaluate_agent_comprehensive four_bins 0.5 1 2 steady))
    as [e | m] eqn:H; [vm_compute in H; discriminate |].
  exists m. split; [reflexivity |].
  destruct (evaluate_restores_epsilon_on_return four_bins 0.5 1 2 steady)
    as [Hret _].
  destruct (Hret m H) as [_ He]. exact He.
Defined.

(** ** Epsilon under training *)

(** What a successful update does to the counter and to epsilon. *)
Lemma learn_epsilon ag state action reward next_state ag' :
  learn ag state action reward next_state = inr ag' ->
  total_updates ag' = (total_updates ag + 1)%Z /\
  epsilon ag' =
    (if (total_updates ag' mod 500 =? 0)%Z
     then Py.max (min_epsilon ag) (epsilon ag * epsilon_decay ag)
     else epsilon ag) /\
  min_epsilon ag' = min_epsilon ag /\
  epsilon_decay ag' = epsilon_decay ag.
Proof.
  unfold learn.
  destruct (Py.locate (q_table ag) state) as [e | [i row]]; [discriminate |].
  cbn [Py.bind].
  destruct (Py.locate row action) as [e | [j old]]; [discriminate |].
  cbn [Py.bind].
  destruct (Py.getitem (q_table ag) next_state) as [e | next_row];
    [discriminate |].
  cbn [Py.bind].
  destruct (Py.np_max next_row) as [e | next_max]; [discriminate |].
  cbn [Py.bind]. intros H. injection H as <-. cbn. auto.
Qed.

Lemma trained_from_params ag0 ag :
  trained_from ag0 ag ->
  min_epsilon ag = min_epsilon ag0 /\ epsilon_decay ag = epsilon_decay ag0.
Proof.
  induction 1 as [| ag s a r s' ag' _ [IH1 IH2] Hl]; [auto |].
  destruct (learn_epsilon _ _ _ _ _ _ Hl) as (_ & _ & Hm & Hd).
  split; congruence.
Qed.

Lemma trained_from_lower ag0 ag :
  trained_from ag0 ag ->
  min_epsilon ag0 <= epsilon ag0 -> min_epsilon ag0 <= epsilon ag.
Proof.
  intros Ht H0. induction Ht as [| ag s a r s' ag' Ht IH Hl]; [exact H0 |].
  destruct (trained_from_params _ _ Ht) as [Hm _].
  destruct (learn_epsilon _ _ _ _ _ _ Hl) as (_ & He & _ & _).
  rewrite He, Hm.
  destruct (_ =? 0)%Z; [| exact IH].
  destruct (max_cases (min_epsilon ag0) (epsilon ag * epsilon_decay ag))
    as [[H ->] | [H ->]]; lra.
Qed.

Lemma trained_from_upper ag0 ag :
  trained_from ag0 ag ->
  min_epsilon ag0 <= epsilon ag0 -> 0 <= epsilon ag0 ->
  0 <= epsilon_decay ag0 <= 1 ->
  0 <= epsilon ag <= epsilon ag0.
Proof.
  intros Ht Hmin H0 Hd.
  induction Ht as [| ag s a r s' ag' Ht IH Hl]; [lra |].
  destruct (trained_from_params _ _ Ht) as [Hm Hdec].
  destruct (learn_epsilon _ _ _ _ _ _ Hl) as (_ & He & _ & _).
  rewrite He, Hm, Hdec.
  destruct (_ =? 0)%Z; [| exact IH].
  assert (H1 : 0 <= epsilon ag * epsilon_decay ag0)
    by (apply Qmult_le_0_compat; lra).
  assert (H2 : epsilon ag * epsilon_decay ag0 <= epsilon ag).
  { apply Qle_trans with (epsilon ag * 1);
      [| rewrite Qmult_1_r; apply Qle_refl].
    rewrite !(Qmult_comm (epsilon ag)).
    apply Qmult_le_compat_r; lra. }
  destruct (max_cases (min_epsilon ag0) (epsilon ag * epsilon_decay ag0))
    as [[H ->] | [H ->]]; lra.
Qed.

(** The update of a training step is [learn], with the reward of the
    agent's class. *)
Lemma agent_learning_is_learn ag state action r next_state :
  agent_learning ag state action r next_state =
  learn ag state action
    match agent_class ag with
    | FairnessAware w =>
        (male_comfort r + female_comfort r) / 2
        - w * Qabs (male_comfort r - female_comfort r)
    | Biased g =>
        if String.eqb g "male" then male_comfort r else female_comfort r
    | QLearning | HybridAdaptive => blended_reward r
    end
    next_state.
Proof.
  unfold agent_learning.
  destruct (agent_class ag) as [| | w | g]; try reflexivity.
  destruct (String.eqb g "male"); reflexivity.
Qed.

(** Training only ever updates the agent through [learn], whether a step
    returns or raises. *)
Lemma train_step_trained ag0 d ep st :
  trained_from ag0 (agent st) ->
  trained_from ag0 (agent (fst (train_step d ep st))).
Proof.
  intros Ht.
  unfold train_step, Run.bind, Run.read, Run.on_env, Run.on_agent, Run.ret.
  destruct (choose_action _ _ _ _) as [e | action]; [exact Ht |].
  destruct (step _ _ _) as [e | [en r]]; [exact Ht |].
  cbn [agent env].
  destruct (discretize_state_default _ _) as [e | next_state]; [exact Ht |].
  rewrite agent_learning_is_learn.
  destruct (learn _ _ _ _ _) as [e | ag'] eqn:Hl; cbn [fst agent];
    [exact Ht |].
  eapply trained_learn; [exact Ht | exact Hl].
Qed.

Lemma train_episode_trained ag0 o steps episode m st :
  trained_from ag0 (agent st) ->
  trained_from ag0 (agent (fst (train_episode o steps episode m st))).
Proof.
  intros Ht. unfold train_episode, Run.bind.
  pose proof (episode_start_agent o episode st) as H0.
  destruct (episode_start o episode st) as [st0 [e | s]]; cbn [fst] in *;
    [rewrite H0; exact Ht |].
  rewrite <- H0 in Ht.
  match goal with
  | |- context [Run.for_range ?body ?a ?b ?c ?d] =>
      pose proof (for_range_preserves
                    (fun st' => trained_from ag0 (agent st')) body
                    (fun i acc st' H => train_step_trained ag0 _ acc st' H)
                    b a c d Ht) as H1;
      destruct (Run.for_range body a b c d) as [st1 [e | ep]]
  end; cbn [fst] in *; [exact H1 |].
  destruct steps; exact H1.
Qed.

Lemma train_agent_trained ag0 o episodes steps st :
  trained_from ag0 (agent st) ->
  trained_from ag0 (agent (fst (train_agent o episodes steps st))).
Proof.
  intros Ht. unfold train_agent.
  apply (for_range_preserves (fun st' => trained_from ag0 (agent st'))
           (train_episode o steps)); [| exact Ht].
  intros i acc st' H. apply train_episode_trained, H.
Qed.

Lemma learn_n_snoc (n : nat) :
  forall ag state action reward next_state,
    learn_n (S n) ag state action reward next_state =
    let? ag' := learn_n n ag state action reward next_state in
    learn ag' state action reward next_state.
Proof.
  induction n as [| n IH]; intros ag s a r s'.
  - cbn [learn_n Py.bind]. destruct (learn ag s a r s'); reflexivity.
  - change (learn_n (S (S n)) ag s a r s')
      with (let? ag1 := learn ag s a r s' in learn_n (S n) ag1 s a r s').
    change (learn_n (S n) ag s a r s')
      with (let? ag1 := learn ag s a r s' in learn_n n ag1 s a r s').
    destruct (learn ag s a r s') as [e | ag1]; [reflexivity |].
    cbn [Py.bind]. apply IH.
Qed.

Lemma learn_n_trained ag0 (n : nat) :
  forall ag state action reward next_state ag',
    trained_from ag0 ag ->
    learn_n n ag state action reward next_state = inr ag' ->
    trained_from ag0 ag'.
Proof.
  induction n as [| n IH]; intros ag s a r s' ag' Ht H.
  - injection H as <-. exact Ht.
  - cbn [learn_n] in H.
    destruct (learn ag s a r s') as [e | ag1] eqn:Hl; [discriminate |].
    cbn [Py.bind] in H.
    eapply IH; [| exact H]. eapply trained_learn; [exact Ht | exact Hl].
Qed.

(** C3, as stated, fails, in two ways.  (1) While an evaluation runs,
    epsilon is 0.0: for the default agent, constructed with epsilon 0.3
    above its floor 0.01, the store in which the evaluation loops start
    has epsilon 0 below the floor.  (2) Nothing keeps the decay factor at
    or below one: the agent constructed with the factor 2.0 has, after 500
    updates, the epsilon 0.6 above its initial 0.3. *)
Lemma epsilon_leaves_range :
  (let ag := default_agent QLearning in
   let st := fst (eval_enter
                    {| agent := ag; env := ASHRAEEnvironment_default 0.5 |}) in
   min_epsilon ag <= epsilon ag /\
   epsilon (agent st) == 0 /\
   epsilon (agent st) < min_epsilon (agent st)) /\
  (min_epsilon growing <= epsilon growing /\
   exists ag,
     learn_n 500 growing 0 0 0 1 = inr ag /\
     trained_from growing ag /\
     epsilon ag == 0.6 /\
     epsilon growing < epsilon ag).
Proof.
  split; [repeat split; vm_compute; congruence |].
  split; [vm_compute; discriminate |].
  destruct (learn_n_run 499 growing 0 0 1 (replicate 1 0.0) 0.0
              (replicate 1 0.0) 0.0 0)
    as (ag499 & row & v & Hn & Hr & Hv & Hx & Hc & Hd & Hm & He & _);
    try reflexivity; [discriminate |].
  specialize (He ltac:(vm_compute; reflexivity)).
  destruct (learn_ok ag499 0 0 1 row v (replicate 1 0.0) 0.0 0
              Hr Hv Hx ltac:(reflexivity))
    as (ag & Hl & _ & _ & Heps & _).
  exists ag.
  assert (H500 : learn_n 500 growing 0 0 0 1 = inr ag).
  { change (learn_n 499 growing 0 0 0 1 = inr ag499) in Hn.
    rewrite (learn_n_snoc 499), Hn. exact Hl. }
  split; [exact H500 |].
  split; [eapply learn_n_trained; [apply trained_init | exact H500] |].
  rewrite Heps, Hc, Hm, Hd, He.
  split; vm_compute; reflexivity.
Qed.

(** C3, amended.  Take an agent [ag0] as constructed and any agent [ag]
    it becomes through updates.  If [min_epsilon <= epsilon] at
    construction, epsilon never drops below [min_epsilon], however many
    updates are performed.  If moreover the initial epsilon is not
    negative and the decay factor lies in [[0, 1]], epsilon never exceeds
    its initial value.  An update adds one to the counter and changes
    epsilon only when the new count is a multiple of 500, to
    [max(min_epsilon, epsilon * decay)].  A training run, complete or
    aborted, only performs such updates.  An evaluation runs its loops
    with epsilon at 0.0, and when it returns it leaves the agent as it
    was. *)
Theorem epsilon_stays_in_range (ag0 ag : Agent) :
  trained_from ag0 ag ->
  (min_epsilon ag0 <= epsilon ag0 -> min_epsilon ag0 <= epsilon ag) /\
  (min_epsilon ag0 <= epsilon ag0 -> 0 <= epsilon ag0 ->
   0 <= epsilon_decay ag0 <= 1 ->
   epsilon ag <= epsilon ag0) /\
  (forall state action reward next_state ag',
      learn ag state action reward next_state = inr ag' ->
      total_updates ag' = (total_updates ag + 1)%Z /\
      ((total_updates ag' mod 500 <> 0)%Z -> epsilon ag' = epsilon ag) /\
      ((total_updates ag' mod 500 = 0)%Z ->
         epsilon ag' == Qmax (min_epsilon ag0) (epsilon ag * epsilon_decay ag0))) /\
  (forall o episodes steps_per_episode en,
      trained_from ag0
        (agent (fst (train_agent o episodes steps_per_episode
                       {| agent := ag; env := en |})))) /\
  (forall en o episodes steps_per_episode,
      let st := fst (eval_enter {| agent := ag; env := en |}) in
      agent st = set_epsilon ag 0.0 /\
      agent (fst (Run.for_range (eval_episode o steps_per_episode)
                    0 episodes no_metrics st)) = set_epsilon ag 0.0) /\
  (forall male_ratio episodes steps_per_episode o m,
      snd (evaluate_agent_comprehensive
             ag male_ratio episodes steps_per_episode o) = inr m ->
      fst (evaluate_agent_comprehensive
             ag male_ratio episodes steps_per_episode o) = ag).
Proof.
  intros Ht. split; [apply trained_from_lower, Ht |].
  split; [intros H1 H2 H3; apply (trained_from_upper ag0 ag Ht H1 H2 H3) |].
  split; [| split; [| split]].
  - intros s a r s' ag' Hl.
    destruct (learn_epsilon _ _ _ _ _ _ Hl) as (Hc & He & _ & _).
    destruct (trained_from_params _ _ Ht) as [Hm Hd].
    split; [exact Hc |]. rewrite He, Hm, Hd. split; intros H.
    + apply Z.eqb_neq in H. rewrite H. reflexivity.
    + apply Z.eqb_eq in H. rewrite H. apply max_Qmax.
  - intros o episodes steps en. apply train_agent_trained. exact Ht.
  - intros en o episodes steps st.
    split; [reflexivity |]. rewrite eval_loops_agent. reflexivity.
  - intros r episodes steps o m Hm.
    pose proof (evaluate_outcome ag r episodes steps o) as H.
    rewrite Hm in H. exact H.
Qed.

(** The default agent after 500 updates of its entry (0, 0): the first
    decay has happened, epsilon is 0.3 * 0.995 = 0.2985, between the floor
    0.01 and the initial 0.3. *)
Lemma epsilon_stays_in_range_witness :
  let ag0 := default_agent QLearning in
  exists ag499 ag,
    learn_n 499 ag0 0 0 1 1 = inr ag499 /\
    learn ag499 0 0 1 1 = inr ag /\
    learn_n 500 ag0 0 0 1 1 = inr ag /\
    trained_from ag0 ag /\
    total_updates ag = 500%Z /\
    epsilon ag499 == 0.3 /\
    epsilon ag == 0.2985 /\
    min_epsilon ag0 <= epsilon ag /\
    epsilon ag <= epsilon ag0.
Proof.
  intros ag0.
  destruct (learn_n_run 499 ag0 0 0 1 (replicate 5 0.0) 0.0
              (replicate 5 0.0) 0.0 1)
    as (ag499 & row & v & Hn & Hr & Hv & Hx & Hc & Hd & Hm & He & _);
    try reflexivity; [discriminate |].
  specialize (He ltac:(vm_compute; reflexivity)).
  change (learn_n 499 ag0 0 0 1 1 = inr ag499) in Hn.
  destruct (learn_ok ag499 0 0 1 row v (replicate 5 0.0) 0.0 1
              Hr Hv Hx ltac:(reflexivity))
    as (ag & Hl & _ & _ & _).
  change (learn ag499 0 0 1 1 = inr ag) in Hl.
  assert (H500 : learn_n 500 ag0 0 0 1 1 = inr ag).
  { rewrite (learn_n_snoc 499), Hn. exact Hl. }
  assert (Ht499 : trained_from ag0 ag499).
  { eapply learn_n_trained; [apply trained_init | exact Hn]. }
  assert (Ht : trained_from ag0 ag).
  { eapply trained_learn; [exact Ht499 | exact Hl]. }
  assert (Hmin : min_epsilon ag0 <= epsilon ag0) by (vm_compute; discriminate).
  assert (H0 : 0 <= epsilon ag0) by (vm_compute; discriminate).
  assert (Hdec : 0 <= epsilon_decay ag0 <= 1)
    by (split; vm_compute; discriminate).
  destruct (epsilon_stays_in_range ag0 ag499 Ht499) as (_ & _ & Hstep & _).
  destruct (Hstep _ _ _ _ _ Hl) as (Hcount & _ & Hdecay).
  assert (H5 : total_updates ag = 500%Z).
  { rewrite Hcount, Hc. reflexivity. }
  specialize (Hdecay ltac:(rewrite H5; reflexivity)).
  destruct (epsilon_stays_in_range ag0 ag Ht) as (Hlow & Hup & _).
  exists ag499, ag.
  split; [exact Hn |]. split; [exact Hl |]. split; [exact H500 |].
  split; [exact Ht |]. split; [exact H5 |].
  split; [rewrite He; reflexivity |].
  split; [rewrite Hdecay, He; vm_compute; reflexivity |].
  split; [exact (Hlow Hmin) | exact (Hup Hmin H0 Hdec)].
Defined.

(** ** The relative fairness improvement *)

(** C5, as stated, fails: no guard stands before the division.  With a
    zero gap of the biased agent and a gap of 0.1 of the other agent, the
    reports compute minus infinity, where the guarded computation gives
    the undefined value. *)
Lemma improvement_zero_baseline_unguarded :
  improvement (NpFloat.Fin 0) (NpFloat.Fin 0.1) = NpFloat.NInf /\
  improvement_spec (NpFloat.Fin 0) (NpFloat.Fin 0.1) = NpFloat.NaN /\
  improvement (NpFloat.Fin 0) (NpFloat.Fin 0.1)
    <> improvement_spec (NpFloat.Fin 0) (NpFloat.Fin 0.1).
Proof.
  repeat split; try reflexivity. vm_compute. discriminate.
Qed.

(** C5, amended.  The relative improvement is the plain floating-point
    quotient [(biased_gap - gap) / biased_gap * 100], with no test of the
    divisor.  For a non-zero baseline it is that finite number.  For a
    zero baseline no exception is raised and the value is NaN when the
    other gap is zero as well, minus infinity when the other gap is
    positive, plus infinity when it is negative. *)
Theorem improvement_is_plain_division (biased_gap gap : Q) :
  (~ biased_gap == 0 ->
     exists q,
       improvement (NpFloat.Fin biased_gap) (NpFloat.Fin gap) = NpFloat.Fin q /\
       q == (biased_gap - gap) / biased_gap * 100) /\
  (biased_gap == 0 -> gap == 0 ->
     improvement (NpFloat.Fin biased_gap) (NpFloat.Fin gap) = NpFloat.NaN) /\
  (biased_gap == 0 -> 0 < gap ->
     improvement (NpFloat.Fin biased_gap) (NpFloat.Fin gap) = NpFloat.NInf) /\
  (biased_gap == 0 -> gap < 0 ->
     improvement (NpFloat.Fin biased_gap) (NpFloat.Fin gap) = NpFloat.PInf).
Proof.
  unfold improvement, NpFloat.sub, NpFloat.div.
  split; [| split; [| split]].
  - intros Hb.
    destruct (Qeq_bool biased_gap 0) eqn:E;
      [apply Qeq_bool_eq in E; contradiction |].
    eexists. split; reflexivity.
  - intros Hb Hg. rewrite (Qeq_eq_bool _ _ Hb).
    rewrite (Qeq_eq_bool (biased_gap - gap) 0) by lra. reflexivity.
  - intros Hb Hg. rewrite (Qeq_eq_bool _ _ Hb).
    destruct (Qeq_bool (biased_gap - gap) 0) eqn:E;
      [apply Qeq_bool_eq in E; lra |].
    unfold NpFloat.inf_of_sign.
    assert (Hs : Py.ltb 0 (biased_gap - gap) = false) by (apply ltb_ge; lra).
    rewrite Hs. reflexivity.
  - intros Hb Hg. rewrite (Qeq_eq_bool _ _ Hb).
    destruct (Qeq_bool (biased_gap - gap) 0) eqn:E;
      [apply Qeq_bool_eq in E; lra |].
    unfold NpFloat.inf_of_sign.
    assert (Hs : Py.ltb 0 (biased_gap - gap) = true) by (apply ltb_lt; lra).
    rewrite Hs. reflexivity.
Qed.

(** The three cases at concrete gaps: 0.5 against 0.1 is an improvement of
    80 percent; a zero baseline gives NaN against 0 and minus infinity
    against 0.1. *)
Lemma improvement_is_plain_division_witness :
  (exists q, improvement (NpFloat.Fin 0.5) (NpFloat.Fin 0.1) = NpFloat.Fin q /\
             q == 80) /\
  improvement (NpFloat.Fin 0) (NpFloat.Fin 0) = NpFloat.NaN /\
  improvement (NpFloat.Fin 0) (NpFloat.Fin 0.1) = NpFloat.NInf.
Proof.
  split; [| split].
  - destruct (improvement_is_plain_division 0.5 0.1) as [H _].
    destruct (H ltac:(vm_compute; discriminate)) as (q & Hq & Hv).
    exists q. split; [exact Hq |]. rewrite Hv. reflexivity.
  - destruct (improvement_is_plain_division 0 0) as (_ & H & _).
    apply H; reflexivity.
  - destruct (improvement_is_plain_division 0 0.1) as (_ & _ & H & _).
    apply H; reflexivity.
Defined.

(** * Further properties of the code *)

(** ** The comfort model *)

Lemma unit_clamp_eq (x : Q) : 0 <= x <= 1 -> Py.max 0.0 (Py.min 1.0 x) == x.
Proof.
  intros [H0 H1].
  destruct (min_cases 1.0 x) as [[H E] | [H E]]; rewrite E;
    destruct (max_cases 0.0 (Py.min 1.0 x)) as [[H' E'] | [H' E']];
    rewrite E in H', E'; rewrite E'; lra.
Qed.

(** The comfort score in cases: a base value by the bracket of the
    deviation, times the factor of the group. *)
Lemma comfort_score_cases (t : Q) (g : string) :
  let dev := Qabs (t - optimal (prefs_of g)) in
  exists base pen : Q,
    calculate_thermal_comfort_score t g == base * pen /\
    0 <= dev /\
    ((dev <= 1 /\ base == 1 - 0.2 * dev) \/
     (1 < dev <= 2 /\ base == 0.8 - 0.4 * (dev - 1)) \/
     (2 < dev <= 4 /\ base == 0.4 - 0.15 * (dev - 2)) \/
     (4 < dev /\ base == 0.1)) /\
    ((g = "female"%string /\ 0 < dev /\ pen == 0.9) \/
     ((g <> "female"%string \/ dev == 0) /\ pen == 1)).
Proof.
  intros dev. unfold calculate_thermal_comfort_score. fold dev.
  assert (Hd : 0 <= dev) by apply Qabs_nonneg.
  set (base := if Py.leb dev 1.0 then _ else _).
  assert (Hb : ((dev <= 1 /\ base == 1 - 0.2 * dev) \/
                (1 < dev <= 2 /\ base == 0.8 - 0.4 * (dev - 1)) \/
                (2 < dev <= 4 /\ base == 0.4 - 0.15 * (dev - 2)) \/
                (4 < dev /\ base == 0.1))).
  { subst base. case_cmp.
    - left. split; lra.
    - right. left. split; lra.
    - right. right. left. split; lra.
    - right. right. right. split; lra. }
  assert (Hr : 0.1 <= base <= 1) by (destruct Hb as [H | [H | [H | H]]]; lra).
  destruct (String.eqb g "female") eqn:Eg; [apply String.eqb_eq in Eg |
                                            apply String.eqb_neq in Eg].
  - destruct (Py.ltb 0 dev) eqn:Ed; [apply ltb_lt in Ed | apply ltb_ge in Ed];
      simpl andb; cbv iota.
    + exists base, 0.9. split; [apply unit_clamp_eq; lra |].
      split; [exact Hd |]. split; [exact Hb |]. left.
      split; [exact Eg |]. split; [exact Ed | reflexivity].
    + exists base, 1. split; [rewrite unit_clamp_eq by lra; ring |].
      split; [exact Hd |]. split; [exact Hb |]. right.
      split; [right; lra | reflexivity].
  - simpl andb. cbv iota. exists base, 1.
    split; [rewrite unit_clamp_eq by lra; ring |].
    split; [exact Hd |]. split; [exact Hb |]. right.
    split; [left; exact Eg | reflexivity].
Qed.

(** Splits a goal about one comfort score into its eight cases. *)
Ltac comfort_cases t g s dev :=
  let base := fresh "base" in
  let pen := fresh "pen" in
  let Hs := fresh "Hs" in
  let Hd := fresh "Hd" in
  let Hb := fresh "Hb" in
  let Hp := fresh "Hp" in
  destruct (comfort_score_cases t g) as (base & pen & Hs & Hd & Hb & Hp);
  set (s := calculate_thermal_comfort_score t g) in *;
  set (dev := Qabs (t - optimal (prefs_of g))) in *;
  destruct Hp as [(? & ? & Hp) | [? Hp]]; rewrite Hp in Hs;
  destruct Hb as [[? Hb] | [[? Hb] | [[? Hb] | [? Hb]]]]; rewrite Hb in Hs.

Lemma comfort_score_bounds (t : Q) (g : string) :
  0.09 <= calculate_thermal_comfort_score t g <= 1.
Proof.
  comfort_cases t g s dev; split; lra.
Qed.

(** The comfort score lies in [0.09, 1] (the clamp to [0, 1] never
    acts), and it is 1 exactly at the optimal temperature of the group. *)
Theorem comfort_score_range (t : Q) (g : string) :
  0.09 <= calculate_thermal_comfort_score t g <= 1 /\
  (calculate_thermal_comfort_score t g == 1 <-> t == optimal (prefs_of g)).
Proof.
  assert (Hz : Qabs (t - optimal (prefs_of g)) == 0 <-> t == optimal (prefs_of g)).
  { split; intros H.
    - destruct (Qabs_Qle_condition (t - optimal (prefs_of g)) 0) as [Hc _].
      specialize (Hc ltac:(rewrite H; apply Qle_refl)). lra.
    - assert (E : t - optimal (prefs_of g) == 0) by lra. rewrite E. reflexivity. }
  rewrite <- Hz. clear Hz.
  comfort_cases t g s dev; split; try split; try lra; intros; lra.
Qed.

Lemma Qabs_cases (x : Q) :
  (0 <= x /\ Qabs x == x) \/ (x <= 0 /\ Qabs x == - x).
Proof.
  destruct (Qlt_le_dec x 0) as [H | H].
  - right. split; [lra |]. apply Qabs_neg. lra.
  - left. split; [exact H |]. apply Qabs_pos. exact H.
Qed.

(** As [comfort_cases], with the deviation resolved to [t - optimal] or
    [optimal - t]. *)
Ltac comfort_at t g s dev :=
  let Ha := fresh "Ha" in
  destruct (Qabs_cases (t - optimal (prefs_of g))) as [[? Ha] | [? Ha]];
  comfort_cases t g s dev.

Ltac split_ors :=
  repeat match goal with
         | H : _ \/ _ |- _ => destruct H
         | H : _ /\ _ |- _ => destruct H
         end.

(** The comfort score never rises with the distance to the optimum: of two
    temperatures, the one farther from the group's optimal temperature
    has the lower (or the same) comfort. *)
Theorem comfort_score_monotone (t1 t2 : Q) (g : string) :
  Qabs (t1 - optimal (prefs_of g)) <= Qabs (t2 - optimal (prefs_of g)) ->
  calculate_thermal_comfort_score t2 g <= calculate_thermal_comfort_score t1 g.
Proof.
  intros H.
  comfort_cases t1 g s1 dev1; comfort_cases t2 g s2 dev2;
    split_ors; try congruence; lra.
Qed.

Lemma comfort_score_monotone_witness :
  Qabs (23 - optimal (prefs_of "female")) <= Qabs (22 - optimal (prefs_of "female"))
  /\ calculate_thermal_comfort_score 22 "female"
     <= calculate_thermal_comfort_score 23 "female".
Proof.
  assert (H : Qabs (23 - optimal (prefs_of "female"))
              <= Qabs (22 - optimal (prefs_of "female")))
    by (vm_compute; discriminate).
  split; [exact H |]. apply (comfort_score_monotone 23 22 "female" H).
Defined.

Lemma comfort_and_threshold (t : Q) :
  (20.5 < t < 23.5 -> 0.6 < calculate_thermal_comfort_score t "male") /\
  (t < 20.5 \/ 23.5 < t -> calculate_thermal_comfort_score t "male" < 0.6) /\
  (t == 20.5 \/ t == 23.5 -> calculate_thermal_comfort_score t "male" == 0.6) /\
  (68 # 3 < t < 76 # 3 -> 0.6 < calculate_thermal_comfort_score t "female") /\
  (t < 68 # 3 \/ 76 # 3 < t ->
   calculate_thermal_comfort_score t "female" < 0.6) /\
  (t == 68 # 3 \/ t == 76 # 3 ->
   calculate_thermal_comfort_score t "female" == 0.6).
Proof.
  split; [| split; [| split]]; [| | | split; [| split]]; intros H.
  1-3: comfort_at t "male"%string s dev;
         change (optimal (prefs_of "male")) with 22.0 in *;
         split_ors; try congruence; lra.
  all: comfort_at t "female"%string s dev;
         change (optimal (prefs_of "female")) with 24.0 in *;
         split_ors; try congruence; lra.
Qed.

(** Who is satisfied (comfort above 0.6).  The group "male" is satisfied
    at every temperature strictly between 20.5 and 23.5 degrees and at no
    temperature below 20.5 or above 23.5; the group "female" is satisfied
    strictly between 22 2/3 and 25 1/3 degrees and at no temperature
    below or above; so both are satisfied strictly between 22 2/3 and 23.5
    degrees, and not both below or above.  At the four bounds themselves
    the score is the threshold 0.6: the outcome of the comparison there
    rests on the rounding of the score and is not stated. *)
Theorem satisfied_temperatures (t : Q) :
  let male := calculate_thermal_comfort_score t "male" in
  let female := calculate_thermal_comfort_score t "female" in
  (20.5 < t < 23.5 -> satisfied male = true) /\
  (t < 20.5 \/ 23.5 < t -> satisfied male = false) /\
  (t == 20.5 \/ t == 23.5 -> male == 0.6) /\
  (68 # 3 < t < 76 # 3 -> satisfied female = true) /\
  (t < 68 # 3 \/ 76 # 3 < t -> satisfied female = false) /\
  (t == 68 # 3 \/ t == 76 # 3 -> female == 0.6) /\
  (68 # 3 < t < 23.5 -> satisfied male = true /\ satisfied female = true) /\
  (t < 68 # 3 \/ 23.5 < t -> satisfied male && satisfied female = false).
Proof.
  intros male female.
  destruct (comfort_and_threshold t) as (M1 & M2 & M3 & F1 & F2 & F3).
  fold male in M1, M2, M3. fold female in F1, F2, F3. unfold satisfied.
  split; [intros H; apply ltb_lt, M1, H |].
  split; [intros H; apply ltb_ge; specialize (M2 H); lra |].
  split; [exact M3 |].
  split; [intros H; apply ltb_lt, F1, H |].
  split; [intros H; apply ltb_ge; specialize (F2 H); lra |].
  split; [exact F3 |].
  split.
  - intros H. split; apply ltb_lt; [apply M1 | apply F1]; lra.
  - intros [H | H]; apply andb_false_iff.
    + right. apply ltb_ge. specialize (F2 (or_introl H)). lra.
    + left. apply ltb_ge. specialize (M2 (or_intror H)). lra.
Qed.

Lemma satisfied_temperatures_witness :
  20.5 < 23 < 23.5 /\ 68 # 3 < 23 < 76 # 3 /\
  satisfied (calculate_thermal_comfort_score 23 "male") = true /\
  satisfied (calculate_thermal_comfort_score 23 "female") = true /\
  23.5 < 26 /\
  satisfied (calculate_thermal_comfort_score 26 "male") = false.
Proof.
  assert (H1 : 20.5 < 23 < 23.5) by (split; reflexivity).
  assert (H2 : 68 # 3 < 23 < 76 # 3) by (split; reflexivity).
  assert (H3 : 23.5 < 26) by reflexivity.
  destruct (satisfied_temperatures 23) as (M & _ & _ & F & _).
  destruct (satisfied_temperatures 26) as (_ & M' & _).
  split; [exact H1 |]. split; [exact H2 |].
  split; [exact (M H1) |]. split; [exact (F H2) |].
  split; [exact H3 | exact (M' (or_intror H3))].
Defined.

(** The preference signal and the comfort agree: a group that wants no
    change (signal 0) is within one degree of its optimum and satisfied
    (comfort above 0.6); a group farther away wants the change toward its
    optimum.  Across the groups: when "male" wants it warmer so does
    "female", when "female" wants it cooler so does "male", and 23 degrees
    is the only temperature at which neither wants a change. *)
Theorem preference_and_comfort (t : Q) (g : string) :
  (calculate_thermal_preference t g = 0%Z
   <-> Qabs (t - optimal (prefs_of g)) <= 1) /\
  (calculate_thermal_preference t g = (-1)%Z <-> optimal (prefs_of g) + 1 < t) /\
  (calculate_thermal_preference t g = 1%Z <-> t < optimal (prefs_of g) - 1) /\
  (calculate_thermal_preference t g = 0%Z ->
   satisfied (calculate_thermal_comfort_score t g) = true) /\
  (calculate_thermal_preference t "male" = 1%Z ->
   calculate_thermal_preference t "female" = 1%Z) /\
  (calculate_thermal_preference t "female" = (-1)%Z ->
   calculate_thermal_preference t "male" = (-1)%Z) /\
  (calculate_thermal_preference t "male" = 0%Z /\
   calculate_thermal_preference t "female" = 0%Z <-> t == 23).
Proof.
  assert (H0 : calculate_thermal_preference t g = 0%Z
               <-> Qabs (t - optimal (prefs_of g)) <= 1).
  { rewrite Qabs_Qle_condition. unfold calculate_thermal_preference.
    case_cmp; split; intros; try discriminate; try split; lra. }
  assert (Hgen : forall g',
             (calculate_thermal_preference t g' = (-1)%Z
              <-> optimal (prefs_of g') + 1 < t) /\
             (calculate_thermal_preference t g' = 1%Z
              <-> t < optimal (prefs_of g') - 1)).
  { intros g'. unfold calculate_thermal_preference.
    case_cmp; split; split; intros; try discriminate; try reflexivity; lra. }
  split; [exact H0 |]. split; [apply Hgen |]. split; [apply Hgen |].
  split; [| split; [| split]].
  - rewrite H0. intros Hd. unfold satisfied. rewrite ltb_lt.
    comfort_cases t g s dev; lra.
  - intros H. apply (Hgen "male"%string) in H. apply (Hgen "female"%string).
    change (optimal (prefs_of "male")) with 22.0 in H.
    change (optimal (prefs_of "female")) with 24.0. lra.
  - intros H. apply (Hgen "female"%string) in H. apply (Hgen "male"%string).
    change (optimal (prefs_of "female")) with 24.0 in H.
    change (optimal (prefs_of "male")) with 22.0. lra.
  - unfold calculate_thermal_preference.
    change (optimal (prefs_of "female")) with 24.0.
    change (optimal (prefs_of "male")) with 22.0.
    case_cmp; split; intros; split_ors; try discriminate; try split;
      try reflexivity; lra.
Qed.

Lemma preference_and_comfort_witness :
  calculate_thermal_preference 22.5 "male" = 0%Z /\
  satisfied (calculate_thermal_comfort_score 22.5 "male") = true.
Proof.
  assert (H : calculate_thermal_preference 22.5 "male" = 0%Z) by reflexivity.
  split; [exact H |].
  destruct (preference_and_comfort 22.5 "male") as (_ & _ & _ & Hs & _).
  exact (Hs H).
Defined.

(** ** The sensation vote *)

Lemma round_near (x : Q) :
  (Py.round x = Qfloor x /\ x - inject_Z (Qfloor x) <= 1 # 2) \/
  (Py.round x = (Qfloor x + 1)%Z /\ 1 # 2 <= x - inject_Z (Qfloor x)).
Proof.
  unfold Py.round. case_cmp.
  - left. split; [reflexivity | lra].
  - right. split; [reflexivity | lra].
  - destruct (Z.even (Qfloor x)); [left | right]; split; try reflexivity; lra.
Qed.

(** Rounding to nearest (halves to even) keeps the order. *)
Lemma round_monotone (x y : Q) : x <= y -> (Py.round x <= Py.round y)%Z.
Proof.
  intros Hxy.
  pose proof (Qfloor_resp_le x y Hxy) as Hf.
  destruct (Z.eq_dec (Qfloor x) (Qfloor y)) as [E | NE].
  - unfold Py.round. rewrite <- E.
    set (f := Qfloor x).
    assert (Hr : x - inject_Z f <= y - inject_Z f) by lra.
    case_cmp; try lia; try (exfalso; lra);
      destruct (Z.even f); lia.
  - destruct (round_near x) as [[Hx _] | [Hx _]];
      destruct (round_near y) as [[Hy _] | [Hy _]]; lia.
Qed.

(** The sensation vote is an integer from -3 to 3, and for a fixed group
    it never falls when the temperature or the noise rises. *)
Theorem sensation_vote_range_monotone (t1 t2 : Q) (g : string) (n1 n2 : Q) :
  (-3 <= calculate_thermal_sensation_vote t1 g n1 <= 3)%Z /\
  (t1 <= t2 -> n1 <= n2 ->
   (calculate_thermal_sensation_vote t1 g n1
    <= calculate_thermal_sensation_vote t2 g n2)%Z).
Proof.
  unfold calculate_thermal_sensation_vote, Py.clipZ. split; [lia |].
  intros Ht Hn.
  assert (Hs : 0 < sensitivity (prefs_of g)).
  { unfold prefs_of. destruct (String.eqb g "male"); reflexivity. }
  set (o := optimal (prefs_of g)). set (k := sensitivity (prefs_of g)) in *.
  assert (H : (t1 - o) * k * 0.4 + n1 <= (t2 - o) * k * 0.4 + n2).
  { assert (0 <= (t2 - t1) * k) by (apply Qmult_le_0_compat; lra).
    assert (E : (t2 - o) * k * 0.4 - (t1 - o) * k * 0.4
                == 0.4 * ((t2 - t1) * k)) by ring.
    lra. }
  pose proof (round_monotone _ _ H). lia.
Qed.

Lemma sensation_vote_range_monotone_witness :
  20 <= 26 /\ 0 <= 0.3 /\
  (calculate_thermal_sensation_vote 20 "male" 0
   <= calculate_thermal_sensation_vote 26 "male" 0.3)%Z.
Proof.
  assert (H1 : 20 <= 26) by lra. assert (H2 : 0 <= 0.3) by lra.
  split; [exact H1 |]. split; [exact H2 |].
  exact (proj2 (sensation_vote_range_monotone 20 26 "male" 0 0.3) H1 H2).
Defined.

(** ** The reward of a step *)

Lemma blend_between (p a b lo hi : Q) :
  0 <= p <= 1 -> lo <= a <= hi -> lo <= b <= hi ->
  lo <= p * a + (1 - p) * b <= hi.
Proof.
  intros Hp Ha Hb.
  assert (H1 : 0 <= p * (a - lo)) by (apply Qmult_le_0_compat; lra).
  assert (H2 : 0 <= (1 - p) * (b - lo)) by (apply Qmult_le_0_compat; lra).
  assert (H3 : 0 <= p * (hi - a)) by (apply Qmult_le_0_compat; lra).
  assert (H4 : 0 <= (1 - p) * (hi - b)) by (apply Qmult_le_0_compat; lra).
  assert (E1 : p * a + (1 - p) * b - lo
               == p * (a - lo) + (1 - p) * (b - lo)) by ring.
  assert (E2 : hi - (p * a + (1 - p) * b)
               == p * (hi - a) + (1 - p) * (hi - b)) by ring.
  split; lra.
Qed.

(** Outside the band [18, 28] both groups are at their lowest comfort. *)
Lemma comfort_outside_band (t : Q) :
  t < 18 \/ 28 < t ->
  calculate_thermal_comfort_score t "male" == 0.1 /\
  calculate_thermal_comfort_score t "female" == 0.09.
Proof.
  intros H. split.
  - comfort_at t "male"%string s dev;
      change (optimal (prefs_of "male")) with 22.0 in *;
      split_ors; try congruence; lra.
  - comfort_at t "female"%string s dev;
      change (optimal (prefs_of "female")) with 24.0 in *;
      split_ors; try congruence; lra.
Qed.

(** What a step that returns has computed. *)
Lemma step_inv en action_idx d en' r :
  step en action_idx d = inr (en', r) ->
  exists delta,
    Py.getitem (action_space en) action_idx = inr delta /\
    new_temp r = Py.clip (current_temp en + delta + noise d)
                   (min_temp en) (max_temp en) /\
    en' = set_current_temp en (new_temp r) /\
    male_comfort r = calculate_thermal_comfort_score (new_temp r) "male" /\
    female_comfort r = calculate_thermal_comfort_score (new_temp r) "female" /\
    male_tsv (info r)
      = calculate_thermal_sensation_vote (new_temp r) "male" (male_tsv_noise d) /\
    female_tsv (info r)
      = calculate_thermal_sensation_vote (new_temp r) "female"
          (female_tsv_noise d) /\
    male_preference (info r) = calculate_thermal_preference (new_temp r) "male" /\
    female_preference (info r)
      = calculate_thermal_preference (new_temp r) "female" /\
    temperature (info r) = new_temp r /\
    blended_reward r =
      (let b := male_ratio en * male_comfort r
                + female_ratio en * female_comfort r in
       if Py.ltb (new_temp r) 18.0 || Py.ltb 28.0 (new_temp r)
       then b - 0.3 else b).
Proof.
  unfold step. destruct (Py.getitem _ _) as [e | delta]; [discriminate |].
  intros H. injection H as <- <-. exists delta. cbn. repeat split.
Qed.

(** The reward of a step that returns, in an environment whose population
    shares are a ratio in [0, 1] and its complement.  When the new
    temperature is within [18, 28] the reward is the blend of the two
    comforts, in [0.09, 1].  When it is outside, the comforts are 0.1 for
    "male" and 0.1 * 0.9 for "female" (both deviations exceed 4 degrees),
    and the reward is their blend less the penalty 0.3,
    [male_ratio * 0.1 + female_ratio * (0.1 * 0.9) - 0.3], which is
    negative.  So the reward is negative exactly when the new temperature
    is outside the band. *)
Theorem step_reward_sign (en : Env) (action_idx : Z) (d : StepDraws)
    (en' : Env) (r : StepResult) :
  step en action_idx d = inr (en', r) ->
  0 <= male_ratio en <= 1 ->
  female_ratio en == 1 - male_ratio en ->
  (18 <= new_temp r <= 28 ->
   blended_reward r
     == male_ratio en * male_comfort r + female_ratio en * female_comfort r /\
   0.09 <= blended_reward r <= 1) /\
  (new_temp r < 18 \/ 28 < new_temp r ->
   male_comfort r == 0.1 /\
   female_comfort r == 0.1 * 0.9 /\
   blended_reward r
     == male_ratio en * 0.1 + female_ratio en * (0.1 * 0.9) - 0.3 /\
   blended_reward r < 0) /\
  (blended_reward r < 0 <-> new_temp r < 18 \/ 28 < new_temp r).
Proof.
  intros Hs Hp Hf.
  destruct (step_inv _ _ _ _ _ Hs)
    as (delta & _ & _ & _ & Hm & Hw & _ & _ & _ & _ & _ & Hb).
  set (t := new_temp r) in *.
  assert (Hin : 18 <= t <= 28 ->
                blended_reward r
                  == male_ratio en * male_comfort r
                     + female_ratio en * female_comfort r /\
                0.09 <= blended_reward r <= 1).
  { intros Ht. rewrite Hb. cbv zeta.
    assert (E1 : Py.ltb t 18.0 = false) by (apply ltb_ge; lra).
    assert (E2 : Py.ltb 28.0 t = false) by (apply ltb_ge; lra).
    rewrite E1, E2. simpl orb. cbv iota. split; [reflexivity |].
    rewrite Hf, Hm, Hw.
    apply blend_between; [exact Hp | |]; apply comfort_score_bounds. }
  assert (Hout : t < 18 \/ 28 < t ->
                 male_comfort r == 0.1 /\
                 female_comfort r == 0.1 * 0.9 /\
                 blended_reward r
                   == male_ratio en * 0.1 + female_ratio en * (0.1 * 0.9) - 0.3 /\
                 blended_reward r < 0).
  { intros Ht.
    destruct (comfort_outside_band t Ht) as [Em Ew].
    assert (Em' : male_comfort r == 0.1) by (rewrite Hm; exact Em).
    assert (Ew' : female_comfort r == 0.1 * 0.9) by (rewrite Hw, Ew; reflexivity).
    assert (E : Py.ltb t 18.0 || Py.ltb 28.0 t = true).
    { apply orb_true_iff. destruct Ht; [left | right]; apply ltb_lt; lra. }
    assert (Er : blended_reward r
                 == male_ratio en * 0.1 + female_ratio en * (0.1 * 0.9) - 0.3).
    { rewrite Hb. cbv zeta. rewrite E, Em', Ew'. reflexivity. }
    split; [exact Em' |]. split; [exact Ew' |]. split; [exact Er |].
    rewrite Er, Hf. lra. }
  split; [exact Hin |]. split; [exact Hout |].
  split.
  - intros Hneg. destruct (Qlt_le_dec t 18) as [H1 | H1]; [left; exact H1 |].
    destruct (Qlt_le_dec 28 t) as [H2 | H2]; [right; exact H2 |].
    destruct (Hin (conj H1 H2)) as [_ Hr]. lra.
  - intros Ht. apply (Hout Ht).
Qed.

(** One degree up from 28 degrees: the new temperature 29 is outside the
    band and the reward is 0.5 * 0.1 + 0.5 * 0.09 - 0.3 = -0.205. *)
Lemma step_reward_sign_witness :
  exists en' r,
    step (set_current_temp (ASHRAEEnvironment_default 0.5) 28)
      4 calm = inr (en', r) /\
    new_temp r == 29 /\
    blended_reward r == -0.205 /\
    blended_reward r < 0.
Proof.
  destruct (step (set_current_temp (ASHRAEEnvironment_default 0.5) 28) 4 calm)
    as [e | [en' r]] eqn:H; [vm_compute in H; discriminate |].
  exists en', r. split; [reflexivity |].
  assert (Ht : new_temp r == 29).
  { destruct (step_inv _ _ _ _ _ H) as (delta & Hd & Ht & _).
    rewrite Ht. vm_compute in Hd. injection Hd as <-. vm_compute. reflexivity. }
  split; [exact Ht |].
  destruct (step_reward_sign _ _ _ _ _ H
              ltac:(split; vm_compute; discriminate) ltac:(reflexivity))
    as (_ & Hout & _).
  destruct (Hout ltac:(right; rewrite Ht; reflexivity)) as (_ & _ & Er & Hneg).
  split; [rewrite Er; vm_compute; reflexivity | exact Hneg].
Defined.

(** ** Discretization: order and edges *)

Lemma clip_monotone (x y lo hi : Q) :
  x <= y -> Py.clip x lo hi <= Py.clip y lo hi.
Proof.
  intros H. unfold Py.clip.
  destruct (max_cases x lo) as [[H1 E1] | [H1 E1]]; rewrite E1;
    destruct (max_cases y lo) as [[H2 E2] | [H2 E2]]; rewrite E2;
    match goal with
    | |- Py.min ?a hi <= Py.min ?b hi =>
        destruct (min_cases a hi) as [[H3 E3] | [H3 E3]];
        destruct (min_cases b hi) as [[H4 E4] | [H4 E4]];
        rewrite ?E3, ?E4
    end; lra.
Qed.

(** With proper bounds and at least one bin, the index is the floor of the
    mapped temperature. *)
Lemma discretize_state_value (ag : Agent) (t lo hi : Q) :
  lo < hi -> (1 <= state_bins ag)%Z ->
  let m := (Py.clip t lo hi - lo) / (hi - lo) * inject_Z (state_bins ag - 1) in
  discretize_state ag t lo hi = inr (Qfloor m) /\
  0 <= m <= inject_Z (state_bins ag - 1) /\
  (0 <= Qfloor m <= state_bins ag - 1)%Z.
Proof.
  intros Hlt Hbins m.
  assert (Hm : 0 <= m <= inject_Z (state_bins ag - 1)).
  { apply mapped_range; [exact Hlt | apply clip_between; lra | lia]. }
  assert (Hfl : (0 <= Qfloor m <= state_bins ag - 1)%Z).
  { split.
    - change 0%Z with (Qfloor 0). apply Qfloor_resp_le. apply Hm.
    - rewrite <- (Qfloor_Z (state_bins ag - 1)). apply Qfloor_resp_le. apply Hm. }
  split; [| split; assumption].
  unfold discretize_state.
  assert (Hz : Qeq_bool (hi - lo) 0 = false).
  { destruct (Qeq_bool (hi - lo) 0) eqn:E; [| reflexivity].
    apply Qeq_bool_eq in E. lra. }
  rewrite Hz. fold m. rewrite int_floor by apply Hm.
  f_equal. unfold Py.clipZ. lia.
Qed.

(** [discretize_state] keeps the order of temperatures: a warmer
    temperature never gets a lower index.  Every temperature at or below
    [min_temp] gets index 0 and every temperature at or above [max_temp]
    gets the last index. *)
Theorem discretize_state_monotone (ag : Agent) (t1 t2 lo hi : Q) :
  lo < hi -> (1 <= state_bins ag)%Z -> t1 <= t2 ->
  exists i1 i2 : Z,
    discretize_state ag t1 lo hi = inr i1 /\
    discretize_state ag t2 lo hi = inr i2 /\
    (0 <= i1 <= i2)%Z /\ (i2 <= state_bins ag - 1)%Z /\
    (t1 <= lo -> i1 = 0%Z) /\
    (hi <= t2 -> i2 = (state_bins ag - 1)%Z).
Proof.
  intros Hlt Hbins Ht.
  destruct (discretize_state_value ag t1 lo hi Hlt Hbins) as (H1 & Hm1 & Hf1).
  destruct (discretize_state_value ag t2 lo hi Hlt Hbins) as (H2 & Hm2 & Hf2).
  eexists _, _. split; [exact H1 |]. split; [exact H2 |].
  assert (Hz : 0 <= inject_Z (state_bins ag - 1)) by (unfold Qle; simpl; lia).
  assert (Hd : 0 < hi - lo) by lra.
  assert (Hinv : 0 < / (hi - lo)) by (apply Qinv_lt_0_compat; exact Hd).
  split; [split; [apply Hf1 |] |].
  - apply Qfloor_resp_le.
    apply Qmult_le_compat_r; [| exact Hz].
    unfold Qdiv. apply Qmult_le_compat_r; [| lra].
    pose proof (clip_monotone t1 t2 lo hi Ht). lra.
  - split; [apply Hf2 |]. split.
    + intros Hlo.
      assert (Hc : Py.clip t1 lo hi == lo).
      { rewrite clip_clamp by lra.
        destruct (Q.min_spec hi t1) as [[Ha Ea] | [Ha Ea]];
          destruct (Q.max_spec lo (Qmin hi t1)) as [[Hb Eb] | [Hb Eb]];
          rewrite Ea in Hb; rewrite Eb, ?Ea; lra. }
      rewrite Hc.
      assert (E : (lo - lo) / (hi - lo) * inject_Z (state_bins ag - 1) == 0)
        by (field; lra).
      rewrite E. reflexivity.
    + intros Hhi.
      assert (Hc : Py.clip t2 lo hi == hi).
      { rewrite clip_clamp by lra.
        destruct (Q.min_spec hi t2) as [[Ha Ea] | [Ha Ea]];
          destruct (Q.max_spec lo (Qmin hi t2)) as [[Hb Eb] | [Hb Eb]];
          rewrite Ea in Hb; rewrite Eb, ?Ea; lra. }
      rewrite Hc.
      assert (E : (hi - lo) / (hi - lo) * inject_Z (state_bins ag - 1)
                  == inject_Z (state_bins ag - 1)) by (field; lra).
      rewrite E. apply Qfloor_Z.
Qed.

Lemma discretize_state_monotone_witness :
  exists i1 i2 : Z,
    discretize_state (default_agent QLearning) 21 16.0 32.0 = inr i1 /\
    discretize_state (default_agent QLearning) 40 16.0 32.0 = inr i2 /\
    (i1 <= i2)%Z /\ i2 = 99%Z.
Proof.
  destruct (discretize_state_monotone (default_agent QLearning) 21 40 16.0 32.0
              ltac:(reflexivity) ltac:(vm_compute; discriminate)
              ltac:(vm_compute; discriminate))
    as (i1 & i2 & H1 & H2 & Hle & _ & _ & Hhi).
  exists i1, i2. split; [exact H1 |]. split; [exact H2 |].
  split; [lia |]. apply Hhi. vm_compute. discriminate.
Defined.

(** Degenerate bounds.  With [min_temp == max_temp] every call raises
    [ValueError] (the quotient is 0/0); with [min_temp > max_temp] no call
    raises and every temperature gets the last index. *)
Theorem discretize_state_degenerate_bounds (ag : Agent) (t lo hi : Q) :
  (lo == hi -> discretize_state ag t lo hi = inl Py.ValueError) /\
  (hi < lo -> (1 <= state_bins ag)%Z ->
   discretize_state ag t lo hi = inr (state_bins ag - 1)%Z).
Proof.
  split.
  - intros H. unfold discretize_state.
    rewrite (Qeq_eq_bool (hi - lo) 0) by lra. reflexivity.
  - intros H Hb. unfold discretize_state.
    assert (Hz : Qeq_bool (hi - lo) 0 = false).
    { destruct (Qeq_bool (hi - lo) 0) eqn:E; [| reflexivity].
      apply Qeq_bool_eq in E. lra. }
    rewrite Hz.
    assert (Hc : Py.clip t lo hi = hi).
    { unfold Py.clip.
      destruct (max_cases t lo) as [[H1 E1] | [H1 E1]]; rewrite E1;
        unfold Py.min;
        match goal with
        | |- (if Py.ltb hi ?a then _ else _) = _ =>
            assert (E : Py.ltb hi a = true) by (apply ltb_lt; lra);
            rewrite E; reflexivity
        end. }
    rewrite Hc.
    set (m := (hi - lo) / (hi - lo) * inject_Z (state_bins ag - 1)).
    assert (Em : m == inject_Z (state_bins ag - 1)) by (unfold m; field; lra).
    assert (H0 : 0 <= m) by (rewrite Em; unfold Qle; simpl; lia).
    rewrite int_floor by exact H0. rewrite Em, Qfloor_Z.
    f_equal. unfold Py.clipZ. lia.
Qed.

Lemma discretize_state_degenerate_bounds_witness :
  discretize_state (default_agent QLearning) 20 22 22 = inl Py.ValueError /\
  discretize_state (default_agent QLearning) 20 32 16 = inr 99%Z.
Proof.
  destruct (discretize_state_degenerate_bounds (default_agent QLearning) 20 22 22)
    as [H1 _].
  destruct (discretize_state_degenerate_bounds (default_agent QLearning) 20 32 16)
    as [_ H2].
  split; [apply H1; reflexivity |].
  apply H2; [reflexivity | vm_compute; discriminate].
Defined.

(** ** Action selection *)

Lemma argmax_from_spec (ys : list Q) :
  forall (best : Q) (bi i : nat),
    (Py.argmax_from best bi i ys = bi /\ forall y, In y ys -> y <= best) \/
    (exists l v,
        Py.argmax_from best bi i ys = (i + l)%nat /\
        ys !! l = Some v /\ best < v /\
        (forall y, In y ys -> y <= v) /\
        (forall l' y, (l' < l)%nat -> ys !! l' = Some y -> y < v)).
Proof.
  induction ys as [| y ys IH]; intros best bi i.
  - left. split; [reflexivity | intros ? []].
  - cbn [Py.argmax_from].
    destruct (Py.ltb best y) eqn:E; [apply ltb_lt in E | apply ltb_ge in E].
    + right. destruct (IH y i (S i)) as [[Hk Hall] | (l & v & Hk & Hl & Hv & Hall & Hfirst)].
      * exists 0%nat, y. rewrite Hk. split; [lia |]. split; [reflexivity |].
        split; [exact E |]. split.
        -- intros z [<- | Hz]; [apply Qle_refl | apply Hall, Hz].
        -- intros l' z Hl'. lia.
      * exists (S l), v. rewrite Hk. split; [lia |]. split; [exact Hl |].
        split; [lra |]. split.
        -- intros z [<- | Hz]; [lra | apply Hall, Hz].
        -- intros [| l'] z Hl' Hz.
           ++ injection Hz as <-. exact Hv.
           ++ apply (Hfirst l' z); [lia | exact Hz].
    + destruct (IH best bi (S i)) as [[Hk Hall] | (l & v & Hk & Hl & Hv & Hall & Hfirst)].
      * left. split; [exact Hk |].
        intros z [<- | Hz]; [exact E | apply Hall, Hz].
      * right. exists (S l), v. rewrite Hk. split; [lia |]. split; [exact Hl |].
        split; [exact Hv |]. split.
        -- intros z [<- | Hz]; [lra | apply Hall, Hz].
        -- intros [| l'] z Hl' Hz.
           ++ injection Hz as <-. lra.
           ++ apply (Hfirst l' z); [lia | exact Hz].
Qed.

(** [np.argmax] returns the first position of the largest value. *)
Lemma np_argmax_spec (row : list Q) (k : Z) :
  Py.np_argmax row = inr k ->
  exists (n : nat) (v : Q),
    k = Z.of_nat n /\ row !! n = Some v /\
    (forall y, In y row -> y <= v) /\
    (forall n' y, (n' < n)%nat -> row !! n' = Some y -> y < v).
Proof.
  destruct row as [| x xs]; [discriminate |].
  cbn [Py.np_argmax]. intros H. injection H as <-.
  destruct (argmax_from_spec xs x 0 1)
    as [[Hk Hall] | (l & v & Hk & Hl & Hv & Hall & Hfirst)]; rewrite Hk.
  - exists 0%nat, x. split; [reflexivity |]. split; [reflexivity |]. split.
    + intros y [<- | Hy]; [apply Qle_refl | apply Hall, Hy].
    + intros n' y Hn'. lia.
  - exists (S l), v. split; [reflexivity |]. split; [exact Hl |]. split.
    + intros y [<- | Hy]; [lra | apply Hall, Hy].
    + intros [| n'] y Hn' Hy.
      * injection Hy as <-. exact Hv.
      * apply (Hfirst n' y); [lia | exact Hy].
Qed.

(** Greedy selection.  When the draw of [random.random()] is not below
    epsilon (always so during an evaluation, where epsilon is 0 and the
    draw is not negative), [choose_action] ignores the other draw and
    returns the first position of the largest value in the row of the
    state: no entry of the row is larger and every entry before it is
    strictly smaller.  On a row of equal values, as in a fresh table, that
    is action 0. *)
Theorem choose_action_greedy (ag : Agent) (i : nat) (row : list Q) (u : Q)
    (k : Z) :
  epsilon ag <= u ->
  q_table ag !! i = Some row ->
  row <> [] ->
  exists (a : nat) (v : Q),
    choose_action ag (Z.of_nat i) u k = inr (Z.of_nat a) /\
    row !! a = Some v /\
    (forall y, In y row -> y <= v) /\
    (forall a' y, (a' < a)%nat -> row !! a' = Some y -> y < v) /\
    ((forall y, In y row -> y == v) -> a = 0%nat).
Proof.
  intros Hu Hrow Hne. unfold choose_action.
  assert (E : Py.ltb u (epsilon ag) = false) by (apply ltb_ge; exact Hu).
  rewrite E, (getitem_nat _ _ _ Hrow). cbn [Py.bind].
  destruct (Py.np_argmax row) as [e | a] eqn:Ha.
  - destruct row; [congruence | discriminate].
  - destruct (np_argmax_spec row a Ha) as (n & v & -> & Hv & Hall & Hfirst).
    exists n, v. repeat split; try assumption.
    intros Heq. destruct n as [| n]; [reflexivity | exfalso].
    destruct row as [| x xs]; [discriminate |].
    pose proof (Hfirst 0%nat x ltac:(lia) eq_refl) as Hlt.
    pose proof (Heq x (or_introl eq_refl)). lra.
Qed.

Lemma choose_action_greedy_witness :
  exists (a : nat) (v : Q),
    choose_action (set_epsilon (default_agent QLearning) 0.0) 38 0.5 3
      = inr (Z.of_nat a) /\ a = 0%nat.
Proof.
  destruct (choose_action_greedy (set_epsilon (default_agent QLearning) 0.0)
              38 (replicate 5 0.0) 0.5 3
              ltac:(vm_compute; discriminate) ltac:(reflexivity)
              ltac:(discriminate))
    as (a & v & Ha & Hv & _ & _ & Hz).
  exists a, v. split; [exact Ha |]. apply Hz.
  intros y Hy. apply list_elem_of_In, elem_of_replicate in Hy.
  destruct Hy as [-> _].
  destruct a as [| [| [| [| [| a]]]]]; try (injection Hv as <-; reflexivity).
  discriminate.
Defined.

(** Exploration and failures of [choose_action]: a draw below epsilon
    returns the random action, whatever the state, unless the agent has no
    action ([ValueError]); otherwise a state outside the table raises
    [IndexError] and a state whose row is empty raises [ValueError]. *)
Theorem choose_action_explore_and_errors (ag : Agent) (state : Z) (u : Q)
    (k : Z) :
  (u < epsilon ag -> (1 <= action_space_size ag)%Z ->
   choose_action ag state u k = inr k) /\
  (u < epsilon ag -> (action_space_size ag <= 0)%Z ->
   choose_action ag state u k = inl Py.ValueError) /\
  (epsilon ag <= u ->
   (state < - Z.of_nat (length (q_table ag))
    \/ Z.of_nat (length (q_table ag)) <= state)%Z ->
   choose_action ag state u k = inl Py.IndexError) /\
  (epsilon ag <= u ->
   Py.getitem (q_table ag) state = inr [] ->
   choose_action ag state u k = inl Py.ValueError).
Proof.
  unfold choose_action. repeat split.
  - intros Hu Hn. apply ltb_lt in Hu. rewrite Hu.
    destruct (Z.ltb_spec (action_space_size ag - 1) 0); [lia | reflexivity].
  - intros Hu Hn. apply ltb_lt in Hu. rewrite Hu.
    destruct (Z.ltb_spec (action_space_size ag - 1) 0); [reflexivity | lia].
  - intros Hu Hs. apply ltb_ge in Hu. rewrite Hu.
    rewrite getitem_out_of_range by exact Hs. reflexivity.
  - intros Hu Hs. apply ltb_ge in Hu. rewrite Hu, Hs. reflexivity.
Qed.

Lemma choose_action_explore_and_errors_witness :
  choose_action (default_agent QLearning) 38 0.1 3 = inr 3%Z /\
  choose_action (default_agent QLearning) 100 0.5 3 = inl Py.IndexError.
Proof.
  destruct (choose_action_explore_and_errors (default_agent QLearning) 38 0.1 3)
    as (H1 & _).
  destruct (choose_action_explore_and_errors (default_agent QLearning) 100 0.5 3)
    as (_ & _ & H3 & _).
  split.
  - apply H1; [reflexivity | vm_compute; discriminate].
  - apply H3; [vm_compute; discriminate | right; vm_compute; discriminate].
Defined.

(** ** The table under updates *)

Lemma locate_cases {A} (l : list A) (i : Z) :
  ((i < - Z.of_nat (length l) \/ Z.of_nat (length l) <= i)%Z /\
   Py.locate l i = inl Py.IndexError) \/
  ((- Z.of_nat (length l) <= i < Z.of_nat (length l))%Z /\
   exists k x, Py.locate l i = inr (k, x) /\ l !! k = Some x).
Proof.
  unfold Py.locate, Py.index.
  destruct (Z.leb_spec 0 i); destruct (Z.ltb_spec i (Z.of_nat (length l)));
    destruct (Z.leb_spec (- Z.of_nat (length l)) i);
    destruct (Z.ltb_spec i 0); cbn [andb]; try lia;
    try (left; split; [lia | reflexivity]); right; (split; [lia |]).
  - destruct (lookup_lt_is_Some_2 l (Z.to_nat i) ltac:(lia)) as [x Hx].
    exists (Z.to_nat i), x. rewrite Hx. auto.
  - destruct (lookup_lt_is_Some_2 l (Z.to_nat (Z.of_nat (length l) + i))
                ltac:(lia)) as [x Hx].
    eexists _, x. rewrite Hx. auto.
Qed.

(** What a successful update read and wrote. *)
Lemma learn_inv ag state action reward next_state ag' :
  learn ag state action reward next_state = inr ag' ->
  exists (i j : nat) row old next_row next_max,
    q_table ag !! i = Some row /\ row !! j = Some old /\
    In next_row (q_table ag) /\ Py.np_max next_row = inr next_max /\
    q_table ag' =
      <[i := <[j := old + alpha ag * (reward + gamma ag * next_max - old)]> row]>
        (q_table ag) /\
    state_bins ag' = state_bins ag /\
    action_space_size ag' = action_space_size ag /\
    alpha ag' = alpha ag /\ gamma ag' = gamma ag /\
    agent_class ag' = agent_class ag /\
    total_updates ag' = (total_updates ag + 1)%Z.
Proof.
  unfold learn.
  destruct (locate_cases (q_table ag) state) as [[_ E] | [_ (i & row & E & Hrow)]];
    rewrite E; [discriminate |]. cbn [Py.bind].
  destruct (locate_cases row action) as [[_ E'] | [_ (j & old & E' & Hold)]];
    rewrite E'; [discriminate |]. cbn [Py.bind].
  unfold Py.getitem.
  destruct (locate_cases (q_table ag) next_state)
    as [[_ E''] | [_ (i' & next_row & E'' & Hnext)]];
    rewrite E''; [discriminate |]. cbn [Py.bind].
  destruct (Py.np_max next_row) as [e | next_max] eqn:Hmax; [discriminate |].
  cbn [Py.bind]. intros H. injection H as <-.
  exists i, j, row, old, next_row, next_max. cbn.
  repeat split; try assumption.
  apply list_elem_of_In, list_elem_of_lookup. exists i'. exact Hnext.
Qed.

(** When [learn] returns and when it raises.  On a table of [b] rows of
    [n] values each, [learn] returns exactly when the state and the next
    state are Python indices of the rows (from [-b] to [b - 1]) and the
    action is a Python index of a row (from [-n] to [n - 1]); in every
    other case it raises [IndexError]. *)
Theorem learn_returns_iff (ag : Agent) (state action : Z) (reward : Q)
    (next_state : Z) (b n : nat) :
  length (q_table ag) = b ->
  Forall (fun row => length row = n) (q_table ag) ->
  let in_range :=
    (- Z.of_nat b <= state < Z.of_nat b /\
     - Z.of_nat n <= action < Z.of_nat n /\
     - Z.of_nat b <= next_state < Z.of_nat b)%Z in
  (in_range ->
   exists ag', learn ag state action reward next_state = inr ag') /\
  (~ in_range ->
   learn ag state action reward next_state = inl Py.IndexError).
Proof.
  intros Hb Hn in_range. subst in_range. rewrite Forall_forall in Hn.
  unfold learn, Py.getitem.
  destruct (locate_cases (q_table ag) state)
    as [[Hs E] | [Hs (i & row & E & Hrow)]]; rewrite E, Hb in *; cbn [Py.bind].
  { split; [intros; lia | reflexivity]. }
  assert (Hlen : length row = n).
  { apply Hn. apply list_elem_of_lookup. exists i. exact Hrow. }
  destruct (locate_cases row action)
    as [[Ha E'] | [Ha (j & old & E' & Hold)]]; rewrite E', Hlen in *;
    cbn [Py.bind].
  { split; [intros; lia | reflexivity]. }
  destruct (locate_cases (q_table ag) next_state)
    as [[Hx E''] | [Hx (i' & next_row & E'' & Hnext)]]; rewrite E'', Hb in *;
    cbn [Py.bind].
  { split; [intros; lia | reflexivity]. }
  assert (Hlen' : length next_row = n).
  { apply Hn. apply list_elem_of_lookup. exists i'. exact Hnext. }
  destruct next_row as [| x xs]; [simpl in Hlen'; lia |].
  cbn [Py.np_max Py.bind]. split; [intros _; eexists; reflexivity |].
  intros Hnot. exfalso. apply Hnot. lia.
Qed.

Lemma learn_returns_iff_witness :
  length (q_table (default_agent QLearning)) = 100%nat /\
  Forall (fun row => length row = 5%nat) (q_table (default_agent QLearning)) /\
  (exists ag', learn (default_agent QLearning) (-1) 4 1 99 = inr ag') /\
  learn (default_agent QLearning) 100 0 1 0 = inl Py.IndexError.
Proof.
  assert (Hb : length (q_table (default_agent QLearning)) = 100%nat)
    by reflexivity.
  assert (Hn : Forall (fun row => length row = 5%nat)
                 (q_table (default_agent QLearning))).
  { apply Forall_forall. intros row Hr.
    apply elem_of_replicate in Hr. destruct Hr as [-> _]. reflexivity. }
  split; [exact Hb |]. split; [exact Hn |]. split.
  - apply (learn_returns_iff (default_agent QLearning) (-1) 4 1 99 100 5 Hb Hn).
    lia.
  - apply (learn_returns_iff (default_agent QLearning) 100 0 1 0 100 5 Hb Hn).
    lia.
Defined.

(** The shape of the table is fixed at construction.  Every agent that a
    constructed agent becomes through updates has a table of [state_bins]
    rows of [action_space_size] values, the same bin and action counts,
    learning rate, discount and class, and a counter that tells the number
    of updates made (never negative). *)
Theorem table_shape_invariant (cls : AgentClass) (bins actions : Z)
    (al ga eps dec mineps : Q) (ag0 ag : Agent) :
  new_agent cls bins actions al ga eps dec mineps = inr ag0 ->
  trained_from ag0 ag ->
  length (q_table ag) = Z.to_nat bins /\
  Forall (fun row => length row = Z.to_nat actions) (q_table ag) /\
  state_bins ag = bins /\ action_space_size ag = actions /\
  alpha ag = al /\ gamma ag = ga /\ agent_class ag = cls /\
  (0 <= total_updates ag)%Z.
Proof.
  intros Hnew Ht. unfold new_agent in Hnew.
  destruct (_ || _); [discriminate |]. injection Hnew as <-.
  induction Ht as [| ag s a r s' ag' Ht IH Hl].
  - cbn. rewrite length_replicate. repeat split; try lia.
    apply Forall_forall. intros row Hr.
    apply elem_of_replicate in Hr. destruct Hr as [-> _].
    apply length_replicate.
  - destruct IH as (Hb & Hn & Hsb & Has & Hal & Hga & Hcl & Hc).
    destruct (learn_inv _ _ _ _ _ _ Hl)
      as (i & j & row & old & next_row & m & Hrow & Hold & _ & _ & Htbl
          & Hsb' & Has' & Hal' & Hga' & Hcl' & Hc').
    rewrite Htbl, length_insert. repeat split; try congruence; try lia.
    apply Forall_insert; [exact Hn |].
    rewrite length_insert. rewrite Forall_forall in Hn. apply Hn.
    apply list_elem_of_lookup. exists i. exact Hrow.
Qed.

Lemma table_shape_invariant_witness :
  exists ag,
    learn (default_agent QLearning) 38 2 1 39 = inr ag /\
    length (q_table ag) = 100%nat /\ total_updates ag = 1%Z.
Proof.
  destruct (learn (default_agent QLearning) 38 2 1 39) as [e | ag] eqn:Hl;
    [vm_compute in Hl; discriminate |].
  exists ag. split; [reflexivity |].
  assert (Hnew : new_agent QLearning 100 5 0.1 0.9 0.3 0.995 0.01
                 = inr (default_agent QLearning)) by reflexivity.
  assert (Ht : trained_from (default_agent QLearning) ag)
    by (eapply trained_learn; [apply trained_init | exact Hl]).
  destruct (table_shape_invariant _ _ _ _ _ _ _ _ _ _ Hnew Ht) as (Hb & _).
  split; [exact Hb |].
  destruct (learn_epsilon _ _ _ _ _ _ Hl) as (Hc & _). exact Hc.
Defined.

(** ** Bounded values *)

Lemma learn_bounds_step (ag : Agent) (state action : Z) (reward : Q)
    (next_state : Z) (ag' : Agent) (A B : Q) :
  learn ag state action reward next_state = inr ag' ->
  0 <= alpha ag <= 1 -> 0 <= gamma ag ->
  A <= reward + gamma ag * A -> reward + gamma ag * B <= B ->
  Forall (Forall (fun x => A <= x <= B)) (q_table ag) ->
  Forall (Forall (fun x => A <= x <= B)) (q_table ag').
Proof.
  intros Hl Hal Hga HA HB Hall.
  destruct (learn_inv _ _ _ _ _ _ Hl)
    as (i & j & row & old & next_row & m & Hrow & Hold & Hnext & Hmax & Htbl & _).
  rewrite Htbl.
  assert (Hr : Forall (fun x => A <= x <= B) row).
  { rewrite Forall_forall in Hall. apply Hall.
    apply list_elem_of_lookup. exists i. exact Hrow. }
  assert (Ho : A <= old <= B).
  { rewrite Forall_forall in Hr. apply Hr.
    apply list_elem_of_lookup. exists j. exact Hold. }
  assert (Hm : A <= m <= B).
  { destruct (np_max_spec _ _ Hmax) as [Hin _].
    rewrite Forall_forall in Hall.
    pose proof (Hall next_row ltac:(apply list_elem_of_In; exact Hnext)) as Hn.
    rewrite Forall_forall in Hn. apply Hn. apply list_elem_of_In. exact Hin. }
  apply Forall_insert; [exact Hall |].
  apply Forall_insert; [exact Hr |].
  assert (Ht : A <= reward + gamma ag * m <= B).
  { assert (0 <= gamma ag * (m - A)) by (apply Qmult_le_0_compat; lra).
    assert (0 <= gamma ag * (B - m)) by (apply Qmult_le_0_compat; lra).
    assert (E1 : gamma ag * (m - A) == gamma ag * m - gamma ag * A) by ring.
    assert (E2 : gamma ag * (B - m) == gamma ag * B - gamma ag * m) by ring.
    split; lra. }
  pose proof (blend_between (alpha ag) (reward + gamma ag * m) old A B
                Hal Ht Ho) as Hbl.
  assert (E : old + alpha ag * (reward + gamma ag * m - old)
              == alpha ag * (reward + gamma ag * m) + (1 - alpha ag) * old)
    by ring.
  rewrite E. exact Hbl.
Qed.

(** Updates keep the table within bounds.  Let every value of the table
    lie in [[A, B]], let [0 <= alpha <= 1] and [0 <= gamma], and let the
    reward satisfy [A <= r + gamma * A] and [r + gamma * B <= B] (that is,
    [(1 - gamma) * A <= r <= (1 - gamma) * B]).  Then after any number of
    updates with that reward every value of the table still lies in
    [[A, B]]. *)
Theorem learn_keeps_bounds (n : nat) (ag : Agent) (state action : Z)
    (reward : Q) (next_state : Z) (ag' : Agent) (A B : Q) :
  learn_n n ag state action reward next_state = inr ag' ->
  0 <= alpha ag <= 1 -> 0 <= gamma ag ->
  A <= reward + gamma ag * A -> reward + gamma ag * B <= B ->
  Forall (Forall (fun x => A <= x <= B)) (q_table ag) ->
  Forall (Forall (fun x => A <= x <= B)) (q_table ag').
Proof.
  revert ag. induction n as [| n IH]; intros ag Hl Hal Hga HA HB Hall.
  - injection Hl as <-. exact Hall.
  - cbn [learn_n] in Hl.
    destruct (learn ag state action reward next_state) as [e | ag1] eqn:H1;
      [discriminate |].
    cbn [Py.bind] in Hl.
    destruct (learn_inv _ _ _ _ _ _ H1)
      as (_ & _ & _ & _ & _ & _ & _ & _ & _ & _ & _ & _ & _ & Ha & Hg & _).
    apply (IH ag1 Hl); rewrite ?Ha, ?Hg; try assumption.
    eapply learn_bounds_step; eassumption.
Qed.

Lemma learn_keeps_bounds_witness :
  exists ag,
    learn_n 2 (default_agent QLearning) 38 2 1 39 = inr ag /\
    Forall (Forall (fun x => 0 <= x <= 10)) (q_table ag).
Proof.
  destruct (learn_n 2 (default_agent QLearning) 38 2 1 39) as [e | ag] eqn:Hl;
    [vm_compute in Hl; discriminate |].
  exists ag. split; [reflexivity |].
  apply (learn_keeps_bounds 2 (default_agent QLearning) 38 2 1 39 ag 0 10 Hl).
  - split; vm_compute; discriminate.
  - vm_compute; discriminate.
  - vm_compute; discriminate.
  - vm_compute; discriminate.
  - apply Forall_forall. intros row Hr.
    apply elem_of_replicate in Hr. destruct Hr as [-> _].
    apply Forall_forall. intros x Hx.
    apply elem_of_replicate in Hx. destruct Hx as [-> _].
    split; vm_compute; discriminate.
Defined.

(** The values a biased agent learns are bounded over a whole training
    run.  For an agent of class [Biased] with [0 <= alpha <= 1] and
    [0 <= gamma < 1] whose table lies in [[0, 1 / (1 - gamma)]] (a fresh
    table does), every value of the table still lies in that interval
    after [train_agent], for all draws, episode and step counts, whether
    the run returns or is ended by an exception. *)
Theorem biased_training_bounded (o : Oracle) (episodes steps_per_episode : nat)
    (st : Store) (g : string) :
  agent_class (agent st) = Biased g ->
  0 <= alpha (agent st) <= 1 ->
  0 <= gamma (agent st) < 1 ->
  Forall (Forall (fun x => 0 <= x <= 1 / (1 - gamma (agent st))))
    (q_table (agent st)) ->
  Forall (Forall (fun x => 0 <= x <= 1 / (1 - gamma (agent st))))
    (q_table (agent (fst (train_agent o episodes steps_per_episode st)))).
Proof.
  intros Hcls Hal Hga Hall.
  set (B := 1 / (1 - gamma (agent st))).
  set (P := fun st' : Store =>
              agent_class (agent st') = Biased g /\
              alpha (agent st') = alpha (agent st) /\
              gamma (agent st') = gamma (agent st) /\
              Forall (Forall (fun x => 0 <= x <= B)) (q_table (agent st'))).
  assert (Hstep : forall d ep st', P st' -> P (fst (train_step d ep st'))).
  { intros d ep st' (Hc & Ha & Hg & Hb).
    unfold train_step, Run.bind, Run.read, Run.on_env, Run.on_agent, Run.ret.
    destruct (choose_action _ _ _ _) as [e | action]; [repeat split; assumption |].
    destruct (step _ _ _) as [e | [en r]] eqn:Hs; [repeat split; assumption |].
    cbn [agent env].
    destruct (discretize_state_default _ _) as [e | next_state];
      [repeat split; assumption |].
    rewrite agent_learning_is_learn, Hc.
    destruct (learn _ _ _ _ _) as [e | ag'] eqn:Hl; cbn [fst agent];
      [repeat split; assumption |].
    destruct (learn_inv _ _ _ _ _ _ Hl)
      as (_ & _ & _ & _ & _ & _ & _ & _ & _ & _ & _ & _ & _ & Ha' & Hg' & Hc' & _).
    unfold P. cbn [agent].
    split; [congruence |]. split; [congruence |]. split; [congruence |].
    destruct (step_inv _ _ _ _ _ Hs) as (_ & _ & _ & _ & Hm & Hw & _).
    assert (Hr : 0 <= (if String.eqb g "male" then male_comfort r
                       else female_comfort r) <= 1).
    { destruct (String.eqb g "male"); [rewrite Hm | rewrite Hw];
        match goal with
        | |- _ <= calculate_thermal_comfort_score ?t ?l <= _ =>
            destruct (comfort_score_bounds t l) as [? ?]; split; lra
        end. }
    assert (EB : gamma (agent st') * B == B - 1).
    { rewrite Hg. unfold B. field. lra. }
    eapply learn_bounds_step; [exact Hl | | | | | exact Hb].
    - rewrite Ha. exact Hal.
    - rewrite Hg. lra.
    - lra.
    - lra. }
  assert (Hepi : forall i m st', P st' ->
                   P (fst (train_episode o steps_per_episode i m st'))).
  { intros i m st' HP. unfold train_episode, Run.bind.
    pose proof (episode_start_agent o i st') as H0.
    destruct (episode_start o i st') as [st0 [e | s]]; cbn [fst] in *;
      [unfold P in *; rewrite H0; exact HP |].
    assert (HP0 : P st0) by (unfold P in *; rewrite H0; exact HP).
    match goal with
    | |- context [Run.for_range ?body ?a ?b ?c ?d] =>
        pose proof (for_range_preserves P body
                      (fun k acc s' H => Hstep _ acc s' H) b a c d HP0) as H1;
        destruct (Run.for_range body a b c d) as [st1 [e | ep]]
    end; cbn [fst] in *; [exact H1 |].
    destruct steps_per_episode; exact H1. }
  assert (HP : P st) by (unfold P; auto).
  pose proof (for_range_preserves P (train_episode o steps_per_episode)
                Hepi episodes 0%nat
                {| rewards := []; male_comforts := []; female_comforts := [];
                   fairness_gaps := []; temperatures := [] |} st HP) as Hfin.
  destruct Hfin as (_ & _ & _ & Hb). exact Hb.
Qed.

Lemma biased_training_bounded_witness :
  let st := {| agent := four_bins; env := ASHRAEEnvironment_default 1 |} in
  Forall (Forall (fun x => 0 <= x <= 1 / (1 - gamma four_bins)))
    (q_table (agent (fst (train_agent steady 3 7 st)))).
Proof.
  intros st.
  apply (biased_training_bounded steady 3 7 st "male").
  - reflexivity.
  - split; vm_compute; discriminate.
  - split; [vm_compute; discriminate | reflexivity].
  - apply Forall_forall. intros row Hr.
    apply elem_of_replicate in Hr. destruct Hr as [-> _].
    apply Forall_forall. intros x Hx.
    apply elem_of_replicate in Hx. destruct Hx as [-> _].
    split; vm_compute; discriminate.
Defined.

(** ** The fairness reward *)

(** The fairness reward never exceeds the mean comfort, equals it when the
    two comforts are equal, and does not depend on which group is which.
    With the default weight 0.5 it is the comfort of the worse-off group.
    For comforts in [0, 1] and a weight [w >= 0] it lies in [-w, 1]. *)
Theorem fairness_reward_properties (w c1 c2 : Q) :
  (0 <= w ->
   calculate_fairness_reward w c1 c2 <= (c1 + c2) / 2) /\
  (c1 == c2 -> calculate_fairness_reward w c1 c2 == c1) /\
  calculate_fairness_reward w c1 c2 == calculate_fairness_reward w c2 c1 /\
  calculate_fairness_reward 0.5 c1 c2 == Qmin c1 c2 /\
  (0 <= w -> 0 <= c1 <= 1 -> 0 <= c2 <= 1 ->
   - w <= calculate_fairness_reward w c1 c2 <= 1).
Proof.
  unfold calculate_fairness_reward.
  pose proof (Qabs_nonneg (c1 - c2)) as H0.
  assert (Eh : (c1 + c2) / 2 == (1 # 2) * (c1 + c2)) by field.
  split; [| split; [| split; [| split]]]; rewrite ?Eh.
  - intros Hw.
    assert (0 <= w * Qabs (c1 - c2)) by (apply Qmult_le_0_compat; assumption).
    lra.
  - intros Heq.
    assert (E : c1 - c2 == 0) by lra. rewrite E.
    change (Qabs 0) with 0. lra.
  - rewrite (Qabs_Qminus c1 c2). field.
  - destruct (Qabs_cases (c1 - c2)) as [[Hs Ha] | [Hs Ha]];
      destruct (Q.min_spec c1 c2) as [[Hm Em] | [Hm Em]];
      rewrite Ha, Em; lra.
  - intros Hw H1 H2.
    assert (Ha : Qabs (c1 - c2) <= 1)
      by (destruct (Qabs_cases (c1 - c2)) as [[? Ha] | [? Ha]]; rewrite Ha; lra).
    assert (0 <= w * Qabs (c1 - c2)) by (apply Qmult_le_0_compat; assumption).
    assert (0 <= w * (1 - Qabs (c1 - c2)))
      by (apply Qmult_le_0_compat; lra).
    assert (E : w * (1 - Qabs (c1 - c2)) == w - w * Qabs (c1 - c2)) by ring.
    split; lra.
Qed.

Lemma fairness_reward_properties_witness :
  0 <= 0.5 /\ 0 <= 1 <= 1 /\ 0 <= 0.36 <= 1 /\
  - 0.5 <= calculate_fairness_reward 0.5 1 0.36 <= 1.
Proof.
  assert (H1 : 0 <= 0.5) by lra.
  assert (H2 : 0 <= 1 <= 1) by lra.
  assert (H3 : 0 <= 0.36 <= 1) by lra.
  split; [exact H1 |]. split; [exact H2 |]. split; [exact H3 |].
  destruct (fairness_reward_properties 0.5 1 0.36) as (_ & _ & _ & _ & H).
  exact (H H1 H2 H3).
Defined.

(** ** Loops that return *)

(** Induction over a loop that returned: an invariant that holds at the
    start and that every returning iteration carries from [k] to [k + 1]
    holds with [count] at the end. *)
Lemma for_range_ok {L} (body : nat -> L -> Run.M L) :
  forall (count start : nat) (I : nat -> L -> Store -> Prop) acc st st' acc',
    Run.for_range body start count acc st = (st', inr acc') ->
    I 0%nat acc st ->
    (forall k a s s' a',
        (k < count)%nat -> I k a s ->
        body (start + k)%nat a s = (s', inr a') -> I (S k) a' s') ->
    I count acc' st'.
Proof.
  induction count as [| count IH]; intros start I acc st st' acc' H H0 Hstep.
  - cbn in H. unfold Run.ret in H. injection H as <- <-. exact H0.
  - cbn [Run.for_range] in H. unfold Run.bind in H.
    destruct (body start acc st) as [st1 [e | a1]] eqn:Hb; [discriminate |].
    apply (IH (S start) (fun k => I (S k)) a1 st1 st' acc' H).
    + apply (Hstep 0%nat acc st st1 a1); [lia | exact H0 |].
      rewrite Nat.add_0_r. exact Hb.
    + intros k a s s' a' Hk HI Hbody.
      apply (Hstep (S k) a s s' a'); [lia | exact HI |].
      rewrite Nat.add_succ_r. exact Hbody.
Qed.

Lemma discretize_state_default_returns (ag : Agent) (t : Q) :
  exists s, discretize_state_default ag t = inr s.
Proof.
  unfold discretize_state_default, discretize_state.
  change (Qeq_bool (32.0 - 16.0) 0) with false. eexists. reflexivity.
Qed.

Lemma set_current_temp_twice en a b :
  set_current_temp (set_current_temp en a) b = set_current_temp en b.
Proof. reflexivity. Qed.



Lemma fold_sum_bounds (l : list Q) (a b : Q) :
  Forall (fun x => a <= x <= b) l ->
  forall acc,
    acc + a * inject_Z (Z.of_nat (length l)) <= fold_left Qplus l acc /\
    fold_left Qplus l acc <= acc + b * inject_Z (Z.of_nat (length l)).
Proof.
  induction 1 as [| x l [Hx1 Hx2] _ IH]; intros acc.
  - cbn [fold_left length]. change (inject_Z (Z.of_nat 0)) with 0.
    split; lra.
  - cbn [fold_left length]. destruct (IH (acc + x)) as [H1 H2].
    rewrite Nat2Z.inj_succ. unfold Z.succ. rewrite inject_Z_plus.
    change (inject_Z 1) with 1.
    assert (E1 : a * (inject_Z (Z.of_nat (length l)) + 1)
                 == a * inject_Z (Z.of_nat (length l)) + a) by ring.
    assert (E2 : b * (inject_Z (Z.of_nat (length l)) + 1)
                 == b * inject_Z (Z.of_nat (length l)) + b) by ring.
    split; lra.
Qed.

(** The mean of a non-empty list lies between any bounds of its values. *)
Lemma np_mean_between (l : list Q) (a b : Q) :
  l <> [] -> Forall (fun x => a <= x <= b) l -> a <= np_mean l <= b.
Proof.
  intros Hne Hall. unfold np_mean.
  destruct (fold_sum_bounds l a b Hall 0) as [H1 H2].
  assert (Hn : 0 < inject_Z (Z.of_nat (length l))).
  { destruct l; [congruence |]. unfold Qlt. simpl. lia. }
  split.
  - apply Qle_shift_div_l; [exact Hn | lra].
  - apply Qle_shift_div_r; [exact Hn | lra].
Qed.

Lemma div_between (x a b n : Q) :
  0 < n -> a * n <= x <= b * n -> a <= x / n <= b.
Proof.
  intros Hn [H1 H2]. split.
  - apply Qle_shift_div_l; assumption.
  - apply Qle_shift_div_r; assumption.
Qed.

(** ** The training loop *)








(** Empty runs.  With no episode, [train_agent] returns at once, with
    empty metrics and the store untouched.  With episodes but no step per
    episode, it raises [ZeroDivisionError] at the end of the first episode:
    the environment has been reset once, the agent is untouched and no
    metrics are returned. *)
Theorem train_agent_zero_counts (o : Oracle) (n : nat) (st : Store) :
  train_agent o 0 n st =
    (st, inr {| rewards := []; male_comforts := []; female_comforts := [];
                fairness_gaps := []; temperatures := [] |}) /\
  train_agent o (S n) 0 st =
    ({| agent := agent st;
        env := set_current_temp (env st) (reset_draw o 0) |},
     inl Py.ZeroDivisionError).
Proof.
  split; [reflexivity |].
  unfold train_agent. cbn [Run.for_range]. unfold Run.bind at 1.
  unfold train_episode, Run.bind, episode_start, Run.bind, Run.on_env,
    Run.read, reset. cbn [agent env].
  destruct (discretize_state_default_returns (agent st) (reset_draw o 0))
    as [s Hs].
  rewrite Hs. reflexivity.
Qed.

(** ** The log of an evaluation *)

Lemma sensation_vote_bounds (t : Q) (g : string) (n : Q) :
  (-3 <= calculate_thermal_sensation_vote t g n <= 3)%Z.
Proof. unfold calculate_thermal_sensation_vote, Py.clipZ. lia. Qed.

Lemma record_step_well_formed m en action d en' r :
  log_well_formed m ->
  step en action d = inr (en', r) ->
  min_temp en = 16.0 -> max_temp en = 32.0 ->
  log_well_formed (record_step m r) /\
  length (all_temperatures (record_step m r))
    = S (length (all_temperatures m)) /\
  min_temp en' = 16.0 /\ max_temp en' = 32.0.
Proof.
  intros (H1 & H2 & H3 & H4 & H5 & H6 & H7 & H8 & H9) Hs Hlo Hhi.
  destruct (step_inv _ _ _ _ _ Hs)
    as (delta & _ & Hclip & He & Hmc & Hfc & Hmt & Hft & Hmp & Hfp & _).
  assert (Hrange : 16 <= new_temp r <= 32).
  { rewrite Hclip, Hlo, Hhi.
    pose proof (clip_between (current_temp en + delta + noise d) 16.0 32.0
                  ltac:(vm_compute; discriminate)). lra. }
  unfold log_well_formed, record_step.
  cbn [all_temperatures all_male_comforts all_female_comforts male_tsvs
       female_tsvs male_preferences female_preferences].
  rewrite !map_app, !length_app. cbn [map length].
  split; [| split; [rewrite Nat.add_1_r; reflexivity
                   | rewrite He; split; assumption]].
  split; [rewrite H1, Hmc; reflexivity |].
  split; [rewrite H2, Hfc; reflexivity |].
  split; [rewrite H3, Hmp; reflexivity |].
  split; [rewrite H4, Hfp; reflexivity |].
  split; [lia |]. split; [lia |].
  split; [apply Forall_app; split; [exact H7 |]; repeat constructor;
          rewrite Hmt;
          destruct (sensation_vote_bounds (new_temp r) "male" (male_tsv_noise d));
          lia |].
  split; [apply Forall_app; split; [exact H8 |]; repeat constructor;
          rewrite Hft;
          destruct (sensation_vote_bounds (new_temp r) "female"
                      (female_tsv_noise d)); lia |].
  apply Forall_app. split; [exact H9 |]. repeat constructor; apply Hrange.
Qed.

Lemma eval_episode_ok o steps i m st st' m' :
  eval_episode o steps i m st = (st', inr m') ->
  log_well_formed m ->
  min_temp (env st) = 16.0 -> max_temp (env st) = 32.0 ->
  log_well_formed m' /\
  length (all_temperatures m') = (length (all_temperatures m) + steps)%nat /\
  min_temp (env st') = 16.0 /\ max_temp (env st') = 32.0.
Proof.
  unfold eval_episode, Run.bind. intros H Hm Hlo Hhi.
  destruct (episode_start o i st) as [st0 [e | s]] eqn:Hs0; [discriminate |].
  destruct (episode_start_inv _ _ _ _ _ Hs0) as (_ & _ & Hen0).
  destruct (Run.for_range _ _ _ _ _) as [st1 [e | loc]] eqn:Hloop;
    [discriminate |].
  unfold Run.ret in H. injection H as <- <-.
  set (J := fun (k : nat) (loc : Z * AllMetrics) (s1 : Store) =>
              log_well_formed (snd loc) /\
              length (all_temperatures (snd loc))
                = (length (all_temperatures m) + k)%nat /\
              min_temp (env s1) = 16.0 /\ max_temp (env s1) = 32.0).
  apply (for_range_ok _ steps 0%nat J _ _ _ _ Hloop).
  - unfold J. cbn [snd]. rewrite Hen0. cbn [min_temp max_temp set_current_temp].
    repeat split; try assumption; try apply Hm. lia.
  - intros k a s1 s2 a' Hk (Hw & Hl & Hlo1 & Hhi1) Hb.
    destruct (eval_step_inv _ _ _ _ _ Hb)
      as (action & r & ns & _ & Hst & _ & _ & ->).
    destruct (record_step_well_formed _ _ _ _ _ _ Hw Hst Hlo1 Hhi1)
      as (Hw' & Hl' & Hlo' & Hhi').
    unfold J. cbn [snd]. repeat split; try assumption; try apply Hw'. lia.
Qed.

Lemma evaluate_returns_log ag male_ratio episodes steps o m :
  snd (evaluate_agent_comprehensive ag male_ratio episodes steps o) = inr m ->
  log_well_formed m /\
  length (all_temperatures m) = (episodes * steps)%nat.
Proof.
  unfold evaluate_agent_comprehensive. rewrite evaluate_run_unfold.
  cbn [agent env].
  destruct (Run.for_range _ _ _ _ _) as [st1 [e | m1]] eqn:Hloop;
    cbn [snd]; [discriminate |].
  intros H. injection H as ->.
  set (K := fun (k : nat) (m : AllMetrics) (s : Store) =>
              log_well_formed m /\
              length (all_temperatures m) = (k * steps)%nat /\
              min_temp (env s) = 16.0 /\ max_temp (env s) = 32.0).
  assert (HK : K episodes m st1).
  { apply (for_range_ok _ episodes 0%nat K _ _ _ _ Hloop).
    - unfold K, log_well_formed. cbn. repeat split; constructor.
    - intros k a s1 s2 a' Hk (Hw & Hl & Hlo & Hhi) Hb.
      destruct (eval_episode_ok _ _ _ _ _ _ _ Hb Hw Hlo Hhi)
        as (Hw' & Hl' & Hlo' & Hhi').
      unfold K. repeat split; try assumption; try apply Hw'. lia. }
  destruct HK as (Hw & Hl & _). split; assumption.
Qed.

(** The log of an evaluation that returns has one row per step,
    [episodes * steps_per_episode] rows, in each of its seven columns.
    The comfort and preference columns are functions of the temperature
    column (the score and the signal of that temperature), the votes are
    between -3 and 3 and the temperatures between 16 and 32. *)
Theorem evaluation_log (ag : Agent) (male_ratio : Q)
    (episodes steps_per_episode : nat) (o : Oracle) (m : AllMetrics) :
  snd (evaluate_agent_comprehensive ag male_ratio episodes steps_per_episode o)
    = inr m ->
  log_well_formed m /\
  length (all_temperatures m) = (episodes * steps_per_episode)%nat /\
  length (all_male_comforts m) = (episodes * steps_per_episode)%nat /\
  length (all_female_comforts m) = (episodes * steps_per_episode)%nat /\
  length (male_tsvs m) = (episodes * steps_per_episode)%nat /\
  length (female_tsvs m) = (episodes * steps_per_episode)%nat /\
  length (male_preferences m) = (episodes * steps_per_episode)%nat /\
  length (female_preferences m) = (episodes * steps_per_episode)%nat.
Proof.
  intros H. destruct (evaluate_returns_log _ _ _ _ _ _ H) as [Hw Hl].
  split; [exact Hw |]. split; [exact Hl |].
  destruct Hw as (H1 & H2 & H3 & H4 & H5 & H6 & _).
  rewrite H1, H2, H3, H4, H5, H6, !length_map. repeat split; exact Hl.
Qed.

Lemma evaluation_log_witness :
  exists m,
    snd (evaluate_agent_comprehensive four_bins 0.5 2 3 steady) = inr m /\
    length (all_temperatures m) = 6%nat.
Proof.
  destruct (snd (evaluate_agent_comprehensive four_bins 0.5 2 3 steady))
    as [e | m] eqn:H; [vm_compute in H; discriminate |].
  exists m. split; [reflexivity |].
  destruct (evaluation_log four_bins 0.5 2 3 steady m H) as (_ & Hl & _).
  exact Hl.
Defined.

(** ** Evaluation is pure exploitation *)

Lemma for_range_ext {L} (P : Store -> Prop) (body1 body2 : nat -> L -> Run.M L) :
  (forall i acc st, P st -> body1 i acc st = body2 i acc st) ->
  (forall i acc st, P st -> P (fst (body1 i acc st))) ->
  forall count start acc st,
    P st ->
    Run.for_range body1 start count acc st
    = Run.for_range body2 start count acc st.
Proof.
  intros Hext Hpres. induction count as [| count IH]; intros start acc st HP.
  - reflexivity.
  - cbn [Run.for_range]. unfold Run.bind.
    rewrite <- (Hext start acc st HP).
    pose proof (Hpres start acc st HP) as HP1.
    destruct (body1 start acc st) as [st1 [e | a1]]; [reflexivity |].
    apply IH. exact HP1.
Qed.

(** With epsilon at 0.0 and a draw that is not negative, the action does
    not depend on the draws of the exploration. *)
Lemma choose_action_without_exploration ag state u1 u2 k1 k2 :
  epsilon ag = 0.0 -> 0 <= u1 -> 0 <= u2 ->
  choose_action ag state u1 k1 = choose_action ag state u2 k2.
Proof.
  intros He H1 H2. unfold choose_action. rewrite He.
  assert (E1 : Py.ltb u1 0.0 = false) by (apply ltb_ge; lra).
  assert (E2 : Py.ltb u2 0.0 = false) by (apply ltb_ge; lra).
  rewrite E1, E2. reflexivity.
Qed.

Lemma eval_step_ignores_exploration d1 d2 loc st :
  epsilon (agent st) = 0.0 ->
  0 <= explore d1 -> 0 <= explore d2 ->
  env_draws d1 = env_draws d2 ->
  eval_step d1 loc st = eval_step d2 loc st.
Proof.
  intros He H1 H2 Hd. unfold eval_step, Run.bind, Run.read. rewrite Hd.
  rewrite (choose_action_without_exploration (agent st) (fst loc)
             (explore d1) (explore d2) (randint d1) (randint d2) He H1 H2).
  reflexivity.
Qed.

(** An evaluation does not explore: two runs whose draws of the
    exploration differ (being, as draws of [random.random()], not
    negative) but whose other draws agree end the same way, with the same
    agent and the same log or exception. *)
Theorem evaluation_ignores_exploration (ag : Agent) (male_ratio : Q)
    (episodes steps_per_episode : nat) (o1 o2 : Oracle) :
  (forall i j, 0 <= explore (step_draw o1 i j)) ->
  (forall i j, 0 <= explore (step_draw o2 i j)) ->
  (forall i, reset_draw o1 i = reset_draw o2 i) ->
  (forall i j, env_draws (step_draw o1 i j) = env_draws (step_draw o2 i j)) ->
  evaluate_agent_comprehensive ag male_ratio episodes steps_per_episode o1
  = evaluate_agent_comprehensive ag male_ratio episodes steps_per_episode o2.
Proof.
  intros H1 H2 Hr Hd.
  set (P := fun st : Store => epsilon (agent st) = 0.0).
  assert (Hstep : forall i j loc st, P st ->
            eval_step (step_draw o1 i j) loc st
            = eval_step (step_draw o2 i j) loc st).
  { intros i j loc st HP.
    apply eval_step_ignores_exploration; auto. }
  assert (Hepi : forall i m st, P st ->
            eval_episode o1 steps_per_episode i m st
            = eval_episode o2 steps_per_episode i m st).
  { intros i m st HP. unfold eval_episode, Run.bind, episode_start, Run.bind.
    rewrite (Hr i).
    destruct (Run.on_env _ st) as [st0 [e | t]] eqn:H0; [reflexivity |].
    assert (HP0 : P st0).
    { unfold Run.on_env, reset in H0. injection H0 as <- _. exact HP. }
    destruct (Run.read _ st0) as [st0' [e | s]] eqn:H0'; [reflexivity |].
    assert (HP0' : P st0').
    { unfold Run.read in H0'. injection H0' as <- _. exact HP0. }
    rewrite (for_range_ext P
               (fun j => eval_step (step_draw o1 i j))
               (fun j => eval_step (step_draw o2 i j))
               (fun j loc st' H => Hstep i j loc st' H)
               (fun j loc st' H =>
                  eq_trans (f_equal epsilon (eval_step_agent _ loc st')) H)
               steps_per_episode 0%nat (s, m) st0' HP0').
    reflexivity. }
  unfold evaluate_agent_comprehensive. rewrite !evaluate_run_unfold.
  cbn [agent env].
  set (st0 := {| agent := set_epsilon ag 0.0;
                 env := ASHRAEEnvironment_default male_ratio |}).
  assert (HP0 : P st0) by reflexivity.
  rewrite (for_range_ext P (eval_episode o1 steps_per_episode)
             (eval_episode o2 steps_per_episode) Hepi
             (fun i m st' H =>
                eq_trans (f_equal epsilon (eval_episode_agent o1 _ i m st')) H)
             episodes 0%nat no_metrics st0 HP0).
  reflexivity.
Qed.

Lemma evaluation_ignores_exploration_witness :
  let eager :=
    {| reset_draw := reset_draw steady;
       step_draw := fun i j =>
         {| explore := 0; randint := 4;
            env_draws := env_draws (step_draw steady i j) |} |} in
  evaluate_agent_comprehensive four_bins 0.5 2 3 steady
  = evaluate_agent_comprehensive four_bins 0.5 2 3 eager.
Proof.
  intros eager.
  apply (evaluation_ignores_exploration four_bins 0.5 2 3 steady eager).
  - intros i j. vm_compute. discriminate.
  - intros i j. vm_compute. discriminate.
  - reflexivity.
  - reflexivity.
Defined.

(** ** The summary of an evaluation *)

Lemma fold_sum_shift (l : list Q) (acc : Q) :
  fold_left Qplus l acc == acc + fold_left Qplus l 0.
Proof.
  revert acc. induction l as [| x l IH]; intros acc; cbn [fold_left].
  - ring.
  - rewrite (IH (acc + x)), (IH (0 + x)). ring.
Qed.

(** The sum of a list of booleans is the number of [True]. *)
Lemma sum_of_bools (l : list bool) :
  fold_left Qplus (map (fun b : bool => if b then 1 else 0) l) 0
  == inject_Z (Z.of_nat (length (List.filter (fun b : bool => b) l))).
Proof.
  induction l as [| b l IH]; [reflexivity |].
  cbn [map fold_left List.filter]. rewrite fold_sum_shift, IH.
  destruct b; cbn [length].
  - rewrite Nat2Z.inj_succ. unfold Z.succ. rewrite inject_Z_plus.
    change (inject_Z 1) with 1. ring.
  - ring.
Qed.

Lemma filter_length_le {A} (f : A -> bool) (l : list A) :
  (length (List.filter f l) <= length l)%nat.
Proof.
  induction l as [| x l IH]; [reflexivity |].
  cbn [List.filter]. destruct (f x); cbn [length]; lia.
Qed.

Lemma filter_all {A} (f : A -> bool) (l : list A) :
  length (List.filter f l) = length l <-> Forall (fun x => f x = true) l.
Proof.
  induction l as [| x l IH]; [split; [constructor | reflexivity] |].
  cbn [List.filter]. pose proof (filter_length_le f l).
  destruct (f x) eqn:E; cbn [length]; split; intros H'.
  - constructor; [exact E | apply IH; lia].
  - inversion H'; subst. f_equal. apply IH. assumption.
  - lia.
  - inversion H'; subst. congruence.
Qed.

Lemma filter_none {A} (f : A -> bool) (l : list A) :
  length (List.filter f l) = 0%nat <-> Forall (fun x => f x = false) l.
Proof.
  induction l as [| x l IH]; [split; [constructor | reflexivity] |].
  cbn [List.filter].
  destruct (f x) eqn:E; cbn [length]; split; intros H'.
  - lia.
  - inversion H'; subst. congruence.
  - constructor; [exact E | apply IH; exact H'].
  - inversion H'; subst. apply IH. assumption.
Qed.

(** The share of [True] in a non-empty list of booleans is the count of
    [True] over the length. *)
Lemma share_of_count (l : list bool) :
  l <> [] ->
  exists q,
    share_of l = NpFloat.Fin q /\
    q == inject_Z (Z.of_nat (length (List.filter (fun b : bool => b) l)))
         / inject_Z (Z.of_nat (length l)) /\
    0 <= q <= 1 /\
    (q == 1 <-> Forall (fun b => b = true) l) /\
    (q == 0 <-> Forall (fun b => b = false) l).
Proof.
  intros Hne.
  assert (Hlen : (0 < length l)%nat) by (destruct l; [congruence | simpl; lia]).
  assert (Hs : share_of l
               = NpFloat.Fin
                   (np_mean (map (fun b : bool => if b then 1 else 0) l)))
    by (destruct l; [congruence | reflexivity]).
  eexists. split; [exact Hs |].
  remember (length (List.filter (fun b : bool => b) l)) as k eqn:Ek.
  remember (length l) as n eqn:En.
  assert (Hn : 0 < inject_Z (Z.of_nat n)).
  { change 0 with (inject_Z 0). rewrite <- Zlt_Qlt. lia. }
  assert (Hk : (k <= n)%nat) by (subst k n; apply filter_length_le).
  assert (Hk0 : 0 <= inject_Z (Z.of_nat k)).
  { change 0 with (inject_Z 0). rewrite <- Zle_Qle. lia. }
  assert (Hkn : inject_Z (Z.of_nat k) <= inject_Z (Z.of_nat n))
    by (rewrite <- Zle_Qle; lia).
  assert (Eq : np_mean (map (fun b : bool => if b then 1 else 0) l)
               == inject_Z (Z.of_nat k) / inject_Z (Z.of_nat n)).
  { unfold np_mean. rewrite sum_of_bools, length_map, <- Ek, <- En.
    reflexivity. }
  split; [exact Eq |]. rewrite Eq.
  split; [split; [apply Qle_shift_div_l | apply Qle_shift_div_r]; lra |].
  split; split; intros H.
  - apply (filter_all (fun b : bool => b)).
    assert (E : inject_Z (Z.of_nat k) == inject_Z (Z.of_nat n)).
    { assert (E' : inject_Z (Z.of_nat k)
                   == inject_Z (Z.of_nat k) / inject_Z (Z.of_nat n)
                      * inject_Z (Z.of_nat n)) by (field; lra).
      rewrite E', H. ring. }
    unfold Qeq in E. simpl in E. rewrite <- Ek, <- En. lia.
  - apply (filter_all (fun b : bool => b)) in H. rewrite <- Ek, <- En in H.
    rewrite H. field. lra.
  - apply (filter_none (fun b : bool => b)).
    assert (E : inject_Z (Z.of_nat k) == 0).
    { assert (E' : inject_Z (Z.of_nat k)
                   == inject_Z (Z.of_nat k) / inject_Z (Z.of_nat n)
                      * inject_Z (Z.of_nat n)) by (field; lra).
      rewrite E', H. ring. }
    unfold Qeq in E. simpl in E. rewrite <- Ek. lia.
  - apply (filter_none (fun b : bool => b)) in H. rewrite <- Ek in H.
    rewrite H. change (inject_Z (Z.of_nat 0)) with 0. field. lra.
Qed.

Lemma filter_map_length {A} (f : A -> bool) (l : list A) :
  length (List.filter (fun b : bool => b) (map f l))
  = length (List.filter f l).
Proof.
  induction l as [| x l IH]; [reflexivity |].
  cbn [map List.filter]. destruct (f x); cbn [length]; lia.
Qed.

Lemma temperature_control_unit (m : AllMetrics) :
  all_temperatures m <> [] ->
  exists q, calculate_temperature_control_accuracy m = NpFloat.Fin q /\
            0 <= q <= 1.
Proof.
  intros Hne. unfold calculate_temperature_control_accuracy.
  destruct (share_of_count
              (map (fun t => Py.leb 20.0 t && Py.leb t 26.0)
                 (all_temperatures m)))
    as (q & Hq & _ & Hr & _).
  { destruct (all_temperatures m); [congruence | discriminate]. }
  exists q. split; assumption.
Qed.

(** The temperature control accuracy is the share of the logged
    temperatures within [20, 26], both ends included: NaN (0/0) for an
    empty log, otherwise a number in [0, 1] that is 1 exactly when every
    temperature is within the band and 0 exactly when none is. *)
Theorem temperature_control_accuracy_share (m : AllMetrics) :
  (all_temperatures m = [] ->
   calculate_temperature_control_accuracy m = NpFloat.NaN) /\
  (all_temperatures m <> [] ->
   exists q,
     calculate_temperature_control_accuracy m = NpFloat.Fin q /\
     q == inject_Z (Z.of_nat
            (length (List.filter (fun t => Py.leb 20.0 t && Py.leb t 26.0)
                       (all_temperatures m))))
          / inject_Z (Z.of_nat (length (all_temperatures m))) /\
     0 <= q <= 1 /\
     (q == 1 <-> Forall (fun t => 20 <= t <= 26) (all_temperatures m)) /\
     (q == 0 <-> Forall (fun t => t < 20 \/ 26 < t) (all_temperatures m))).
Proof.
  unfold calculate_temperature_control_accuracy. split.
  - intros ->. reflexivity.
  - intros Hne.
    set (f := fun t => Py.leb 20.0 t && Py.leb t 26.0).
    destruct (share_of_count (map f (all_temperatures m)))
      as (q & Hq & Ec & Hr & H1 & H0).
    { destruct (all_temperatures m); [congruence | discriminate]. }
    exists q. split; [exact Hq |].
    rewrite filter_map_length, length_map in Ec.
    split; [exact Ec |]. split; [exact Hr |].
    rewrite H1, H0, !Forall_map, !Forall_forall.
    split; split; intros H t Ht; specialize (H t Ht); cbn beta in *;
      unfold f in *.
    + apply andb_true_iff in H. destruct H as [Ha Hb].
      apply leb_le in Ha, Hb. split; lra.
    + apply andb_true_iff. split; apply leb_le; lra.
    + apply andb_false_iff in H. destruct H as [H | H]; apply leb_gt in H;
        [left | right]; lra.
    + apply andb_false_iff. destruct H as [H | H]; [left | right];
        apply leb_gt; lra.
Qed.

Lemma temperature_control_accuracy_share_witness :
  exists q,
    calculate_temperature_control_accuracy
      {| all_temperatures := [22.0; 27.0];
         all_male_comforts := []; all_female_comforts := [];
         male_tsvs := []; female_tsvs := [];
         male_preferences := []; female_preferences := [] |}
    = NpFloat.Fin q /\ q == 1 # 2.
Proof.
  set (m := {| all_temperatures := [22.0; 27.0];
               all_male_comforts := []; all_female_comforts := [];
               male_tsvs := []; female_tsvs := [];
               male_preferences := []; female_preferences := [] |}).
  destruct (proj2 (temperature_control_accuracy_share m))
    as (q & Eq & Ec & _); [discriminate |].
  exists q. split; [exact Eq |]. rewrite Ec. reflexivity.
Defined.

Lemma clamp_accuracy_unit (x : NpFloat.t) :
  exists y, clamp_accuracy x = NpFloat.Fin y /\ 0 <= y <= 1.
Proof.
  unfold clamp_accuracy.
  destruct x as [q | | |]; cbn [np_lt].
  - destruct (Py.ltb q 1) eqn:E1; cbn [np_lt].
    + destruct (Py.ltb 0 q) eqn:E2.
      * apply ltb_lt in E1, E2. exists q. split; [reflexivity | lra].
      * exists 0. split; [reflexivity | lra].
    + change (Py.ltb 0 1) with true. exists 1. split; [reflexivity | lra].
  - change (Py.ltb 0 1) with true. cbn. exists 1. split; [reflexivity | lra].
  - exists 0. split; [reflexivity | lra].
  - change (Py.ltb 0 1) with true. cbn. exists 1. split; [reflexivity | lra].
Qed.

Lemma elementwise_some {A B C} (f : A -> B -> C) xs ys :
  length xs = length ys ->
  elementwise f xs ys
  = Some (map (fun p => f (fst p) (snd p)) (combine xs ys)) /\
  length (map (fun p => f (fst p) (snd p)) (combine xs ys)) = length xs.
Proof.
  intros H. unfold elementwise. rewrite H, Nat.eqb_refl.
  split; [reflexivity |].
  rewrite length_map, length_combine, H. apply Nat.min_id.
Qed.

Lemma half_sum_unit (a b : Q) :
  0 <= a <= 1 -> 0 <= b <= 1 ->
  exists q, half_sum (NpFloat.Fin a) (NpFloat.Fin b) = NpFloat.Fin q /\
            q == (a + b) / 2 /\ 0 <= q <= 1.
Proof.
  intros Ha Hb. exists ((a + b) / 2).
  split; [reflexivity |]. split; [reflexivity |].
  apply div_between; [reflexivity | lra].
Qed.

(** The thermal comfort accuracy is a number in [0, 1] whenever the
    columns it compares have equal lengths, also for an empty log: the
    NaN mean of no errors is turned into 1 by [min(1, nan)]. *)
Lemma thermal_accuracy_unit (m : AllMetrics) :
  length (all_male_comforts m) = length (male_tsvs m) ->
  length (all_female_comforts m) = length (female_tsvs m) ->
  exists th, calculate_thermal_comfort_accuracy m = Some (NpFloat.Fin th) /\
             0 <= th <= 1.
Proof.
  intros H1 H2. unfold calculate_thermal_comfort_accuracy.
  destruct (elementwise_some (fun c t => Qabs (c - t)) (all_male_comforts m)
              (map target_comfort_from_tsv (male_tsvs m))) as [E1 _];
    [rewrite length_map; exact H1 |].
  destruct (elementwise_some (fun c t => Qabs (c - t)) (all_female_comforts m)
              (map target_comfort_from_tsv (female_tsvs m))) as [E2 _];
    [rewrite length_map; exact H2 |].
  rewrite E1, E2.
  destruct (clamp_accuracy_unit
              (NpFloat.sub (NpFloat.Fin 1)
                 (mean_of (map (fun p => Qabs (fst p - snd p))
                             (combine (all_male_comforts m)
                                (map target_comfort_from_tsv (male_tsvs m)))))))
    as (a & Ea & Ha).
  destruct (clamp_accuracy_unit
              (NpFloat.sub (NpFloat.Fin 1)
                 (mean_of (map (fun p => Qabs (fst p - snd p))
                             (combine (all_female_comforts m)
                                (map target_comfort_from_tsv (female_tsvs m)))))))
    as (b & Eb & Hb).
  rewrite Ea, Eb.
  destruct (half_sum_unit a b Ha Hb) as (q & Eq & _ & Hq).
  exists q. rewrite Eq. split; [reflexivity | exact Hq].
Qed.

Lemma preference_accuracy_unit (m : AllMetrics) :
  male_preferences m <> [] ->
  length (male_preferences m) = length (male_tsvs m) ->
  length (female_preferences m) = length (female_tsvs m) ->
  length (female_preferences m) = length (male_preferences m) ->
  exists pr, calculate_preference_accuracy m = Some (NpFloat.Fin pr) /\
             0 <= pr <= 1.
Proof.
  intros Hne H1 H2 H3. unfold calculate_preference_accuracy.
  destruct (elementwise_some Z.eqb (male_preferences m)
              (map expected_preference (male_tsvs m))) as [E1 L1];
    [rewrite length_map; exact H1 |].
  destruct (elementwise_some Z.eqb (female_preferences m)
              (map expected_preference (female_tsvs m))) as [E2 L2];
    [rewrite length_map; exact H2 |].
  rewrite E1, E2.
  assert (Hlen : (0 < length (male_preferences m))%nat)
    by (destruct (male_preferences m); [congruence | simpl; lia]).
  destruct (share_of_count
              (map (fun p => Z.eqb (fst p) (snd p))
                 (combine (male_preferences m)
                    (map expected_preference (male_tsvs m)))))
    as (a & Ea & _ & Ha & _).
  { intros E. rewrite E in L1. simpl in L1. lia. }
  destruct (share_of_count
              (map (fun p => Z.eqb (fst p) (snd p))
                 (combine (female_preferences m)
                    (map expected_preference (female_tsvs m)))))
    as (b & Eb & _ & Hb & _).
  { intros E. rewrite E in L2. simpl in L2. lia. }
  rewrite Ea, Eb.
  destruct (half_sum_unit a b Ha Hb) as (q & Eq & _ & Hq).
  exists q. rewrite Eq. split; [reflexivity | exact Hq].
Qed.

Lemma mean_of_between (l : list Q) (a b : Q) :
  l <> [] -> Forall (fun x => a <= x <= b) l ->
  exists q, mean_of l = NpFloat.Fin q /\ q == np_mean l /\ a <= q <= b.
Proof.
  intros Hne Hall. exists (np_mean l).
  split; [destruct l; [congruence | reflexivity] |].
  split; [reflexivity |]. apply np_mean_between; assumption.
Qed.

Lemma summary_of_log (m : AllMetrics) :
  log_well_formed m -> all_temperatures m <> [] ->
  exists res,
    evaluation_results m = Some res /\
    (exists t, avg_temperature res = NpFloat.Fin t /\ 16 <= t <= 32) /\
    (exists mc fc g,
        avg_male_comfort res = NpFloat.Fin mc /\
        avg_female_comfort res = NpFloat.Fin fc /\
        fairness_gap res = NpFloat.Fin g /\
        0.09 <= mc <= 1 /\ 0.09 <= fc <= 1 /\
        g == Qabs (mc - fc) /\ 0 <= g <= 0.91) /\
    (exists th tc pr ov,
        thermal_comfort_accuracy res = NpFloat.Fin th /\
        temperature_control_accuracy res = NpFloat.Fin tc /\
        preference_prediction_accuracy res = NpFloat.Fin pr /\
        overall_system_accuracy res = NpFloat.Fin ov /\
        0 <= th <= 1 /\ 0 <= tc <= 1 /\ 0 <= pr <= 1 /\
        ov == 0.4 * th + 0.3 * tc + 0.3 * pr /\ 0 <= ov <= 1).
Proof.
  intros (H1 & H2 & H3 & H4 & H5 & H6 & _ & _ & Ht) Hne.
  assert (Hmne : all_male_comforts m <> []).
  { rewrite H1. destruct (all_temperatures m); [congruence | discriminate]. }
  assert (Hfne : all_female_comforts m <> []).
  { rewrite H2. destruct (all_temperatures m); [congruence | discriminate]. }
  assert (Hpne : male_preferences m <> []).
  { rewrite H3. destruct (all_temperatures m); [congruence | discriminate]. }
  destruct (thermal_accuracy_unit m) as (th & Eth & Hth).
  { rewrite H1, length_map. symmetry. exact H5. }
  { rewrite H2, length_map. symmetry. exact H6. }
  destruct (preference_accuracy_unit m Hpne) as (pr & Epr & Hpr).
  { rewrite H3, length_map. symmetry. exact H5. }
  { rewrite H4, length_map. symmetry. exact H6. }
  { rewrite H3, H4, !length_map. reflexivity. }
  destruct (temperature_control_unit m Hne) as (tc & Etc & Htc).
  destruct (mean_of_between (all_temperatures m) 16 32 Hne Ht)
    as (t & Et & _ & Htr).
  destruct (mean_of_between (all_male_comforts m) 0.09 1 Hmne)
    as (mc & Emc & _ & Hmc).
  { rewrite H1. apply Forall_map, Forall_forall. intros x _.
    apply comfort_score_bounds. }
  destruct (mean_of_between (all_female_comforts m) 0.09 1 Hfne)
    as (fc & Efc & _ & Hfc).
  { rewrite H2. apply Forall_map, Forall_forall. intros x _.
    apply comfort_score_bounds. }
  unfold evaluation_results. rewrite Eth, Epr. eexists. split; [reflexivity |].
  cbn [avg_temperature avg_male_comfort avg_female_comfort fairness_gap
       thermal_comfort_accuracy temperature_control_accuracy
       preference_prediction_accuracy overall_system_accuracy].
  rewrite Et, Emc, Efc, Etc. cbn [NpFloat.sub NpFloat.mul np_add np_abs].
  split; [exists t; split; [reflexivity | exact Htr] |].
  split.
  - exists mc, fc, (Qabs (mc - fc)).
    repeat (split; [first [reflexivity | apply Hmc | apply Hfc] |]).
    split; [apply Qabs_nonneg |].
    apply Qabs_Qle_condition. split; lra.
  - exists th, tc, pr, (0.4 * th + 0.3 * tc + 0.3 * pr).
    repeat (split; [first [reflexivity | lra] |]). lra.
Qed.

(** An evaluation that returns after at least one step reports finite
    numbers in their ranges: the mean temperature within [16, 32], the two
    mean comforts within [0.09, 1], the fairness gap as the absolute
    difference of the two means and at most 0.91, the three accuracies
    within [0, 1], and the overall accuracy as
    0.4 thermal + 0.3 control + 0.3 preference, within [0, 1] too.  No
    array operation of the summary meets arrays of unequal lengths. *)
Theorem evaluation_summary_ranges (ag : Agent) (male_ratio : Q)
    (episodes steps_per_episode : nat) (o : Oracle) (m : AllMetrics) :
  snd (evaluate_agent_comprehensive ag male_ratio episodes steps_per_episode o)
    = inr m ->
  (0 < episodes * steps_per_episode)%nat ->
  exists res,
    evaluation_results m = Some res /\
    (exists t, avg_temperature res = NpFloat.Fin t /\ 16 <= t <= 32) /\
    (exists mc fc g,
        avg_male_comfort res = NpFloat.Fin mc /\
        avg_female_comfort res = NpFloat.Fin fc /\
        fairness_gap res = NpFloat.Fin g /\
        0.09 <= mc <= 1 /\ 0.09 <= fc <= 1 /\
        g == Qabs (mc - fc) /\ 0 <= g <= 0.91) /\
    (exists th tc pr ov,
        thermal_comfort_accuracy res = NpFloat.Fin th /\
        temperature_control_accuracy res = NpFloat.Fin tc /\
        preference_prediction_accuracy res = NpFloat.Fin pr /\
        overall_system_accuracy res = NpFloat.Fin ov /\
        0 <= th <= 1 /\ 0 <= tc <= 1 /\ 0 <= pr <= 1 /\
        ov == 0.4 * th + 0.3 * tc + 0.3 * pr /\ 0 <= ov <= 1).
Proof.
  intros H Hpos. destruct (evaluate_returns_log _ _ _ _ _ _ H) as [Hw Hl].
  apply summary_of_log; [exact Hw |].
  intros E. rewrite E in Hl. simpl in Hl. lia.
Qed.

Lemma evaluation_summary_ranges_witness :
  exists m res,
    snd (evaluate_agent_comprehensive four_bins 0.5 2 3 steady) = inr m /\
    evaluation_results m = Some res /\
    exists ov, overall_system_accuracy res = NpFloat.Fin ov /\ 0 <= ov <= 1.
Proof.
  destruct (snd (evaluate_agent_comprehensive four_bins 0.5 2 3 steady))
    as [e | m] eqn:H; [vm_compute in H; discriminate |].
  destruct (evaluation_summary_ranges four_bins 0.5 2 3 steady m H)
    as (res & Er & _ & _ & (th & tc & pr & ov & _ & _ & _ & Eo & _ & _ & _ & _ & Ho));
    [simpl; lia |].
  exists m, res. split; [reflexivity |]. split; [exact Er |].
  exists ov. split; assumption.
Defined.

Lemma eval_no_steps o episodes :
  forall start m st,
    exists st',
      Run.for_range (eval_episode o 0) start episodes m st = (st', inr m) /\
      agent st' = agent st.
Proof.
  induction episodes as [| n IH]; intros start m st.
  - exists st. split; reflexivity.
  - cbn [Run.for_range]. unfold Run.bind at 1.
    unfold eval_episode, Run.bind, episode_start, Run.bind, Run.on_env,
      Run.read, reset. cbn [agent env Run.for_range Run.ret snd].
    destruct (discretize_state_default_returns (agent st)
                (reset_draw o start)) as [s Hs].
    rewrite Hs. cbn [snd].
    destruct (IH (S start) m
                {| agent := agent st;
                   env := set_current_temp (env st) (reset_draw o start) |})
      as (st' & E & Ha).
    exists st'. split; [exact E | exact Ha].
Qed.

(** An evaluation over no step at all (no episode, or episodes of no step)
    returns the empty log and leaves the agent as it was.  The summary of
    the empty log raises nothing: the means, the rates, the fairness gap,
    the temperature control accuracy, the preference accuracy and the
    overall accuracy are NaN, while the thermal comfort accuracy is 1,
    since [min(1, nan)] is 1. *)
Theorem evaluation_without_steps (ag : Agent) (male_ratio : Q) (n : nat)
    (o : Oracle) :
  evaluate_agent_comprehensive ag male_ratio 0 n o = (ag, inr no_metrics) /\
  evaluate_agent_comprehensive ag male_ratio n 0 o = (ag, inr no_metrics) /\
  exists res th,
    evaluation_results no_metrics = Some res /\
    avg_temperature res = NpFloat.NaN /\
    avg_male_comfort res = NpFloat.NaN /\
    avg_female_comfort res = NpFloat.NaN /\
    fairness_gap res = NpFloat.NaN /\
    male_satisfaction_rate res = NpFloat.NaN /\
    female_satisfaction_rate res = NpFloat.NaN /\
    overall_satisfaction_rate res = NpFloat.NaN /\
    thermal_comfort_accuracy res = NpFloat.Fin th /\ th == 1 /\
    temperature_control_accuracy res = NpFloat.NaN /\
    preference_prediction_accuracy res = NpFloat.NaN /\
    overall_system_accuracy res = NpFloat.NaN.
Proof.
  split; [| split].
  - unfold evaluate_agent_comprehensive. rewrite evaluate_run_unfold.
    cbn [Run.for_range Run.ret agent env fst snd].
    rewrite set_epsilon_back. reflexivity.
  - unfold evaluate_agent_comprehensive. rewrite evaluate_run_unfold.
    cbn [agent env].
    destruct (eval_no_steps o n 0%nat no_metrics
                {| agent := set_epsilon ag 0.0;
                   env := ASHRAEEnvironment_default male_ratio |})
      as (st' & E & Ha).
    rewrite E. cbn [fst snd agent]. rewrite Ha. cbn [agent].
    rewrite set_epsilon_back. reflexivity.
  - eexists. exists ((1 + 1) / 2). split; [reflexivity |].
    cbn. repeat split; reflexivity.
Qed.

Lemma share_of_satisfied (l : list Q) :
  l <> [] ->
  exists q,
    share_of (map satisfied l) = NpFloat.Fin q /\
    q == inject_Z (Z.of_nat (length (List.filter satisfied l)))
         / inject_Z (Z.of_nat (length l)) /\
    0 <= q <= 1 /\
    (q == 1 <-> Forall (fun c => 0.6 < c) l) /\
    (q == 0 <-> Forall (fun c => c <= 0.6) l).
Proof.
  intros Hne.
  destruct (share_of_count (map satisfied l)) as (q & Hq & Ec & Hr & H1 & H0).
  { destruct l; [congruence | discriminate]. }
  exists q. rewrite filter_map_length, length_map in Ec.
  split; [exact Hq |]. split; [exact Ec |]. split; [exact Hr |].
  rewrite H1, H0, !Forall_map, !Forall_forall. unfold satisfied.
  split; split; intros H c Hc; specialize (H c Hc); cbn beta in *.
  - apply ltb_lt in H. exact H.
  - apply ltb_lt. exact H.
  - apply ltb_ge in H. exact H.
  - apply ltb_ge. exact H.
Qed.

(** The satisfaction rates of the summary are shares of the logged comfort
    scores strictly above 0.6 (a score of exactly 0.6 does not count): the
    male and the female rate over their own column, the overall rate over
    the two columns pooled.  Each rate is in [0, 1], is 1 exactly when all
    its scores are above 0.6 and 0 exactly when none is; for columns of
    equal length the overall rate is the average of the two rates. *)
Theorem satisfaction_rates (m : AllMetrics) (res : Results) :
  evaluation_results m = Some res ->
  all_male_comforts m <> [] -> all_female_comforts m <> [] ->
  exists qm qf qo,
    male_satisfaction_rate res = NpFloat.Fin qm /\
    female_satisfaction_rate res = NpFloat.Fin qf /\
    overall_satisfaction_rate res = NpFloat.Fin qo /\
    qm == inject_Z (Z.of_nat
            (length (List.filter satisfied (all_male_comforts m))))
          / inject_Z (Z.of_nat (length (all_male_comforts m))) /\
    qf == inject_Z (Z.of_nat
            (length (List.filter satisfied (all_female_comforts m))))
          / inject_Z (Z.of_nat (length (all_female_comforts m))) /\
    qo == inject_Z (Z.of_nat
            (length (List.filter satisfied (all_male_comforts m))
             + length (List.filter satisfied (all_female_comforts m))))
          / inject_Z (Z.of_nat (length (all_male_comforts m)
                                + length (all_female_comforts m))) /\
    0 <= qm <= 1 /\ 0 <= qf <= 1 /\ 0 <= qo <= 1 /\
    (qm == 1 <-> Forall (fun c => 0.6 < c) (all_male_comforts m)) /\
    (qm == 0 <-> Forall (fun c => c <= 0.6) (all_male_comforts m)) /\
    (qf == 1 <-> Forall (fun c => 0.6 < c) (all_female_comforts m)) /\
    (qf == 0 <-> Forall (fun c => c <= 0.6) (all_female_comforts m)) /\
    (length (all_female_comforts m) = length (all_male_comforts m) ->
     qo == (qm + qf) / 2).
Proof.
  intros Hres Hm Hf. unfold evaluation_results in Hres.
  destruct (calculate_thermal_comfort_accuracy m) as [th |]; [| discriminate].
  destruct (calculate_preference_accuracy m) as [pr |]; [| discriminate].
  injection Hres as <-.
  cbn [male_satisfaction_rate female_satisfaction_rate
       overall_satisfaction_rate].
  destruct (share_of_satisfied _ Hm) as (qm & Em & Cm & Rm & M1 & M0).
  destruct (share_of_satisfied (all_male_comforts m ++ all_female_comforts m))
    as (qo & Eo & Co & Ro & _).
  { destruct (all_male_comforts m); [congruence | discriminate]. }
  destruct (share_of_satisfied _ Hf) as (qf & Ef & Cf & Rf & F1 & F0).
  exists qm, qf, qo. rewrite Em, Ef, Eo.
  rewrite List.filter_app, !length_app in Co.
  repeat (split; [first [reflexivity | assumption] |]).
  intros Hlen. rewrite Co, Cm, Cf, Hlen.
  assert (Hn : (0 < length (all_male_comforts m))%nat)
    by (destruct (all_male_comforts m); [congruence | simpl; lia]).
  remember (length (all_male_comforts m)) as n.
  remember (length (List.filter satisfied (all_male_comforts m))) as a.
  remember (length (List.filter satisfied (all_female_comforts m))) as b.
  rewrite !Nat2Z.inj_add, !inject_Z_plus.
  assert (Hq : 0 < inject_Z (Z.of_nat n)).
  { change 0 with (inject_Z 0). rewrite <- Zlt_Qlt. lia. }
  field. lra.
Qed.

Lemma satisfaction_rates_witness :
  exists res qm qf qo,
    evaluation_results
      {| all_temperatures := [22.0; 26.0];
         all_male_comforts := [1.0; 0.2]; all_female_comforts := [0.6; 0.7];
         male_tsvs := [0; 1]%Z; female_tsvs := [0; 0]%Z;
         male_preferences := [0; -1]%Z; female_preferences := [0; 0]%Z |}
    = Some res /\
    male_satisfaction_rate res = NpFloat.Fin qm /\
    female_satisfaction_rate res = NpFloat.Fin qf /\
    overall_satisfaction_rate res = NpFloat.Fin qo /\
    qm == 1 # 2 /\ qf == 1 # 2 /\ qo == 1 # 2.
Proof.
  set (m := {| all_temperatures := [22.0; 26.0];
               all_male_comforts := [1.0; 0.2];
               all_female_comforts := [0.6; 0.7];
               male_tsvs := [0; 1]%Z; female_tsvs := [0; 0]%Z;
               male_preferences := [0; -1]%Z;
               female_preferences := [0; 0]%Z |}).
  destruct (evaluation_results m) as [res |] eqn:H;
    [| vm_compute in H; discriminate].
  destruct (satisfaction_rates m res H)
    as (qm & qf & qo & Em & Ef & Eo & Cm & Cf & Co & _);
    [discriminate | discriminate |].
  exists res, qm, qf, qo.
  split; [reflexivity |].
  split; [exact Em |]. split; [exact Ef |]. split; [exact Eo |].
  split; [rewrite Cm; reflexivity |].
  split; [rewrite Cf; reflexivity | rewrite Co; reflexivity].
Defined.
